(** * Vastu Plot Studio: zone geometry and area analysis

    A shallow embedding of the numerical core of [software.py]
    (class [PlotAnalyzerApp]): polygon centroid and shoelace area,
    ray/boundary intersection, the mask based 16-zone area engine, the
    balance lines (LOB / ULOB / LLOB) with their remarks, and the
    prakriti grouping of the PDF report.

    Number model.  Python's [float] values are modelled by the real
    numbers of the Standard Library: [+ - * /], [abs], comparisons,
    [math.sin], [math.cos], [math.radians] and [math.hypot] are the
    exact real operations, so rounding, infinities and NaN are outside
    the model.  The theorems therefore say which formula and which
    control flow the code evaluates; an equality between two results
    the code computes along different float paths (such as the wedge
    vertices at a tilt and at that tilt plus 360 degrees) is exact here
    only and is not stated.  Python [int] loop counters are [nat];
    pixel coordinates handed to OpenCV ([np.int32]) are [Z]; [uint8]
    mask cells are [Z] holding 0 or 255.

    Comparisons of floats are the boolean functions [float_lt],
    [float_le], [float_gt] and [float_ge], decided by the order of the
    reals; the definitions are functions in the shape of the Python
    code, and they are run on concrete inputs by rewriting (the reals do
    not compute by reduction).

    Effects.  The methods read and write fields of [self]; the fields
    the core touches form the record [PlotAnalyzerApp], and a method
    that updates them returns the new record.  A message box is returned
    as a value.  A Python exception is [None] in an [option].  The
    rasterizer of OpenCV is a parameter of the mask engine. *)

From Stdlib Require Import String Reals Lra Lia ZArith Bool Arith List.
Import ListNotations.
Open Scope R_scope.

(* ================================================================== *)
(** * Part I: the embedding                                            *)
(* ================================================================== *)

(** ** Floats, points and Python built-ins *)

(** A point is the tuple [(x, y)] of two floats. *)
Abbreviation point := (R * R)%type.

(** Boolean comparisons of floats ([<], [<=], [>], [>=]). *)
Definition float_lt (x y : R) : bool := if Rlt_dec x y then true else false.
Definition float_le (x y : R) : bool := if Rle_dec x y then true else false.
Definition float_gt (x y : R) : bool := if Rgt_dec x y then true else false.
Definition float_ge (x y : R) : bool := if Rge_dec x y then true else false.

(** Exceptions: [None] stands for a raised Python exception. *)
Definition bind {A B : Type} (m : option A) (k : A -> option B) : option B :=
  match m with
  | Some a => k a
  | None => None
  end.

Notation "x <- m ;; k" := (bind m (fun x => k))
  (at level 61, m at next level, right associativity).

Module Py.

(** [sum(l)]: left to right, starting from 0. *)
Definition sum (l : list R) : R := fold_left Rplus l 0.

(** [max(l)]: the first element, replaced by every later element that
    is strictly greater; [ValueError] on an empty list. *)
Definition max (l : list R) : option R :=
  match l with
  | [] => None
  | a :: rest =>
      Some (fold_left (fun m x => if float_gt x m then x else m) rest a)
  end.

(** [min(l)], symmetric. *)
Definition min (l : list R) : option R :=
  match l with
  | [] => None
  | a :: rest =>
      Some (fold_left (fun m x => if float_lt x m then x else m) rest a)
  end.

(** [d[k]] on a dict kept as an association list in insertion order;
    [KeyError] when the key is absent. *)
Fixpoint getitem (d : list (string * R)) (k : string) : option R :=
  match d with
  | [] => None
  | (k', v) :: rest => if String.eqb k k' then Some v else getitem rest k
  end.

(** [sorted(items, key=lambda x: x[1], reverse=True)]: a stable sort in
    descending order of the value; equal values keep their order. *)
Fixpoint insert_desc (x : string * R) (l : list (string * R))
  : list (string * R) :=
  match l with
  | [] => [x]
  | y :: rest =>
      if float_lt (snd y) (snd x) then x :: y :: rest
      else y :: insert_desc x rest
  end.

Definition sorted_desc (items : list (string * R)) : list (string * R) :=
  fold_left (fun acc x => insert_desc x acc) items [].

(** Sequencing of a list of fallible computations. *)
Fixpoint all_some {A : Type} (l : list (option A)) : option (list A) :=
  match l with
  | [] => Some []
  | x :: rest => a <- x ;; r <- all_some rest ;; Some (a :: r)
  end.

End Py.

(** [math.radians]. *)
Definition radians (deg : R) : R := deg * (PI / 180).

(** [math.hypot]. *)
Definition hypot (a b : R) : R := sqrt (a * a + b * b).

(** [np.roll(v, -1)]: every element moves one place to the left and the
    first one wraps around to the end. *)
Definition roll_left {A : Type} (v : list A) : list A :=
  match v with
  | [] => []
  | a :: rest => rest ++ [a]
  end.

(** The closed chain of edges [(points[i], points[(i + 1) % n])]. *)
Definition closed_edges {A : Type} (l : list A) : list (A * A) :=
  combine l (roll_left l).

(** [np.dot] of two vectors. *)
Definition dot (u v : list R) : R :=
  Py.sum (map (fun p => fst p * snd p) (combine u v)).

(** The tolerance [1e-9] used by the centroid and by the ray caster. *)
Definition eps : R := 1e-9.

(** ** Polygon centroid and area *)

(** [_polygon_centroid]: one pass over [range(n)] with three
    accumulators; [None] when [abs(area2) < 1e-9]. *)
Definition centroid_step (points : list point) (acc : R * R * R) (i : nat)
  : R * R * R :=
  let '(area2, cx_acc, cy_acc) := acc in
  let '(x1, y1) := nth i points (0, 0) in
  let '(x2, y2) := nth ((i + 1) mod length points) points (0, 0) in
  let cross := x1 * y2 - x2 * y1 in
  (area2 + cross, cx_acc + (x1 + x2) * cross, cy_acc + (y1 + y2) * cross).

Definition _polygon_centroid (points : list point) : option point :=
  let n := length points in
  let '(area2, cx_acc, cy_acc) :=
    fold_left (centroid_step points) (seq 0 n) (0, 0, 0) in
  if float_lt (Rabs area2) eps then None
  else
    let cx := cx_acc / (3 * area2) in
    let cy := cy_acc / (3 * area2) in
    Some (cx, cy).

(** [_polygon_area]: shoelace formula through two dot products.  On an
    empty list [pts[:, 0]] raises [IndexError]. *)
Definition _polygon_area (points : list point) : option R :=
  match points with
  | [] => None
  | _ =>
      let x := map fst points in
      let y := map snd points in
      let area := 0.5 * Rabs (dot x (roll_left y) - dot y (roll_left x)) in
      Some area
  end.

(** What [calculate_plot_area] shows: the warning "Please mark at least 3
    boundary points." or the info box with the area. *)
Inductive plot_area_dialog : Type :=
  | WarnAtLeast3Points
  | ShowCenterBoundaryArea (area : R).

Definition calculate_plot_area (boundary_points : list point)
  : option plot_area_dialog :=
  if (length boundary_points <? 3)%nat then Some WarnAtLeast3Points
  else
    area <- _polygon_area boundary_points ;;
    Some (ShowCenterBoundaryArea area).

(** ** Ray / boundary intersection *)

(** One iteration of the loop of [_ray_boundary_intersection]; the state
    is the pair [(nearest_t, nearest_pt)]. *)
Definition ray_step (boundary_points : list point) (ox oy dx dy : R)
  (st : option R * option point) (i : nat) : option R * option point :=
  let '(nearest_t, nearest_pt) := st in
  let '(ax, ay) := nth i boundary_points (0, 0) in
  let '(bx, by_) :=
    nth ((i + 1) mod length boundary_points) boundary_points (0, 0) in
  let sx := bx - ax in
  let sy := by_ - ay in
  let denom := dx * sy - dy * sx in
  if float_lt (Rabs denom) eps then st
  else
    let rx := ax - ox in
    let ry := ay - oy in
    let t := (rx * sy - ry * sx) / denom in
    let u := (rx * dy - ry * dx) / denom in
    if float_ge t 0 && (float_le (- eps) u && float_le u (1 + eps)) then
      let ix := ox + t * dx in
      let iy := oy + t * dy in
      match nearest_t with
      | None => (Some t, Some (ix, iy))
      | Some nt =>
          if float_lt t nt then (Some t, Some (ix, iy)) else st
      end
    else st.

Definition _ray_boundary_intersection (boundary_points : list point)
  (origin : point) (angle_deg : R) : option point :=
  if (length boundary_points <? 2)%nat then None
  else
    let '(ox, oy) := origin in
    let rad := radians angle_deg in
    let dx := sin rad in
    let dy := - cos rad in
    snd (fold_left (ray_step boundary_points ox oy dx dy)
           (seq 0 (length boundary_points)) (None, None)).

(** ** Application state *)

(** The fields of [self] read or written by the zone-area workflow.  Of
    the image only its shape [(img_h, img_w)] matters here. *)
Record PlotAnalyzerApp : Type := mk_app {
  original_bgr : option (nat * nat);
  boundary_points : list point;
  barchart_boundary_points : list point;
  barchart_polygon_closed : bool;
  center_point : option point;
  north_tilt_deg : R;
  zone_areas_cache : option (list R)
}.

Definition set_zone_areas_cache (st : PlotAnalyzerApp) (c : option (list R))
  : PlotAnalyzerApp :=
  mk_app (original_bgr st) (boundary_points st) (barchart_boundary_points st)
    (barchart_polygon_closed st) (center_point st) (north_tilt_deg st) c.

Definition set_barchart_polygon_closed (st : PlotAnalyzerApp) (b : bool)
  : PlotAnalyzerApp :=
  mk_app (original_bgr st) (boundary_points st) (barchart_boundary_points st)
    b (center_point st) (north_tilt_deg st) (zone_areas_cache st).

Definition set_north_tilt_deg (st : PlotAnalyzerApp) (tilt : R)
  : PlotAnalyzerApp :=
  mk_app (original_bgr st) (boundary_points st) (barchart_boundary_points st)
    (barchart_polygon_closed st) (center_point st) tilt (zone_areas_cache st).

(** The assignment [auto_detect_boundary] makes when the active target
    is the barchart boundary: the detected points replace
    [barchart_boundary_points] and the barchart polygon is reopened.
    The cached zone areas are left as they are. *)
Definition detect_barchart_boundary (st : PlotAnalyzerApp)
  (detected_points : list point) : PlotAnalyzerApp :=
  mk_app (original_bgr st) (boundary_points st) detected_points
    false (center_point st) (north_tilt_deg st) (zone_areas_cache st).

Definition ZONE_NAMES : list string :=
  [ "N"; "NNE"; "NE"; "ENE";
    "E"; "ESE"; "SE"; "SSE";
    "S"; "SSW"; "SW"; "WSW";
    "W"; "WNW"; "NW"; "NNW" ]%string.

(** ** Balance lines and remarks *)

(** [zone_data = {z: float(a) for z, a in zip(self.ZONE_NAMES, zone_areas)}];
    the names are distinct, so the dict keeps one entry per pair. *)
Definition zone_data_of (zone_areas : list R) : list (string * R) :=
  combine ZONE_NAMES zone_areas.

(** [lob], [ulob], [llob]. *)
Definition balance_lines (zone_data : list (string * R)) : option (R * R * R) :=
  let areas := map snd zone_data in
  match areas with
  | [] => None
  | _ =>
      let lob := Py.sum areas / INR (length areas) in
      mx <- Py.max areas ;;
      let ulob := (lob + mx) / 2 in
      mn <- Py.min areas ;;
      let llob := (lob + mn) / 2 in
      Some (lob, ulob, llob)
  end.

(** The three remark strings of the report. *)
Inductive remark : Type := High | Low | Balanced.

Definition remark_of (ulob llob v : R) : remark :=
  if float_gt v ulob then High
  else if float_lt v llob then Low
  else Balanced.

Definition remarks_of (zone_data : list (string * R)) (ulob llob : R)
  : list (string * remark) :=
  map (fun zv => (fst zv, remark_of ulob llob (snd zv))) zone_data.

(** ** Prakriti grouping *)

Definition prakriti_map : list (string * list string) :=
  [ ("Fire", ["E"; "ESE"; "SE"; "SSE"; "S"; "SSW"]);
    ("Water", ["NNW"; "N"; "NNE"; "NE"; "ENE"]);
    ("Air", ["SW"; "WSW"; "W"; "WNW"; "NW"]) ]%string.

(** [prakriti_strength = {p: sum(zone_data[z] for z in zlist) ...}]. *)
Definition prakriti_strength_of (zone_data : list (string * R))
  : option (list (string * R)) :=
  Py.all_some
    (map (fun pz =>
            vs <- Py.all_some (map (Py.getitem zone_data) (snd pz)) ;;
            Some (fst pz, Py.sum vs))
         prakriti_map).

Record prakriti_result : Type := mk_prakriti {
  prakriti_strength : list (string * R);
  total_prakriti : R;
  prakriti_percentage : list (string * R);
  prakriti_sorted : list (string * R);
  final_prakriti : string
}.

(** Either the error box "Prakriti total is zero. Cannot generate
    chart." or the values the report prints. *)
Inductive prakriti_outcome : Type :=
  | ErrorPrakritiTotalZero
  | PrakritiOk (r : prakriti_result).

Definition aggregate_prakriti (zone_data : list (string * R))
  : option prakriti_outcome :=
  prakriti_strength <- prakriti_strength_of zone_data ;;
  let total_prakriti := Py.sum (map snd prakriti_strength) in
  if float_le total_prakriti 0 then Some ErrorPrakritiTotalZero
  else
    let prakriti_percentage :=
      map (fun pv => (fst pv, snd pv / total_prakriti * 100)) prakriti_strength in
    let prakriti_sorted := Py.sorted_desc prakriti_strength in
    let final_prakriti := String.concat "-" (map fst prakriti_sorted) in
    Some (PrakritiOk (mk_prakriti prakriti_strength total_prakriti
                        prakriti_percentage prakriti_sorted final_prakriti)).

(** ** Mask based zone areas *)

(** A [uint8] image of [img_h] rows and [img_w] columns. *)
Definition mask : Type := list (list Z).

Definition np_zeros (img_h img_w : nat) : mask :=
  repeat (repeat 0%Z img_w) img_h.

(** Conversion of a float to [np.int32]: the fractional part is dropped
    (rounding toward zero).  Values beyond 32 bits do not occur for the
    image sizes the application loads and are not modelled. *)
Definition int32_of_float (r : R) : Z :=
  if Rle_dec 0 r then Int_part r else (- Int_part (- r))%Z.

Definition int32_point (p : point) : Z * Z :=
  (int32_of_float (fst p), int32_of_float (snd p)).

(** [cv2.bitwise_and] and [cv2.countNonZero]. *)
Definition bitwise_and (m1 m2 : mask) : mask :=
  map (fun rows => map (fun c => Z.land (fst c) (snd c))
                     (combine (fst rows) (snd rows)))
      (combine m1 m2).

Definition countNonZero (m : mask) : nat :=
  length (filter (fun c => negb (c =? 0)%Z) (concat m)).

(** Writing [color] into the cells selected by [paints x y]; the other
    cells keep their value. *)
Definition paint (paints : Z -> Z -> bool) (color : Z) (m : mask) : mask :=
  map (fun yr =>
         map (fun xc =>
                if paints (Z.of_nat (fst xc)) (Z.of_nat (fst yr)) then color
                else snd xc)
             (combine (seq 0 (length (snd yr))) (snd yr)))
      (combine (seq 0 (length m)) m).

(** The polygon both workflows hand to the mask engine:
    [self.barchart_boundary_points if len(...) >= 3 else
    self.boundary_points]. *)
Definition uses_barchart_boundary (st : PlotAnalyzerApp) : bool :=
  (3 <=? length (barchart_boundary_points st))%nat.

Definition barchart_points (st : PlotAnalyzerApp) : list point :=
  if uses_barchart_boundary st then barchart_boundary_points st
  else boundary_points st.

Definition is_none {A : Type} (o : option A) : bool :=
  match o with
  | None => true
  | Some _ => false
  end.

(** What [calculate_zone_areas] shows. *)
Inductive zone_dialog : Type :=
  | WarnBoundaryAndCenter
  | ShowZoneAreas (total_area sum_zone_area : R) (zones : list (string * R)).

(** The guard at the top of [export_pdf_report]. *)
Definition export_guard (st : PlotAnalyzerApp) : bool :=
  negb ((length (boundary_points st) <? 3)%nat || is_none (center_point st)).

(** The values [export_pdf_report] has computed when it opens the
    "save as" dialog; the charts and the PDF pages are drawn from them. *)
Record report_values : Type := mk_report {
  report_zone_data : list (string * R);
  report_lob : R;
  report_ulob : R;
  report_llob : R;
  report_remarks : list (string * remark);
  report_prakriti : prakriti_result
}.

Inductive export_outcome : Type :=
  | WarnMarkBoundaryAndCenterFirst
  | ExportErrorPrakritiTotalZero
  | ReportValues (r : report_values).

Section MaskEngine.

(** OpenCV's scan conversion is not part of the repository.  Which
    pixels [cv2.fillPoly] and [cv2.fillConvexPoly] paint for a given
    list of integer vertices is a parameter of the embedding. *)
Variable fillPoly_paints : list (Z * Z) -> Z -> Z -> bool.
Variable fillConvexPoly_paints : list (Z * Z) -> Z -> Z -> bool.

Definition fillPoly (m : mask) (pts : list (Z * Z)) (color : Z) : mask :=
  paint (fillPoly_paints pts) color m.

Definition fillConvexPoly (m : mask) (pts : list (Z * Z)) (color : Z) : mask :=
  paint (fillConvexPoly_paints pts) color m.

(** Body of the loop [for i in range(16)] of
    [_compute_zone_areas_mask_based]. *)
Definition zone_area (img_h img_w : nat) (polygon_mask : mask)
  (cx cy start_boundary_deg step far_r : R) (i : nat) : R :=
  let a1 := start_boundary_deg + INR i * step in
  let a2 := start_boundary_deg + INR (i + 1) * step in
  let p1 := (cx + far_r * sin (radians a1), cy - far_r * cos (radians a1)) in
  let p2 := (cx + far_r * sin (radians a2), cy - far_r * cos (radians a2)) in
  let wedge_mask := np_zeros img_h img_w in
  let tri := map int32_point [(cx, cy); (fst p1, snd p1); (fst p2, snd p2)] in
  let wedge_mask := fillConvexPoly wedge_mask tri 255 in
  let zone_mask := bitwise_and polygon_mask wedge_mask in
  INR (countNonZero zone_mask).

(** [_compute_zone_areas_mask_based]; it raises when no image is loaded
    or no center is set. *)
Definition _compute_zone_areas_mask_based (st : PlotAnalyzerApp)
  (polygon_points : list point) : option (list R) :=
  shape <- original_bgr st ;;
  let '(img_h, img_w) := shape in
  let polygon_mask := np_zeros img_h img_w in
  let poly := map int32_point polygon_points in
  let polygon_mask := fillPoly polygon_mask poly 255 in
  c <- center_point st ;;
  let '(cx, cy) := c in
  let step := 360 / 16 in
  let start_boundary_deg := north_tilt_deg st - step / 2 in
  let far_r := hypot (INR img_w) (INR img_h) * 2 in
  Some (map (zone_area img_h img_w polygon_mask cx cy start_boundary_deg
               step far_r)
            (seq 0 16)).

(** [calculate_zone_areas].  The test [barchart_points is
    self.barchart_boundary_points and len(...) >= 3] holds exactly when
    the barchart boundary was selected. *)
Definition calculate_zone_areas (st : PlotAnalyzerApp)
  : option (PlotAnalyzerApp * zone_dialog) :=
  let barchart_points := barchart_points st in
  if (length barchart_points <? 3)%nat || is_none (center_point st) then
    Some (st, WarnBoundaryAndCenter)
  else
    zone_areas <- _compute_zone_areas_mask_based st barchart_points ;;
    total_area <- _polygon_area barchart_points ;;
    let sum_zone_area := Py.sum zone_areas in
    let st := set_zone_areas_cache st (Some zone_areas) in
    let st :=
      if uses_barchart_boundary st then set_barchart_polygon_closed st true
      else st in
    Some (st, ShowZoneAreas total_area sum_zone_area
                (combine ZONE_NAMES zone_areas)).

(** The part of [export_pdf_report] that settles [zone_areas]: the
    cached vector when it has 16 entries, a fresh computation
    otherwise. *)
Definition export_zone_areas (st : PlotAnalyzerApp)
  : option (PlotAnalyzerApp * list R) :=
  let barchart_points := barchart_points st in
  r <- match zone_areas_cache st with
       | Some zone_areas =>
           if negb (length zone_areas =? 16)%nat then
             zone_areas <- _compute_zone_areas_mask_based st barchart_points ;;
             Some (set_zone_areas_cache st (Some zone_areas), zone_areas)
           else Some (st, zone_areas)
       | None =>
           zone_areas <- _compute_zone_areas_mask_based st barchart_points ;;
           Some (set_zone_areas_cache st (Some zone_areas), zone_areas)
       end ;;
  let '(st, zone_areas) := r in
  let st :=
    if uses_barchart_boundary st then set_barchart_polygon_closed st true
    else st in
  Some (st, zone_areas).

(** [export_pdf_report], from its guard to [final_prakriti]. *)
Definition export_pdf_report (st : PlotAnalyzerApp)
  : option (PlotAnalyzerApp * export_outcome) :=
  if negb (export_guard st) then Some (st, WarnMarkBoundaryAndCenterFirst)
  else
    r <- export_zone_areas st ;;
    let '(st, zone_areas) := r in
    let zone_data := zone_data_of zone_areas in
    lines <- balance_lines zone_data ;;
    let '(lob, ulob, llob) := lines in
    let remarks := remarks_of zone_data ulob llob in
    outcome <- aggregate_prakriti zone_data ;;
    match outcome with
    | ErrorPrakritiTotalZero => Some (st, ExportErrorPrakritiTotalZero)
    | PrakritiOk pr =>
        Some (st, ReportValues (mk_report zone_data lob ulob llob remarks pr))
    end.

End MaskEngine.

(** ** Formulas of the specification *)

(** A sum over the edges of the implicitly closed polygon: the sum over
    [i < n] of [g p_i p_(i+1)], with the index [i + 1] taken modulo [n]
    (so the edge from the last point back to the first is included). *)
Definition cyclic_sum (g : point -> point -> R) (pts : list point) : R :=
  let n := length pts in
  Py.sum (map (fun i => g (nth i pts (0, 0)) (nth ((i + 1) mod n) pts (0, 0)))
              (seq 0 n)).

(** [x_i * y_(i+1) - x_(i+1) * y_i]. *)
Definition cross_term (p q : point) : R := fst p * snd q - fst q * snd p.

(** The shoelace sum, and the signed area [A], half of it. *)
Definition shoelace_sum (pts : list point) : R := cyclic_sum cross_term pts.


(** The sums of the centroid formula:
    [sum_i (x_i + x_(i+1)) * (x_i * y_(i+1) - x_(i+1) * y_i)] and its
    analogue in [y]. *)
Definition centroid_x_sum (pts : list point) : R :=
  cyclic_sum (fun p q => (fst p + fst q) * cross_term p q) pts.

Definition centroid_y_sum (pts : list point) : R :=
  cyclic_sum (fun p q => (snd p + snd q) * cross_term p q) pts.

(** The update [centroid_step] applies, as a function of the two end
    points of the edge. *)
Definition centroid_edge (acc : R * R * R) (p q : point) : R * R * R :=
  (fst (fst acc) + cross_term p q,
   snd (fst acc) + (fst p + fst q) * cross_term p q,
   snd acc + (snd p + snd q) * cross_term p q).

(** The ray caster, in the words of the specification.  The direction
    of the ray for an angle in degrees: *)
Definition ray_direction (angle_deg : R) : point :=
  (sin (radians angle_deg), - cos (radians angle_deg)).

(** For the ray from [o] along [d] and the edge [a -> b]: the
    denominator [dx * sy - dy * sx] and the parameters [t] (along the
    ray) and [u] (along the edge). *)
Definition edge_denom (d a b : point) : R :=
  fst d * (snd b - snd a) - snd d * (fst b - fst a).

Definition edge_t (o d a b : point) : R :=
  ((fst a - fst o) * (snd b - snd a) - (snd a - snd o) * (fst b - fst a))
  / edge_denom d a b.

Definition edge_u (o d a b : point) : R :=
  ((fst a - fst o) * snd d - (snd a - snd o) * fst d) / edge_denom d a b.

(** An edge is skipped when the ray is parallel to it within [1e-9]. *)
Definition skipped (d a b : point) : Prop := Rabs (edge_denom d a b) < eps.

(** An edge that is not skipped yields an accepted candidate when
    [t >= 0] and [u] lies in [[-eps, 1 + eps]], with [eps = 1e-9]. *)
Definition accepted (o d a b : point) : Prop :=
  ~ skipped d a b
  /\ edge_t o d a b >= 0
  /\ - eps <= edge_u o d a b <= 1 + eps.

Definition acceptedb (o d a b : point) : bool :=
  negb (float_lt (Rabs (edge_denom d a b)) eps)
  && (float_ge (edge_t o d a b) 0
      && (float_le (- eps) (edge_u o d a b)
          && float_le (edge_u o d a b) (1 + eps))).

(** The candidate point [origin + t * d]. *)
Definition hit_point (o d a b : point) : point :=
  (fst o + edge_t o d a b * fst d, snd o + edge_t o d a b * snd d).

(** The test of the ray against one segment [a -> b]. *)
Definition segment_test (o : point) (angle_deg : R) (a b : point)
  : option point :=
  let d := ray_direction angle_deg in
  if acceptedb o d a b then Some (hit_point o d a b) else None.

(** The update [ray_step] applies, as a function of the two end points of
    the edge. *)
Definition ray_edge (o d : point) (st : option R * option point) (a b : point)
  : option R * option point :=
  if acceptedb o d a b then
    match fst st with
    | None => (Some (edge_t o d a b), Some (hit_point o d a b))
    | Some nt =>
        if float_lt (edge_t o d a b) nt
        then (Some (edge_t o d a b), Some (hit_point o d a b))
        else st
    end
  else st.

(** What the pair [(nearest_t, nearest_pt)] holds once the edges [seen]
    have been visited: nothing when none of them is accepted, otherwise
    the parameter and the point of an accepted edge of least [t]. *)
Definition nearest_of (o d : point) (seen : list (point * point))
  (st : option R * option point) : Prop :=
  match st with
  | (None, None) => forall e, In e seen -> ~ accepted o d (fst e) (snd e)
  | (Some t, Some p) =>
      exists e, In e seen
        /\ accepted o d (fst e) (snd e)
        /\ t = edge_t o d (fst e) (snd e)
        /\ p = hit_point o d (fst e) (snd e)
        /\ forall e', In e' seen -> accepted o d (fst e') (snd e') ->
                      t <= edge_t o d (fst e') (snd e')
  | _ => False
  end.

(** The balance classifier, in the words of the specification: the
    mean of a vector, and what it is to be its greatest and its least
    entry. *)
Definition mean (areas : list R) : R := Py.sum areas / INR (length areas).

Definition is_max (areas : list R) (m : R) : Prop :=
  In m areas /\ forall x, In x areas -> x <= m.

Definition is_min (areas : list R) (m : R) : Prop :=
  In m areas /\ forall x, In x areas -> m <= x.

(** The composite label as the specification words it: the leading
    letter of every group, in ranked order, joined by ["-"]. *)
Definition leading_letter_label (ranked : list (string * R)) : string :=
  String.concat "-" (map (fun p => String.substring 0 1 (fst p)) ranked).

(** ** Sample inputs *)

(** The square of the specification's examples. *)
Definition spec_square : list point := [(0, 0); (100, 0); (100, 100); (0, 100)].

(** Two simple scan conversions: one paints the vertices of the polygon
    it is given (as OpenCV's does for every polygon), the other paints
    every pixel. *)
Definition paints_vertices (pts : list (Z * Z)) (x y : Z) : bool :=
  existsb (fun p => (fst p =? x)%Z && (snd p =? y)%Z) pts.

Definition paints_all (pts : list (Z * Z)) (x y : Z) : bool := true.

(** An image of 2 x 2 pixels with a triangle marked as center-workflow
    boundary, the center set at its centroid, no barchart boundary and
    no cached zone areas. *)
Definition center_only_state : PlotAnalyzerApp :=
  mk_app (Some (2%nat, 2%nat)) [(0, 0); (1, 0); (0, 1)] [] false
    (Some (1 / 3, 1 / 3)) 0 None.

(** A barchart boundary on the same image: the square of its 4 pixels. *)
Definition pixel_square : list point := [(0, 0); (1, 0); (1, 1); (0, 1)].

(* ================================================================== *)
(** * Part II: properties                                              *)
(* ================================================================== *)

(** ** Float comparisons *)

Lemma float_lt_true (x y : R) : float_lt x y = true <-> x < y.
Proof.
  unfold float_lt; destruct (Rlt_dec x y); split; intros; congruence || lra.
Qed.

Lemma float_lt_false (x y : R) : float_lt x y = false <-> y <= x.
Proof.
  unfold float_lt; destruct (Rlt_dec x y); split; intros; congruence || lra.
Qed.

Lemma float_le_true (x y : R) : float_le x y = true <-> x <= y.
Proof.
  unfold float_le; destruct (Rle_dec x y); split; intros; congruence || lra.
Qed.

Lemma float_le_false (x y : R) : float_le x y = false <-> y < x.
Proof.
  unfold float_le; destruct (Rle_dec x y); split; intros; congruence || lra.
Qed.

Lemma float_gt_true (x y : R) : float_gt x y = true <-> x > y.
Proof.
  unfold float_gt; destruct (Rgt_dec x y); split; intros; congruence || lra.
Qed.

Lemma float_gt_false (x y : R) : float_gt x y = false <-> x <= y.
Proof.
  unfold float_gt; destruct (Rgt_dec x y); split; intros; congruence || lra.
Qed.

Lemma float_ge_true (x y : R) : float_ge x y = true <-> x >= y.
Proof.
  unfold float_ge; destruct (Rge_dec x y); split; intros; congruence || lra.
Qed.

Lemma float_ge_false (x y : R) : float_ge x y = false <-> x < y.
Proof.
  unfold float_ge; destruct (Rge_dec x y); split; intros; congruence || lra.
Qed.

Lemma eps_pos : 0 < eps.
Proof. unfold eps; lra. Qed.

(** Decides the float comparisons met in a goal whose operands are
    numerals, closing the branch that cannot happen with [lra]. *)
Ltac float_cases :=
  repeat match goal with
    | |- context [float_lt ?x ?y] =>
        let H := fresh "Hc" in
        destruct (float_lt x y) eqn:H;
        [ apply float_lt_true in H | apply float_lt_false in H ]; try lra
    | |- context [float_le ?x ?y] =>
        let H := fresh "Hc" in
        destruct (float_le x y) eqn:H;
        [ apply float_le_true in H | apply float_le_false in H ]; try lra
    | |- context [float_gt ?x ?y] =>
        let H := fresh "Hc" in
        destruct (float_gt x y) eqn:H;
        [ apply float_gt_true in H | apply float_gt_false in H ]; try lra
    | |- context [float_ge ?x ?y] =>
        let H := fresh "Hc" in
        destruct (float_ge x y) eqn:H;
        [ apply float_ge_true in H | apply float_ge_false in H ]; try lra
    end.

(** ** Sums and index loops *)

Lemma fold_left_Rplus_acc (l : list R) (a : R) :
  fold_left Rplus l a = a + Py.sum l.
Proof.
  unfold Py.sum. revert a.
  induction l as [|x l IH]; intros a; simpl.
  - lra.
  - rewrite (IH (a + x)), (IH (0 + x)). lra.
Qed.

Lemma py_sum_nil : Py.sum [] = 0.
Proof. reflexivity. Qed.

Lemma py_sum_cons (x : R) (l : list R) : Py.sum (x :: l) = x + Py.sum l.
Proof.
  unfold Py.sum at 1. simpl. rewrite fold_left_Rplus_acc. lra.
Qed.

Lemma py_sum_map_minus {A : Type} (f g : A -> R) (l : list A) :
  Py.sum (map (fun a => f a - g a) l) = Py.sum (map f l) - Py.sum (map g l).
Proof.
  induction l as [|a l IH]; simpl.
  - rewrite py_sum_nil. lra.
  - rewrite !py_sum_cons, IH. lra.
Qed.

Lemma fold_left_ext {A S : Type} (f g : S -> A -> S) (l : list A) (s0 : S) :
  (forall s a, f s a = g s a) -> fold_left f l s0 = fold_left g l s0.
Proof.
  intros Hfg. revert s0.
  induction l as [|a l IH]; intros s0; simpl; [reflexivity|].
  rewrite Hfg. apply IH.
Qed.

(** Reading a list back through its indices. *)
Lemma map_nth_seq {A : Type} (l : list A) (d : A) :
  map (fun i => nth i l d) (seq 0 (length l)) = l.
Proof.
  induction l as [|a l IH]; simpl; [reflexivity|].
  f_equal. rewrite <- seq_shift, map_map. exact IH.
Qed.

(** [np.roll(v, -1)[i] = v[(i + 1) % n]]. *)
Lemma roll_left_nth {A : Type} (l : list A) (d : A) :
  map (fun i => nth ((i + 1) mod length l) l d) (seq 0 (length l)) = roll_left l.
Proof.
  destruct l as [|a r]; [reflexivity|].
  cbn [length roll_left]. rewrite seq_S, map_app. cbn [map Nat.add].
  f_equal.
  - rewrite <- (map_nth_seq r d) at 2.
    apply map_ext_in. intros i Hi. apply in_seq in Hi.
    rewrite Nat.mod_small by lia.
    replace (i + 1)%nat with (S i) by lia. reflexivity.
  - replace (length r + 1)%nat with (S (length r)) by lia.
    rewrite Nat.Div0.mod_same. reflexivity.
Qed.

Lemma roll_left_map {A B : Type} (f : A -> B) (l : list A) :
  roll_left (map f l) = map f (roll_left l).
Proof.
  destruct l as [|a r]; [reflexivity|]. simpl. rewrite map_app. reflexivity.
Qed.

Lemma combine_map_seq {A B : Type} (f : nat -> A) (g : nat -> B) (s : list nat) :
  combine (map f s) (map g s) = map (fun i => (f i, g i)) s.
Proof.
  induction s as [|i s IH]; simpl; [reflexivity|]. f_equal. exact IH.
Qed.

Lemma closed_edges_seq {A : Type} (l : list A) (d : A) :
  map (fun i => (nth i l d, nth ((i + 1) mod length l) l d)) (seq 0 (length l))
  = closed_edges l.
Proof.
  unfold closed_edges.
  rewrite <- (combine_map_seq (fun i => nth i l d)
                (fun i => nth ((i + 1) mod length l) l d)).
  rewrite map_nth_seq, roll_left_nth. reflexivity.
Qed.

(** A loop over [range(n)] that reads [points[i]] and
    [points[(i + 1) % n]] is a loop over the closed chain of edges. *)
Lemma fold_range_edges {A S : Type} (f : S -> A -> A -> S) (l : list A) (d : A)
  (s0 : S) :
  fold_left (fun s i => f s (nth i l d) (nth ((i + 1) mod length l) l d))
    (seq 0 (length l)) s0
  = fold_left (fun s e => f s (fst e) (snd e)) (closed_edges l) s0.
Proof.
  rewrite <- (closed_edges_seq l d).
  generalize (seq 0 (length l)) as s. intros s. revert s0.
  induction s as [|i s IH]; intros s0; simpl; [reflexivity|].
  apply IH.
Qed.

(** ** Shoelace area *)

Lemma combine_map_both {A B C D : Type} (f : A -> C) (g : B -> D)
  (l1 : list A) (l2 : list B) :
  combine (map f l1) (map g l2)
  = map (fun e => (f (fst e), g (snd e))) (combine l1 l2).
Proof.
  revert l2. induction l1 as [|a l1 IH]; intros [|b l2]; simpl; try reflexivity.
  f_equal. apply IH.
Qed.

Lemma dot_roll_edges (f g : point -> R) (pts : list point) :
  dot (map f pts) (roll_left (map g pts))
  = Py.sum (map (fun e => f (fst e) * g (snd e)) (closed_edges pts)).
Proof.
  unfold dot, closed_edges.
  rewrite roll_left_map, combine_map_both, map_map. reflexivity.
Qed.

Lemma cyclic_sum_edges (g : point -> point -> R) (pts : list point) :
  cyclic_sum g pts = Py.sum (map (fun e => g (fst e) (snd e)) (closed_edges pts)).
Proof.
  unfold cyclic_sum. cbv zeta.
  rewrite <- (closed_edges_seq pts (0, 0)), map_map. reflexivity.
Qed.

(** The two dot products of [_polygon_area] add up to the shoelace sum. *)
Lemma dot_difference_shoelace (pts : list point) :
  dot (map fst pts) (roll_left (map snd pts))
  - dot (map snd pts) (roll_left (map fst pts))
  = shoelace_sum pts.
Proof.
  rewrite !dot_roll_edges. unfold shoelace_sum. rewrite cyclic_sum_edges.
  unfold cross_term.
  rewrite (py_sum_map_minus (fun e => fst (fst e) * snd (snd e))
             (fun e => fst (snd e) * snd (fst e))).
  f_equal. f_equal. apply map_ext. intros e. apply Rmult_comm.
Qed.

Lemma polygon_area_shoelace (pts : list point) :
  pts <> [] -> _polygon_area pts = Some (0.5 * Rabs (shoelace_sum pts)).
Proof.
  intros Hne. destruct pts as [|p pts]; [congruence|].
  unfold _polygon_area. rewrite dot_difference_shoelace. reflexivity.
Qed.

(** C1.  [calculate_plot_area] (the guarded entry to [_polygon_area])
    refuses a boundary of fewer than 3 points with the warning "Please
    mark at least 3 boundary points." and computes no number; on 3 or
    more points it shows [0.5 * |sum_i (x_i * y_(i+1) - x_(i+1) * y_i)|],
    the index [i + 1] wrapping to 0 after the last point, whatever the
    closed flag of the polygon. *)
Theorem calculate_plot_area_shoelace (boundary_points : list point) :
  calculate_plot_area boundary_points
  = if (length boundary_points <? 3)%nat then Some WarnAtLeast3Points
    else Some (ShowCenterBoundaryArea (0.5 * Rabs (shoelace_sum boundary_points))).
Proof.
  unfold calculate_plot_area.
  destruct (length boundary_points <? 3)%nat eqn:Hlen; [reflexivity|].
  apply Nat.ltb_ge in Hlen.
  rewrite polygon_area_shoelace; [reflexivity|].
  intros ->. simpl in Hlen. lia.
Qed.

(** The square of the specification: area 10000. *)
Example calculate_plot_area_square :
  calculate_plot_area spec_square = Some (ShowCenterBoundaryArea 10000).
Proof.
  unfold calculate_plot_area. cbn [spec_square length Nat.ltb Nat.leb].
  rewrite polygon_area_shoelace by discriminate. cbn [bind].
  do 2 f_equal. unfold shoelace_sum, cyclic_sum, cross_term. cbn.
  rewrite Rabs_right by lra. lra.
Qed.

(** The helper alone does not check the number of points: on a
    two-point list it returns the number 0. *)
Remark polygon_area_two_points (p q : point) : _polygon_area [p; q] = Some 0.
Proof.
  rewrite polygon_area_shoelace by congruence.
  destruct p as [px py], q as [qx qy].
  unfold shoelace_sum, cyclic_sum, cross_term. cbn.
  replace (0 + (px * qy - qx * py) + (qx * py - px * qy)) with 0 by ring.
  rewrite Rabs_R0. f_equal. lra.
Qed.

(** ** Centroid *)

Lemma centroid_step_edge (points : list point) (acc : R * R * R) (i : nat) :
  centroid_step points acc i
  = centroid_edge acc (nth i points (0, 0))
      (nth ((i + 1) mod length points) points (0, 0)).
Proof.
  unfold centroid_step, centroid_edge, cross_term.
  destruct acc as [[area2 cx_acc] cy_acc].
  destruct (nth i points (0, 0)) as [x1 y1].
  destruct (nth ((i + 1) mod length points) points (0, 0)) as [x2 y2].
  reflexivity.
Qed.

Lemma centroid_fold_edges (l : list (point * point)) (acc : R * R * R) :
  fold_left (fun s e => centroid_edge s (fst e) (snd e)) l acc
  = (fst (fst acc) + Py.sum (map (fun e => cross_term (fst e) (snd e)) l),
     snd (fst acc)
     + Py.sum (map (fun e => (fst (fst e) + fst (snd e))
                             * cross_term (fst e) (snd e)) l),
     snd acc
     + Py.sum (map (fun e => (snd (fst e) + snd (snd e))
                             * cross_term (fst e) (snd e)) l)).
Proof.
  revert acc. induction l as [|e l IH]; intros [[a b] c]; simpl.
  - rewrite py_sum_nil. f_equal; [f_equal|]; lra.
  - rewrite IH, !py_sum_cons. unfold centroid_edge; simpl.
    f_equal; [f_equal|]; ring.
Qed.

(** The three accumulators of [_polygon_centroid] after the loop. *)
Lemma centroid_loop (points : list point) :
  fold_left (centroid_step points) (seq 0 (length points)) (0, 0, 0)
  = (shoelace_sum points, centroid_x_sum points, centroid_y_sum points).
Proof.
  rewrite (fold_left_ext (centroid_step points)
             (fun s i => centroid_edge s (nth i points (0, 0))
                           (nth ((i + 1) mod length points) points (0, 0))))
    by (intros; apply centroid_step_edge).
  rewrite (fold_range_edges centroid_edge), centroid_fold_edges.
  unfold shoelace_sum, centroid_x_sum, centroid_y_sum.
  rewrite !cyclic_sum_edges. simpl. f_equal; [f_equal|]; lra.
Qed.

(** [_polygon_centroid] after its loop. *)
Lemma polygon_centroid_unfold (points : list point) :
  _polygon_centroid points
  = if float_lt (Rabs (shoelace_sum points)) eps then None
    else Some (centroid_x_sum points / (3 * shoelace_sum points),
               centroid_y_sum points / (3 * shoelace_sum points)).
Proof.
  unfold _polygon_centroid. cbv zeta. rewrite centroid_loop. reflexivity.
Qed.


(** The square of the specification: centroid (50, 50). *)
Example polygon_centroid_square : _polygon_centroid spec_square = Some (50, 50).
Proof.
  rewrite polygon_centroid_unfold.
  assert (HA : shoelace_sum spec_square = 20000)
    by (unfold shoelace_sum, cyclic_sum, cross_term; cbn; lra).
  rewrite HA, Rabs_right by lra.
  assert (Hlt : float_lt 20000 eps = false)
    by (apply float_lt_false; unfold eps; lra).
  rewrite Hlt.
  unfold centroid_x_sum, centroid_y_sum, cyclic_sum, cross_term. cbn.
  do 2 f_equal; lra.
Qed.

(** Three collinear points have no centroid. *)
Example polygon_centroid_collinear :
  _polygon_centroid [(0, 0); (1, 1); (2, 2)] = None.
Proof.
  rewrite polygon_centroid_unfold.
  assert (HA : shoelace_sum [(0, 0); (1, 1); (2, 2)] = 0)
    by (unfold shoelace_sum, cyclic_sum, cross_term; cbn; lra).
  rewrite HA, Rabs_R0.
  assert (Hlt : float_lt 0 eps = true)
    by (apply float_lt_true; apply eps_pos).
  rewrite Hlt. reflexivity.
Qed.

(** ** Ray / boundary intersection *)

Lemma acceptedb_true (o d a b : point) :
  acceptedb o d a b = true <-> accepted o d a b.
Proof.
  unfold acceptedb, accepted, skipped.
  rewrite !andb_true_iff, negb_true_iff, float_lt_false, float_ge_true,
    !float_le_true.
  split; intros H; repeat split; try tauto; lra.
Qed.

Lemma acceptedb_false (o d a b : point) :
  acceptedb o d a b = false <-> ~ accepted o d a b.
Proof.
  rewrite <- acceptedb_true. destruct (acceptedb o d a b); split; congruence.
Qed.

Lemma ray_step_edge (pts : list point) (ox oy dx dy : R)
  (st : option R * option point) (i : nat) :
  ray_step pts ox oy dx dy st i
  = ray_edge (ox, oy) (dx, dy) st (nth i pts (0, 0))
      (nth ((i + 1) mod length pts) pts (0, 0)).
Proof.
  unfold ray_step, ray_edge, acceptedb, hit_point.
  unfold edge_t, edge_u, edge_denom.
  destruct st as [nearest_t nearest_pt].
  destruct (nth i pts (0, 0)) as [ax ay].
  destruct (nth ((i + 1) mod length pts) pts (0, 0)) as [bx by_].
  cbn [fst snd].
  destruct (float_lt (Rabs (dx * (by_ - ay) - dy * (bx - ax))) eps);
    reflexivity.
Qed.

(** The loop of [_ray_boundary_intersection] as a fold over the closed
    chain of edges. *)
Lemma ray_loop_edges (pts : list point) (o : point) (angle_deg : R) :
  (2 <= length pts)%nat ->
  _ray_boundary_intersection pts o angle_deg
  = snd (fold_left (fun st e => ray_edge o (ray_direction angle_deg) st (fst e) (snd e))
           (closed_edges pts) (None, None)).
Proof.
  intros Hlen. unfold _ray_boundary_intersection.
  apply Nat.ltb_ge in Hlen. rewrite Hlen. destruct o as [ox oy].
  cbv zeta. f_equal.
  rewrite (fold_left_ext _ _ _ _ (ray_step_edge pts ox oy _ _)).
  rewrite (fold_range_edges (ray_edge (ox, oy) _)). reflexivity.
Qed.

Lemma nearest_of_some (o d : point) (seen : list (point * point))
  (e : point * point) :
  In e seen ->
  accepted o d (fst e) (snd e) ->
  (forall e', In e' seen -> accepted o d (fst e') (snd e') ->
              edge_t o d (fst e) (snd e) <= edge_t o d (fst e') (snd e')) ->
  nearest_of o d seen
    (Some (edge_t o d (fst e) (snd e)), Some (hit_point o d (fst e) (snd e))).
Proof.
  intros Hin Hacc Hmin. exists e.
  split; [exact Hin|]. split; [exact Hacc|].
  split; [reflexivity|]. split; [reflexivity|]. exact Hmin.
Qed.

Lemma in_snoc {A : Type} (x y : A) (l : list A) :
  In x (l ++ [y]) -> In x l \/ x = y.
Proof.
  intros H. apply in_app_or in H. destruct H as [H|[H|[]]]; auto.
Qed.

Lemma ray_edge_nearest (o d : point) (seen : list (point * point))
  (st : option R * option point) (a b : point) :
  nearest_of o d seen st ->
  nearest_of o d (seen ++ [(a, b)]) (ray_edge o d st a b).
Proof.
  intros Hst. unfold ray_edge.
  assert (Hlast : In (a, b) (seen ++ [(a, b)]))
    by (apply in_or_app; right; left; reflexivity).
  destruct (acceptedb o d a b) eqn:Hacc.
  - apply acceptedb_true in Hacc.
    destruct st as [[nt|] [np|]]; cbn [fst]; try contradiction.
    + destruct Hst as (e & Hin & He & -> & -> & Hmin).
      destruct (float_lt (edge_t o d a b) _) eqn:Hlt.
      * apply float_lt_true in Hlt.
        apply (nearest_of_some o d _ (a, b)); [exact Hlast|exact Hacc|].
        intros e' Hin' Hacc'. cbn [fst snd].
        destruct (in_snoc _ _ _ Hin') as [Hseen| ->].
        -- specialize (Hmin e' Hseen Hacc'). lra.
        -- cbn [fst snd]. lra.
      * apply float_lt_false in Hlt.
        apply (nearest_of_some o d _ e);
          [apply in_or_app; left; exact Hin|exact He|].
        intros e' Hin' Hacc'.
        destruct (in_snoc _ _ _ Hin') as [Hseen| ->].
        -- apply Hmin; assumption.
        -- cbn [fst snd]. exact Hlt.
    + apply (nearest_of_some o d _ (a, b)); [exact Hlast|exact Hacc|].
      intros e' Hin' Hacc'. cbn [fst snd].
      destruct (in_snoc _ _ _ Hin') as [Hseen| ->].
      * exfalso. exact (Hst e' Hseen Hacc').
      * cbn [fst snd]. lra.
  - apply acceptedb_false in Hacc.
    destruct st as [[nt|] [np|]]; try contradiction.
    + destruct Hst as (e & Hin & He & -> & -> & Hmin).
      apply (nearest_of_some o d _ e);
        [apply in_or_app; left; exact Hin|exact He|].
      intros e' Hin' Hacc'.
      destruct (in_snoc _ _ _ Hin') as [Hseen| ->].
      * apply Hmin; assumption.
      * contradiction.
    + intros e' Hin'.
      destruct (in_snoc _ _ _ Hin') as [Hseen| ->].
      * apply Hst. exact Hseen.
      * exact Hacc.
Qed.

Lemma ray_fold_nearest (o d : point) (l seen : list (point * point))
  (st : option R * option point) :
  nearest_of o d seen st ->
  nearest_of o d (seen ++ l)
    (fold_left (fun st e => ray_edge o d st (fst e) (snd e)) l st).
Proof.
  revert seen st. induction l as [|[a b] l IH]; intros seen st Hst.
  - rewrite app_nil_r. exact Hst.
  - cbn [fold_left fst snd].
    replace (seen ++ (a, b) :: l) with ((seen ++ [(a, b)]) ++ l)
      by (rewrite <- app_assoc; reflexivity).
    apply IH. apply ray_edge_nearest. exact Hst.
Qed.

(** North is up (decreasing y) and angles grow clockwise: 90 degrees
    points along increasing x. *)
Lemma ray_direction_north : ray_direction 0 = (0, -1).
Proof.
  unfold ray_direction, radians. rewrite Rmult_0_l, sin_0, cos_0.
  reflexivity.
Qed.

Lemma ray_direction_east : ray_direction 90 = (1, 0).
Proof.
  unfold ray_direction, radians.
  replace (90 * (PI / 180)) with (PI / 2) by field.
  rewrite sin_PI2, cos_PI2. f_equal. lra.
Qed.

(** C3.  For a boundary of at least 2 points, [_ray_boundary_intersection]
    casts the ray along [d = (sin angle, - cos angle)] (angle 0 is
    decreasing y, angle 90 is increasing x), leaves out every edge with
    [|dx * sy - dy * sx| < 1e-9], accepts an edge exactly when [t >= 0]
    and [- 1e-9 <= u <= 1 + 1e-9], and returns the point [origin + t * d]
    of an accepted edge whose [t] is least among all accepted edges, or
    nothing when no edge is accepted. *)
Theorem ray_boundary_intersection_nearest (boundary_points : list point)
  (origin : point) (angle_deg : R) :
  (2 <= length boundary_points)%nat ->
  ray_direction angle_deg = (sin (radians angle_deg), - cos (radians angle_deg))
  /\ ray_direction 0 = (0, -1)
  /\ ray_direction 90 = (1, 0)
  /\ match _ray_boundary_intersection boundary_points origin angle_deg with
     | None =>
         forall e, In e (closed_edges boundary_points) ->
                   ~ accepted origin (ray_direction angle_deg) (fst e) (snd e)
     | Some p =>
         exists e, In e (closed_edges boundary_points)
           /\ accepted origin (ray_direction angle_deg) (fst e) (snd e)
           /\ p = hit_point origin (ray_direction angle_deg) (fst e) (snd e)
           /\ forall e', In e' (closed_edges boundary_points) ->
                 accepted origin (ray_direction angle_deg) (fst e') (snd e') ->
                 edge_t origin (ray_direction angle_deg) (fst e) (snd e)
                 <= edge_t origin (ray_direction angle_deg) (fst e') (snd e')
     end.
Proof.
  intros Hlen.
  split; [reflexivity|]. split; [apply ray_direction_north|].
  split; [apply ray_direction_east|].
  rewrite (ray_loop_edges _ _ _ Hlen).
  pose proof (ray_fold_nearest origin (ray_direction angle_deg)
                (closed_edges boundary_points) [] (None, None)) as Hinv.
  cbn [app] in Hinv.
  destruct (fold_left _ (closed_edges boundary_points) (None, None))
    as [[nt|] [np|]]; cbn [snd]; cbn [nearest_of] in Hinv.
  - destruct Hinv as (e & Hin & He & Ht & Hp & Hmin).
    + intros e' [].
    + exists e. split; [exact Hin|]. split; [exact He|]. split; [exact Hp|].
      intros e' Hin' Hacc'. rewrite <- Ht. apply Hmin; assumption.
  - exfalso. apply Hinv. intros e' [].
  - exfalso. apply Hinv. intros e' [].
  - apply Hinv. intros e' [].
Qed.

Lemma ray_boundary_intersection_nearest_witness :
  (2 <= length spec_square)%nat
  /\ match _ray_boundary_intersection spec_square (50, 50) 0 with
     | None =>
         forall e, In e (closed_edges spec_square) ->
                   ~ accepted (50, 50) (ray_direction 0) (fst e) (snd e)
     | Some p =>
         exists e, In e (closed_edges spec_square)
           /\ accepted (50, 50) (ray_direction 0) (fst e) (snd e)
           /\ p = hit_point (50, 50) (ray_direction 0) (fst e) (snd e)
           /\ forall e', In e' (closed_edges spec_square) ->
                 accepted (50, 50) (ray_direction 0) (fst e') (snd e') ->
                 edge_t (50, 50) (ray_direction 0) (fst e) (snd e)
                 <= edge_t (50, 50) (ray_direction 0) (fst e') (snd e')
     end.
Proof.
  assert (Hlen : (2 <= length spec_square)%nat) by (simpl; lia).
  split; [exact Hlen|].
  apply (ray_boundary_intersection_nearest spec_square (50, 50) 0 Hlen).
Defined.

Lemma ray_edge_rejected (o d : point) (st : option R * option point)
  (a b : point) :
  ~ accepted o d a b -> ray_edge o d st a b = st.
Proof.
  intros H. apply acceptedb_false in H. unfold ray_edge. rewrite H. reflexivity.
Qed.

Lemma ray_edge_first (o d : point) (np : option point) (a b : point) :
  accepted o d a b ->
  ray_edge o d (None, np) a b
  = (Some (edge_t o d a b), Some (hit_point o d a b)).
Proof.
  intros H. apply acceptedb_true in H. unfold ray_edge. rewrite H. reflexivity.
Qed.

(** The square of the specification, seen from its center: the ray of
    angle 0 leaves through (50, 0). *)
Example ray_boundary_intersection_square :
  _ray_boundary_intersection spec_square (50, 50) 0 = Some (50, 0).
Proof.
  rewrite ray_loop_edges by (simpl; lia).
  rewrite ray_direction_north.
  change (closed_edges spec_square)
    with [((0, 0), (100, 0)); ((100, 0), (100, 100));
          ((100, 100), (0, 100)); ((0, 100), (0, 0))].
  cbn [fold_left fst snd].
  assert (Ht : edge_t (50, 50) (0, -1) (0, 0) (100, 0) = 50)
    by (unfold edge_t, edge_denom; cbn [fst snd]; lra).
  assert (H1 : accepted (50, 50) (0, -1) (0, 0) (100, 0)).
  { unfold accepted, skipped. rewrite Ht.
    unfold edge_u, edge_denom, eps. cbn [fst snd].
    replace (0 * (0 - 0) - -1 * (100 - 0)) with 100 by lra.
    rewrite Rabs_right by lra. lra. }
  assert (H2 : ~ accepted (50, 50) (0, -1) (100, 0) (100, 100)).
  { unfold accepted, skipped, edge_denom, eps. cbn [fst snd].
    replace (0 * (100 - 0) - -1 * (100 - 100)) with 0 by lra.
    rewrite Rabs_R0. lra. }
  assert (H3 : ~ accepted (50, 50) (0, -1) (100, 100) (0, 100)).
  { unfold accepted, edge_t, edge_denom. cbn [fst snd]. lra. }
  assert (H4 : ~ accepted (50, 50) (0, -1) (0, 100) (0, 0)).
  { unfold accepted, skipped, edge_denom, eps. cbn [fst snd].
    replace (0 * (0 - 100) - -1 * (0 - 0)) with 0 by lra.
    rewrite Rabs_R0. lra. }
  rewrite (ray_edge_first _ _ _ _ _ H1).
  rewrite (ray_edge_rejected _ _ _ _ _ H2), (ray_edge_rejected _ _ _ _ _ H3),
    (ray_edge_rejected _ _ _ _ _ H4).
  cbn [snd]. unfold hit_point. rewrite Ht. cbn [fst snd].
  do 2 f_equal; lra.
Qed.

(** ** Fewer than three boundary points *)

Lemma edge_denom_swap (d a b : point) :
  edge_denom d b a = - edge_denom d a b.
Proof. unfold edge_denom. ring. Qed.

Lemma not_skipped_nonzero (d a b : point) :
  ~ skipped d a b -> edge_denom d a b <> 0.
Proof.
  unfold skipped. intros Hns Hz. apply Hns. rewrite Hz, Rabs_R0.
  apply eps_pos.
Qed.

Lemma skipped_swap (d a b : point) : skipped d b a <-> skipped d a b.
Proof. unfold skipped. rewrite edge_denom_swap, Rabs_Ropp. tauto. Qed.

Lemma edge_t_swap (o d a b : point) :
  ~ skipped d a b -> edge_t o d b a = edge_t o d a b.
Proof.
  intros Hns. apply not_skipped_nonzero in Hns.
  unfold edge_t. rewrite edge_denom_swap.
  unfold edge_denom in *.
  field; repeat split; intros Hz; apply Hns; lra.
Qed.

Lemma edge_u_swap (o d a b : point) :
  ~ skipped d a b -> edge_u o d b a = 1 - edge_u o d a b.
Proof.
  intros Hns. apply not_skipped_nonzero in Hns.
  unfold edge_u. rewrite edge_denom_swap.
  unfold edge_denom in *.
  field; repeat split; intros Hz; apply Hns; lra.
Qed.

(** Walking an edge backwards gives the same candidate. *)
Lemma accepted_swap (o d a b : point) :
  accepted o d b a <-> accepted o d a b.
Proof.
  unfold accepted. split; intros (Hns & Ht & Hu).
  - assert (Hab : ~ skipped d a b) by (intros H; apply Hns, skipped_swap, H).
    rewrite (edge_t_swap o d a b Hab) in Ht.
    rewrite (edge_u_swap o d a b Hab) in Hu.
    split; [exact Hab|]. split; [exact Ht|]. lra.
  - assert (Hba : ~ skipped d b a) by (intros H; apply Hns, skipped_swap, H).
    rewrite (edge_t_swap o d a b Hns), (edge_u_swap o d a b Hns).
    split; [exact Hba|]. split; [exact Ht|]. lra.
Qed.

(** C9.  With 0 or 1 boundary points [_ray_boundary_intersection]
    returns nothing, whatever the origin and the angle; with exactly 2
    points [a], [b] its answer is that of the test of the ray against
    the single segment [a -> b]. *)
Theorem ray_boundary_intersection_degenerate (origin : point) (angle_deg : R) :
  _ray_boundary_intersection [] origin angle_deg = None
  /\ (forall p, _ray_boundary_intersection [p] origin angle_deg = None)
  /\ (forall a b,
        _ray_boundary_intersection [a; b] origin angle_deg
        = segment_test origin angle_deg a b).
Proof.
  split; [reflexivity|]. split; [reflexivity|].
  intros a b.
  rewrite ray_loop_edges by (simpl; lia).
  unfold segment_test. cbv zeta.
  set (d := ray_direction angle_deg).
  change (closed_edges [a; b]) with [(a, b); (b, a)].
  cbn [fold_left fst snd].
  unfold ray_edge at 2.
  destruct (acceptedb origin d a b) eqn:Hab; cbn [fst].
  - apply acceptedb_true in Hab.
    assert (Hba : acceptedb origin d b a = true)
      by (apply acceptedb_true, accepted_swap, Hab).
    unfold ray_edge. rewrite Hba. cbn [fst].
    rewrite (edge_t_swap origin d a b) by apply Hab.
    assert (Hlt : float_lt (edge_t origin d a b) (edge_t origin d a b) = false)
      by (apply float_lt_false; lra).
    rewrite Hlt. reflexivity.
  - apply acceptedb_false in Hab.
    assert (Hba : acceptedb origin d b a = false).
    { apply acceptedb_false. intros H. apply Hab, accepted_swap, H. }
    unfold ray_edge. rewrite Hba. reflexivity.
Qed.

(** ** Balance lines *)

Lemma fold_max_spec (rest : list R) (a : R) :
  let m := fold_left (fun m x => if float_gt x m then x else m) rest a in
  (m = a \/ In m rest) /\ a <= m /\ forall x, In x rest -> x <= m.
Proof.
  revert a. induction rest as [|y rest IH]; intros a; cbn [fold_left].
  - split; [left; reflexivity|]. split; [lra|]. intros x [].
  - destruct (float_gt y a) eqn:Hgt.
    + apply float_gt_true in Hgt.
      destruct (IH y) as (Hin & Hge & Hall).
      split; [|split].
      * right. destruct Hin as [->|Hin]; [left; reflexivity|right; exact Hin].
      * lra.
      * intros x [<-|Hx]; [exact Hge|apply Hall, Hx].
    + apply float_gt_false in Hgt.
      destruct (IH a) as (Hin & Hge & Hall).
      split; [|split].
      * destruct Hin as [->|Hin]; [left; reflexivity|right; right; exact Hin].
      * exact Hge.
      * intros x [<-|Hx]; [lra|apply Hall, Hx].
Qed.

Lemma fold_min_spec (rest : list R) (a : R) :
  let m := fold_left (fun m x => if float_lt x m then x else m) rest a in
  (m = a \/ In m rest) /\ m <= a /\ forall x, In x rest -> m <= x.
Proof.
  revert a. induction rest as [|y rest IH]; intros a; cbn [fold_left].
  - split; [left; reflexivity|]. split; [lra|]. intros x [].
  - destruct (float_lt y a) eqn:Hlt.
    + apply float_lt_true in Hlt.
      destruct (IH y) as (Hin & Hle & Hall).
      split; [|split].
      * right. destruct Hin as [->|Hin]; [left; reflexivity|right; exact Hin].
      * lra.
      * intros x [<-|Hx]; [exact Hle|apply Hall, Hx].
    + apply float_lt_false in Hlt.
      destruct (IH a) as (Hin & Hle & Hall).
      split; [|split].
      * destruct Hin as [->|Hin]; [left; reflexivity|right; right; exact Hin].
      * exact Hle.
      * intros x [<-|Hx]; [lra|apply Hall, Hx].
Qed.

(** [max] and [min] of a non-empty list return its greatest and least
    entries. *)
Lemma py_max_is_max (l : list R) :
  l <> [] -> exists m, Py.max l = Some m /\ is_max l m.
Proof.
  destruct l as [|a rest]; [congruence|]. intros _.
  eexists. split; [reflexivity|].
  destruct (fold_max_spec rest a) as (Hin & Hge & Hall).
  split.
  - destruct Hin as [->|Hin]; [left; reflexivity|right; exact Hin].
  - intros x [<-|Hx]; [exact Hge|apply Hall, Hx].
Qed.

Lemma py_min_is_min (l : list R) :
  l <> [] -> exists m, Py.min l = Some m /\ is_min l m.
Proof.
  destruct l as [|a rest]; [congruence|]. intros _.
  eexists. split; [reflexivity|].
  destruct (fold_min_spec rest a) as (Hin & Hle & Hall).
  split.
  - destruct Hin as [->|Hin]; [left; reflexivity|right; exact Hin].
  - intros x [<-|Hx]; [exact Hle|apply Hall, Hx].
Qed.

(** A sum lies between [n] times a lower bound and [n] times an upper
    bound of its terms. *)
Lemma py_sum_bounds (l : list R) (lo hi : R) :
  (forall x, In x l -> lo <= x <= hi) ->
  INR (length l) * lo <= Py.sum l <= INR (length l) * hi.
Proof.
  induction l as [|a l IH]; intros Hb.
  - rewrite py_sum_nil. simpl. lra.
  - rewrite py_sum_cons. cbn [length]. rewrite S_INR.
    assert (Ha : lo <= a <= hi) by (apply Hb; left; reflexivity).
    assert (Hl : INR (length l) * lo <= Py.sum l <= INR (length l) * hi)
      by (apply IH; intros x Hx; apply Hb; right; exact Hx).
    lra.
Qed.

(** The mean of a non-empty vector lies between its least and its
    greatest entry. *)
Lemma mean_between (l : list R) (mn mx : R) :
  l <> [] -> is_min l mn -> is_max l mx -> mn <= mean l <= mx.
Proof.
  intros Hne [_ Hmin] [_ Hmax].
  assert (Hn : 0 < INR (length l)).
  { destruct l; [congruence|]. apply lt_0_INR. simpl. lia. }
  assert (Hb : INR (length l) * mn <= Py.sum l <= INR (length l) * mx).
  { apply py_sum_bounds. intros x Hx. split; auto. }
  unfold mean. split.
  - apply Rmult_le_reg_l with (INR (length l)); [exact Hn|].
    replace (INR (length l) * (Py.sum l / INR (length l))) with (Py.sum l)
      by (field; lra). lra.
  - apply Rmult_le_reg_l with (INR (length l)); [exact Hn|].
    replace (INR (length l) * (Py.sum l / INR (length l))) with (Py.sum l)
      by (field; lra). lra.
Qed.

(** [balance_lines] on a non-empty dict, in terms of the mean, the
    greatest and the least value. *)
Lemma balance_lines_spec (zone_data : list (string * R)) :
  zone_data <> [] ->
  exists mx mn,
    is_max (map snd zone_data) mx
    /\ is_min (map snd zone_data) mn
    /\ balance_lines zone_data
       = Some (mean (map snd zone_data),
               (mean (map snd zone_data) + mx) / 2,
               (mean (map snd zone_data) + mn) / 2).
Proof.
  intros Hne.
  assert (Hne' : map snd zone_data <> [])
    by (destruct zone_data; [congruence|discriminate]).
  destruct (py_max_is_max _ Hne') as (mx & Hmx & Hismax).
  destruct (py_min_is_min _ Hne') as (mn & Hmn & Hismin).
  exists mx, mn. split; [exact Hismax|]. split; [exact Hismin|].
  unfold balance_lines. cbv zeta.
  destruct (map snd zone_data) as [|a rest] eqn:Hareas; [congruence|].
  rewrite Hmx. cbn [bind]. rewrite Hmn. reflexivity.
Qed.

(** C5.  On every non-empty area vector the balance lines exist and
    satisfy [LLOB <= LOB <= ULOB]. *)
Theorem balance_lines_ordered (zone_data : list (string * R)) :
  zone_data <> [] ->
  exists lob ulob llob,
    balance_lines zone_data = Some (lob, ulob, llob)
    /\ llob <= lob <= ulob.
Proof.
  intros Hne.
  destruct (balance_lines_spec zone_data Hne) as (mx & mn & Hmax & Hmin & Heq).
  assert (Hne' : map snd zone_data <> [])
    by (destruct zone_data; [congruence|discriminate]).
  pose proof (mean_between _ mn mx Hne' Hmin Hmax) as Hmean.
  do 3 eexists. split; [exact Heq|]. lra.
Qed.

Lemma balance_lines_ordered_witness :
  zone_data_of (repeat 100 16) <> []
  /\ exists lob ulob llob,
       balance_lines (zone_data_of (repeat 100 16)) = Some (lob, ulob, llob)
       /\ llob <= lob <= ulob.
Proof.
  assert (Hne : zone_data_of (repeat 100 16) <> []) by discriminate.
  split; [exact Hne|].
  apply (balance_lines_ordered (zone_data_of (repeat 100 16)) Hne).
Defined.

(** ** Remarks *)

(** With 16 areas the dict has the 16 zone names as keys, in order, and
    the areas as values. *)
Lemma zone_data_values (zone_areas : list R) :
  length zone_areas = 16%nat -> map snd (zone_data_of zone_areas) = zone_areas.
Proof.
  intros Hlen. unfold zone_data_of.
  do 17 (destruct zone_areas as [|? zone_areas]; try discriminate Hlen).
  reflexivity.
Qed.

(** The remark of one value, given [llob <= ulob]: the inequalities for
    [High] and [Low] are strict, so a value on a line is [Balanced]. *)
Lemma remark_of_spec (ulob llob v : R) :
  llob <= ulob ->
  (remark_of ulob llob v = High <-> v > ulob)
  /\ (remark_of ulob llob v = Low <-> v < llob)
  /\ (remark_of ulob llob v = Balanced <-> llob <= v <= ulob).
Proof.
  intros Hle. unfold remark_of.
  destruct (float_gt v ulob) eqn:Hgt;
    [apply float_gt_true in Hgt | apply float_gt_false in Hgt].
  - repeat split; intros; try discriminate; try reflexivity; lra.
  - destruct (float_lt v llob) eqn:Hlt;
      [apply float_lt_true in Hlt | apply float_lt_false in Hlt];
      repeat split; intros; try discriminate; try reflexivity; lra.
Qed.

Lemma remarks_of_Forall2 (zone_data : list (string * R)) (ulob llob : R) :
  llob <= ulob ->
  Forall2 (fun zv zr =>
             fst zr = fst zv
             /\ (snd zr = High <-> snd zv > ulob)
             /\ (snd zr = Low <-> snd zv < llob)
             /\ (snd zr = Balanced <-> llob <= snd zv <= ulob))
          zone_data (remarks_of zone_data ulob llob).
Proof.
  intros Hle. induction zone_data as [|[z v] zone_data IH]; cbn [remarks_of map].
  - constructor.
  - constructor; [|exact IH]. cbn [fst snd].
    split; [reflexivity|]. apply remark_of_spec. exact Hle.
Qed.

(** C4.  On a 16-entry area vector: [LOB] is the mean, [ULOB] is
    [(LOB + max) / 2], [LLOB] is [(LOB + min) / 2], and every zone, in
    the order of the zone names, is remarked [High] exactly when its
    area is above [ULOB], [Low] exactly when it is below [LLOB], and
    [Balanced] exactly when it lies between the two lines, the lines
    themselves included. *)
Theorem classify_balance_spec (zone_areas : list R) :
  length zone_areas = 16%nat ->
  exists mx mn lob ulob llob,
    is_max zone_areas mx
    /\ is_min zone_areas mn
    /\ lob = mean zone_areas
    /\ ulob = (lob + mx) / 2
    /\ llob = (lob + mn) / 2
    /\ balance_lines (zone_data_of zone_areas) = Some (lob, ulob, llob)
    /\ Forall2 (fun zv zr =>
                 fst zr = fst zv
                 /\ (snd zr = High <-> snd zv > ulob)
                 /\ (snd zr = Low <-> snd zv < llob)
                 /\ (snd zr = Balanced <-> llob <= snd zv <= ulob))
              (combine ZONE_NAMES zone_areas)
              (remarks_of (zone_data_of zone_areas) ulob llob).
Proof.
  intros Hlen.
  assert (Hne : zone_data_of zone_areas <> []).
  { intros Hnil. apply (f_equal (map snd)) in Hnil.
    rewrite (zone_data_values _ Hlen) in Hnil. subst. discriminate Hlen. }
  destruct (balance_lines_spec _ Hne) as (mx & mn & Hmax & Hmin & Heq).
  rewrite (zone_data_values _ Hlen) in Hmax, Hmin, Heq.
  assert (Hne' : zone_areas <> []) by (intros ->; discriminate Hlen).
  pose proof (mean_between _ mn mx Hne' Hmin Hmax) as Hmean.
  exists mx, mn, (mean zone_areas), ((mean zone_areas + mx) / 2),
    ((mean zone_areas + mn) / 2).
  repeat (split; [assumption || reflexivity|]).
  apply remarks_of_Forall2. lra.
Qed.

Lemma classify_balance_spec_witness :
  length (repeat 100 16) = 16%nat
  /\ exists mx mn lob ulob llob,
       is_max (repeat 100 16) mx
       /\ is_min (repeat 100 16) mn
       /\ lob = mean (repeat 100 16)
       /\ ulob = (lob + mx) / 2
       /\ llob = (lob + mn) / 2
       /\ balance_lines (zone_data_of (repeat 100 16)) = Some (lob, ulob, llob)
       /\ Forall2 (fun zv zr =>
                    fst zr = fst zv
                    /\ (snd zr = High <-> snd zv > ulob)
                    /\ (snd zr = Low <-> snd zv < llob)
                    /\ (snd zr = Balanced <-> llob <= snd zv <= ulob))
                 (combine ZONE_NAMES (repeat 100 16))
                 (remarks_of (zone_data_of (repeat 100 16)) ulob llob).
Proof.
  split; [reflexivity|].
  apply (classify_balance_spec (repeat 100 16) eq_refl).
Defined.

(** ** Prakriti grouping *)

Section Prakriti.

(** The areas of the 16 zones, named after their zones. *)
Variables (aN aNNE aNE aENE aE aESE aSE aSSE : R).
Variables (aS aSSW aSW aWSW aW aWNW aNW aNNW : R).

Let zone_areas : list R :=
  [aN; aNNE; aNE; aENE; aE; aESE; aSE; aSSE;
   aS; aSSW; aSW; aWSW; aW; aWNW; aNW; aNNW].

Let fire : R := aE + aESE + aSE + aSSE + aS + aSSW.
Let water : R := aNNW + aN + aNNE + aNE + aENE.
Let air : R := aSW + aWSW + aW + aWNW + aNW.

Lemma prakriti_strength_groups :
  prakriti_strength_of (zone_data_of zone_areas)
  = Some [("Fire"%string, Py.sum [aE; aESE; aSE; aSSE; aS; aSSW]);
          ("Water"%string, Py.sum [aNNW; aN; aNNE; aNE; aENE]);
          ("Air"%string, Py.sum [aSW; aWSW; aW; aWNW; aNW])].
Proof. reflexivity. Qed.

Lemma prakriti_strength_sums :
  prakriti_strength_of (zone_data_of zone_areas)
  = Some [("Fire"%string, fire); ("Water"%string, water); ("Air"%string, air)].
Proof.
  rewrite prakriti_strength_groups.
  assert (Hf : Py.sum [aE; aESE; aSE; aSSE; aS; aSSW] = fire)
    by (repeat rewrite py_sum_cons; rewrite py_sum_nil; unfold fire; ring).
  assert (Hw : Py.sum [aNNW; aN; aNNE; aNE; aENE] = water)
    by (repeat rewrite py_sum_cons; rewrite py_sum_nil; unfold water; ring).
  assert (Ha : Py.sum [aSW; aWSW; aW; aWNW; aNW] = air)
    by (repeat rewrite py_sum_cons; rewrite py_sum_nil; unfold air; ring).
  rewrite Hf, Hw, Ha. reflexivity.
Qed.

(** C6.  The zone areas are summed into Fire = E, ESE, SE, SSE, S, SSW;
    Water = NNW, N, NNE, NE, ENE; Air = SW, WSW, W, WNW, NW.  When the
    total of the three sums is at most 0 the outcome is the error
    "Prakriti total is zero" and no percentage is computed; when it is
    positive every group gets the percentage [100 * groupArea / total]. *)
Theorem aggregate_prakriti_groups :
  (fire + water + air <= 0 ->
   aggregate_prakriti (zone_data_of zone_areas) = Some ErrorPrakritiTotalZero)
  /\ (fire + water + air > 0 ->
      exists r,
        aggregate_prakriti (zone_data_of zone_areas) = Some (PrakritiOk r)
        /\ prakriti_strength r
           = [("Fire"%string, fire); ("Water"%string, water); ("Air"%string, air)]
        /\ total_prakriti r = fire + water + air
        /\ prakriti_percentage r
           = [("Fire"%string, 100 * fire / (fire + water + air));
              ("Water"%string, 100 * water / (fire + water + air));
              ("Air"%string, 100 * air / (fire + water + air))]).
Proof.
  assert (Htotal : Py.sum (map snd [("Fire"%string, fire); ("Water"%string, water);
                                    ("Air"%string, air)])
                   = fire + water + air).
  { cbn [map snd]. repeat rewrite py_sum_cons. rewrite py_sum_nil. ring. }
  unfold aggregate_prakriti. rewrite prakriti_strength_sums. cbn [bind].
  rewrite Htotal.
  split; intros Hsign.
  - apply float_le_true in Hsign. rewrite Hsign. reflexivity.
  - assert (Hpos : 0 < fire + water + air) by lra.
    apply float_le_false in Hpos. rewrite Hpos.
    eexists. split; [reflexivity|]. cbn [prakriti_strength total_prakriti
                                          prakriti_percentage map fst snd].
    split; [reflexivity|]. split; [reflexivity|].
    assert (Hpct : forall v, v / (fire + water + air) * 100
                             = 100 * v / (fire + water + air))
      by (intros v; field; lra).
    rewrite !Hpct. reflexivity.
Qed.

End Prakriti.

(** The outcome on a dict whose group sums are known and add up to a
    positive total. *)
Lemma aggregate_prakriti_ok (zone_data strength : list (string * R)) :
  prakriti_strength_of zone_data = Some strength ->
  0 < Py.sum (map snd strength) ->
  aggregate_prakriti zone_data
  = Some (PrakritiOk
            (mk_prakriti strength (Py.sum (map snd strength))
               (map (fun pv => (fst pv, snd pv / Py.sum (map snd strength) * 100))
                    strength)
               (Py.sorted_desc strength)
               (String.concat "-" (map fst (Py.sorted_desc strength))))).
Proof.
  intros Hs Hpos. unfold aggregate_prakriti. rewrite Hs. cbn [bind].
  apply float_le_false in Hpos. rewrite Hpos. reflexivity.
Qed.

Lemma prakriti_strength_uniform :
  prakriti_strength_of (zone_data_of (repeat 100 16))
  = Some [("Fire"%string, 600); ("Water"%string, 500); ("Air"%string, 500)].
Proof.
  cbn [repeat].
  rewrite prakriti_strength_sums.
  do 2 f_equal; [|f_equal; [|f_equal]]; f_equal; lra.
Qed.

Lemma sorted_desc_uniform :
  Py.sorted_desc [("Fire"%string, 600); ("Water"%string, 500); ("Air"%string, 500)]
  = [("Fire"%string, 600); ("Water"%string, 500); ("Air"%string, 500)].
Proof.
  unfold Py.sorted_desc. cbn [fold_left Py.insert_desc snd].
  float_cases. cbn [Py.insert_desc snd]. float_cases. reflexivity.
Qed.

(** C7, as the code has it.  On the uniform vector of sixteen areas
    100.0 the group sums are Fire = 600, Water = 500, Air = 500, the
    percentages add up to 100 (within 1e-6), Fire is ranked first, and
    the label joins the full group names with ["-"]:
    ["Fire-Water-Air"]. *)
Theorem aggregate_prakriti_uniform :
  exists r,
    aggregate_prakriti (zone_data_of (repeat 100 16)) = Some (PrakritiOk r)
    /\ prakriti_strength r
       = [("Fire"%string, 600); ("Water"%string, 500); ("Air"%string, 500)]
    /\ Rabs (Py.sum (map snd (prakriti_percentage r)) - 100) <= 1e-6
    /\ map fst (prakriti_sorted r) = ["Fire"; "Water"; "Air"]%string
    /\ final_prakriti r = "Fire-Water-Air"%string.
Proof.
  eexists. split.
  - apply (aggregate_prakriti_ok _ _ prakriti_strength_uniform).
    cbn [map snd]. rewrite !py_sum_cons, py_sum_nil. lra.
  - cbn [prakriti_strength prakriti_percentage prakriti_sorted final_prakriti].
    rewrite sorted_desc_uniform.
    split; [reflexivity|]. split; [|split; reflexivity].
    cbn [map fst snd]. rewrite !py_sum_cons, py_sum_nil.
    replace ((600 / (600 + (500 + (500 + 0))) * 100
              + (500 / (600 + (500 + (500 + 0))) * 100
                 + (500 / (600 + (500 + (500 + 0))) * 100 + 0))) - 100)
      with 0 by lra.
    rewrite Rabs_R0. lra.
Qed.

(** C7, as the claim words it, fails: on the uniform vector the label of
    the report is not the leading letters ["F-W-A"]. *)
Lemma final_prakriti_not_leading_letters :
  exists r,
    aggregate_prakriti (zone_data_of (repeat 100 16)) = Some (PrakritiOk r)
    /\ leading_letter_label (prakriti_sorted r) = "F-W-A"%string
    /\ final_prakriti r <> leading_letter_label (prakriti_sorted r).
Proof.
  eexists. split.
  - apply (aggregate_prakriti_ok _ _ prakriti_strength_uniform).
    cbn [map snd]. rewrite !py_sum_cons, py_sum_nil. lra.
  - cbn [prakriti_sorted final_prakriti]. rewrite sorted_desc_uniform.
    split; [reflexivity|]. discriminate.
Qed.

(** ** Mask based zone areas *)

Section MaskEngineProperties.

Variable fillPoly_paints : list (Z * Z) -> Z -> Z -> bool.
Variable fillConvexPoly_paints : list (Z * Z) -> Z -> Z -> bool.

Local Abbreviation compute :=
  (_compute_zone_areas_mask_based fillPoly_paints fillConvexPoly_paints).

(** With an image loaded and a center set the engine returns 16 areas. *)
Lemma compute_zone_areas_total (st : PlotAnalyzerApp)
  (polygon_points : list point) (shape : nat * nat) (c : point) :
  original_bgr st = Some shape ->
  center_point st = Some c ->
  exists zone_areas,
    compute st polygon_points = Some zone_areas /\ length zone_areas = 16%nat.
Proof.
  intros Himg Hc. unfold compute, _compute_zone_areas_mask_based.
  rewrite Himg, Hc. destruct shape as [img_h img_w]. destruct c as [cx cy].
  cbn [bind]. eexists. split; [reflexivity|].
  rewrite length_map, length_seq. reflexivity.
Qed.

(** ** Which boundary the zone areas are measured on *)

Lemma barchart_points_selected (st : PlotAnalyzerApp) :
  ((3 <= length (barchart_boundary_points st))%nat ->
   barchart_points st = barchart_boundary_points st)
  /\ ((length (barchart_boundary_points st) < 3)%nat ->
      barchart_points st = boundary_points st).
Proof.
  unfold barchart_points, uses_barchart_boundary. split; intros H.
  - apply Nat.leb_le in H. rewrite H. reflexivity.
  - apply Nat.leb_gt in H. rewrite H. reflexivity.
Qed.

(** [calculate_zone_areas] runs the mask engine on the selected polygon
    and stores the result in the cache. *)
Lemma calculate_zone_areas_runs_engine (st : PlotAnalyzerApp)
  (shape : nat * nat) (c : point) :
  original_bgr st = Some shape ->
  center_point st = Some c ->
  (3 <= length (barchart_points st))%nat ->
  exists zone_areas total_area st',
    compute st (barchart_points st) = Some zone_areas
    /\ calculate_zone_areas fillPoly_paints fillConvexPoly_paints st
       = Some (st', ShowZoneAreas total_area (Py.sum zone_areas)
                      (combine ZONE_NAMES zone_areas))
    /\ zone_areas_cache st' = Some zone_areas.
Proof.
  intros Himg Hc Hlen.
  destruct (compute_zone_areas_total st (barchart_points st) shape c Himg Hc)
    as (zone_areas & Hz & _).
  assert (Hne : barchart_points st <> [])
    by (intros Hnil; rewrite Hnil in Hlen; simpl in Hlen; lia).
  exists zone_areas, (0.5 * Rabs (shoelace_sum (barchart_points st))).
  unfold calculate_zone_areas.
  apply Nat.ltb_ge in Hlen. rewrite Hlen, Hc. cbn [is_none orb].
  rewrite Hz. cbn [bind]. rewrite (polygon_area_shoelace _ Hne). cbn [bind].
  eexists. split; [reflexivity|]. split; [reflexivity|].
  destruct (uses_barchart_boundary _); reflexivity.
Qed.

(** [export_pdf_report] takes the cached vector when it has 16 entries
    and runs the mask engine on the selected polygon otherwise. *)
Lemma export_zone_areas_source (st : PlotAnalyzerApp)
  (shape : nat * nat) (c : point) :
  original_bgr st = Some shape ->
  center_point st = Some c ->
  exists st' zone_areas,
    export_zone_areas fillPoly_paints fillConvexPoly_paints st
    = Some (st', zone_areas)
    /\ match zone_areas_cache st with
       | Some cached =>
           if (length cached =? 16)%nat then zone_areas = cached
           else compute st (barchart_points st) = Some zone_areas
       | None => compute st (barchart_points st) = Some zone_areas
       end.
Proof.
  intros Himg Hc.
  destruct (compute_zone_areas_total st (barchart_points st) shape c Himg Hc)
    as (fresh & Hz & _).
  unfold export_zone_areas.
  destruct (zone_areas_cache st) as [cached|].
  - destruct (length cached =? 16)%nat; cbn [negb].
    + cbn [bind]. do 2 eexists. split; reflexivity.
    + rewrite Hz. cbn [bind]. do 2 eexists. split; reflexivity.
  - rewrite Hz. cbn [bind]. do 2 eexists. split; reflexivity.
Qed.

(** C10, as the code has it.  Both workflows select the barchart
    boundary exactly when it has at least 3 points and the
    center-workflow boundary otherwise.  The interactive calculation
    then runs the mask engine on the selected polygon and caches the
    sixteen areas.  The PDF export runs the same engine on the selected
    polygon only when no cached vector of 16 entries exists; a cached
    vector of 16 entries is reused as it is. *)
Theorem zone_area_boundary_selection (st : PlotAnalyzerApp)
  (shape : nat * nat) (c : point) :
  original_bgr st = Some shape ->
  center_point st = Some c ->
  ((3 <= length (barchart_boundary_points st))%nat ->
   barchart_points st = barchart_boundary_points st)
  /\ ((length (barchart_boundary_points st) < 3)%nat ->
      barchart_points st = boundary_points st)
  /\ ((3 <= length (barchart_points st))%nat ->
      exists zone_areas total_area st',
        compute st (barchart_points st) = Some zone_areas
        /\ calculate_zone_areas fillPoly_paints fillConvexPoly_paints st
           = Some (st', ShowZoneAreas total_area (Py.sum zone_areas)
                          (combine ZONE_NAMES zone_areas))
        /\ zone_areas_cache st' = Some zone_areas)
  /\ (exists st' zone_areas,
        export_zone_areas fillPoly_paints fillConvexPoly_paints st
        = Some (st', zone_areas)
        /\ match zone_areas_cache st with
           | Some cached =>
               if (length cached =? 16)%nat then zone_areas = cached
               else compute st (barchart_points st) = Some zone_areas
           | None => compute st (barchart_points st) = Some zone_areas
           end).
Proof.
  intros Himg Hc.
  split; [apply barchart_points_selected|].
  split; [apply barchart_points_selected|].
  split.
  - apply (calculate_zone_areas_runs_engine st shape c Himg Hc).
  - apply (export_zone_areas_source st shape c Himg Hc).
Qed.

(** The report is drawn from the vector [export_zone_areas] settles:
    its balance lines, its remarks and its prakriti groups. *)
Lemma export_pdf_report_guarded (st : PlotAnalyzerApp) :
  export_guard st = false ->
  export_pdf_report fillPoly_paints fillConvexPoly_paints st
  = Some (st, WarnMarkBoundaryAndCenterFirst).
Proof.
  intros Hguard. unfold export_pdf_report. rewrite Hguard. reflexivity.
Qed.

Lemma export_pdf_report_values (st st' : PlotAnalyzerApp) (r : report_values) :
  export_pdf_report fillPoly_paints fillConvexPoly_paints st
  = Some (st', ReportValues r) ->
  exists zone_areas,
    export_zone_areas fillPoly_paints fillConvexPoly_paints st
    = Some (st', zone_areas)
    /\ report_zone_data r = zone_data_of zone_areas
    /\ balance_lines (zone_data_of zone_areas)
       = Some (report_lob r, report_ulob r, report_llob r)
    /\ report_remarks r
       = remarks_of (zone_data_of zone_areas) (report_ulob r) (report_llob r)
    /\ aggregate_prakriti (zone_data_of zone_areas)
       = Some (PrakritiOk (report_prakriti r)).
Proof.
  unfold export_pdf_report.
  destruct (export_guard st); cbn [negb]; [|discriminate].
  destruct (export_zone_areas _ _ st) as [[st1 zone_areas]|];
    cbn [bind]; [|discriminate].
  destruct (balance_lines (zone_data_of zone_areas))
    as [[[lob ulob] llob]|] eqn:Hlines; cbn [bind]; [|discriminate].
  destruct (aggregate_prakriti (zone_data_of zone_areas))
    as [[|pr]|] eqn:Hpr; cbn [bind]; try discriminate.
  intros H. injection H as -> <-. exists zone_areas.
  cbn [report_zone_data report_lob report_ulob report_llob report_remarks
       report_prakriti].
  split; [reflexivity|]. split; [reflexivity|]. split; [exact Hlines|].
  split; [reflexivity|exact Hpr].
Qed.

End MaskEngineProperties.

(** ** A cached vector outlives the polygon it was measured on *)

Lemma int32_of_float_IZR (z : Z) : int32_of_float (IZR z) = z.
Proof.
  unfold int32_of_float. destruct (Rle_dec 0 (IZR z)) as [Hle|Hlt].
  - symmetry. apply Int_part_spec. lra.
  - rewrite <- opp_IZR.
    rewrite <- (Int_part_spec (IZR (- z)) (- z)%Z) by lra. lia.
Qed.

(** When every wedge covers the whole image, each zone area is the
    number of pixels of the polygon mask. *)
Lemma zone_area_paints_all (img_h img_w : nat) (polygon_mask : mask)
  (cx cy start step far_r : R) (i : nat) :
  zone_area paints_all img_h img_w polygon_mask cx cy start step far_r i
  = INR (countNonZero
           (bitwise_and polygon_mask
              (paint (fun _ _ => true) 255 (np_zeros img_h img_w)))).
Proof. reflexivity. Qed.

Lemma compute_paints_all (st : PlotAnalyzerApp) (polygon_points : list point)
  (img_h img_w : nat) (c : point) (polygon_mask : mask) :
  original_bgr st = Some (img_h, img_w) ->
  center_point st = Some c ->
  fillPoly paints_vertices (np_zeros img_h img_w)
    (map int32_point polygon_points) 255 = polygon_mask ->
  _compute_zone_areas_mask_based paints_vertices paints_all st polygon_points
  = Some (repeat (INR (countNonZero
                         (bitwise_and polygon_mask
                            (paint (fun _ _ => true) 255 (np_zeros img_h img_w)))))
            16).
Proof.
  intros Himg Hc Hmask. unfold _compute_zone_areas_mask_based.
  rewrite Himg, Hc. destruct c as [cx cy]. cbn [bind]. rewrite Hmask.
  f_equal.
Qed.

Lemma center_boundary_mask :
  fillPoly paints_vertices (np_zeros 2 2)
    (map int32_point (boundary_points center_only_state)) 255
  = [[255; 255]; [255; 0]]%Z.
Proof.
  unfold fillPoly, paint, np_zeros, int32_point.
  cbn [center_only_state boundary_points map fst snd repeat length seq combine
       paints_vertices existsb Z.of_nat].
  rewrite (int32_of_float_IZR 0), (int32_of_float_IZR 1). reflexivity.
Qed.

Lemma pixel_square_mask :
  fillPoly paints_vertices (np_zeros 2 2) (map int32_point pixel_square) 255
  = [[255; 255]; [255; 255]]%Z.
Proof.
  unfold fillPoly, paint, np_zeros, int32_point, pixel_square.
  cbn [map fst snd repeat length seq combine paints_vertices existsb Z.of_nat].
  rewrite (int32_of_float_IZR 0), (int32_of_float_IZR 1). reflexivity.
Qed.

(** C10, as the claim words it, fails for the PDF export.  The zone
    areas are first calculated on the center-workflow boundary, a
    triangle of 3 pixels; then a barchart boundary of 4 points is
    detected; the export selects the barchart boundary, on which the
    mask engine measures 4 pixels per zone, and yet reports the 3 pixels
    per zone cached from the other polygon. *)
Lemma export_reuses_stale_zone_areas :
  exists st1 dialog,
    calculate_zone_areas paints_vertices paints_all center_only_state
    = Some (st1, dialog)
    /\ export_guard (detect_barchart_boundary st1 pixel_square) = true
    /\ barchart_points (detect_barchart_boundary st1 pixel_square) = pixel_square
    /\ _compute_zone_areas_mask_based paints_vertices paints_all
         (detect_barchart_boundary st1 pixel_square)
         (barchart_points (detect_barchart_boundary st1 pixel_square))
       = Some (repeat 4 16)
    /\ option_map snd
         (export_zone_areas paints_vertices paints_all
            (detect_barchart_boundary st1 pixel_square))
       = Some (repeat 3 16).
Proof.
  assert (Hcalc : _compute_zone_areas_mask_based paints_vertices paints_all
                    center_only_state (boundary_points center_only_state)
                  = Some (repeat 3 16)).
  { rewrite (compute_paints_all center_only_state _ 2 2 (1 / 3, 1 / 3) _
               eq_refl eq_refl center_boundary_mask).
    do 2 f_equal. cbn. lra. }
  unfold calculate_zone_areas.
  change (barchart_points center_only_state)
    with (boundary_points center_only_state).
  rewrite Hcalc.
  cbn [center_only_state boundary_points center_point length Nat.ltb Nat.leb
       is_none orb bind].
  rewrite polygon_area_shoelace by discriminate. cbn [bind].
  do 2 eexists. split; [reflexivity|].
  split; [reflexivity|]. split; [reflexivity|]. split.
  - erewrite compute_paints_all;
      [|reflexivity|reflexivity|exact pixel_square_mask].
    do 2 f_equal. cbn. lra.
  - reflexivity.
Qed.

Lemma zone_area_boundary_selection_witness :
  original_bgr center_only_state = Some (2%nat, 2%nat)
  /\ center_point center_only_state = Some (1 / 3, 1 / 3)
  /\ barchart_points center_only_state = boundary_points center_only_state
  /\ exists st' zone_areas,
       export_zone_areas paints_vertices paints_all center_only_state
       = Some (st', zone_areas)
       /\ _compute_zone_areas_mask_based paints_vertices paints_all
            center_only_state (barchart_points center_only_state)
          = Some zone_areas.
Proof.
  split; [reflexivity|]. split; [reflexivity|].
  pose proof (zone_area_boundary_selection paints_vertices paints_all
                center_only_state (2%nat, 2%nat) (1 / 3, 1 / 3)
                eq_refl eq_refl) as (_ & Hcenter & _ & Hexport).
  split; [apply Hcenter; simpl; lia|exact Hexport].
Defined.

(* ================================================================== *)
(** * Part III: the interactive workflow, embedding                    *)
(* ================================================================== *)

From Stdlib Require Import Permutation Sorted.

(** ** Window state *)

(** The remaining fields of [self] that the click, center, clear and
    overlay methods use, around the geometry fields of
    [PlotAnalyzerApp].  The two [tk.StringVar]s hold strings.  The
    status line, the canvas items and the render cache are not
    modelled. *)
Record Studio : Type := mk_studio {
  geometry : PlotAnalyzerApp;
  polygon_closed : bool;
  zones_drawn : bool;
  cardinal_drawn : bool;
  cursor_img_point : option point;
  boundary_mode : string;
  active_boundary_target : string;
  display_scale : R;
  image_offset_x : Z;
  image_offset_y : Z;
  display_w : Z;
  display_h : Z
}.

Definition set_geometry (st : Studio) (g : PlotAnalyzerApp) : Studio :=
  mk_studio g (polygon_closed st) (zones_drawn st) (cardinal_drawn st)
    (cursor_img_point st) (boundary_mode st) (active_boundary_target st)
    (display_scale st) (image_offset_x st) (image_offset_y st)
    (display_w st) (display_h st).

Definition set_polygon_closed (st : Studio) (b : bool) : Studio :=
  mk_studio (geometry st) b (zones_drawn st) (cardinal_drawn st)
    (cursor_img_point st) (boundary_mode st) (active_boundary_target st)
    (display_scale st) (image_offset_x st) (image_offset_y st)
    (display_w st) (display_h st).

Definition set_zones_drawn (st : Studio) (b : bool) : Studio :=
  mk_studio (geometry st) (polygon_closed st) b (cardinal_drawn st)
    (cursor_img_point st) (boundary_mode st) (active_boundary_target st)
    (display_scale st) (image_offset_x st) (image_offset_y st)
    (display_w st) (display_h st).

Definition set_cardinal_drawn (st : Studio) (b : bool) : Studio :=
  mk_studio (geometry st) (polygon_closed st) (zones_drawn st) b
    (cursor_img_point st) (boundary_mode st) (active_boundary_target st)
    (display_scale st) (image_offset_x st) (image_offset_y st)
    (display_w st) (display_h st).

Definition set_display (st : Studio) (scale : R) (w h offset_x offset_y : Z)
  : Studio :=
  mk_studio (geometry st) (polygon_closed st) (zones_drawn st)
    (cardinal_drawn st) (cursor_img_point st) (boundary_mode st)
    (active_boundary_target st) scale offset_x offset_y w h.

Definition set_boundary_points (g : PlotAnalyzerApp) (pts : list point)
  : PlotAnalyzerApp :=
  mk_app (original_bgr g) pts (barchart_boundary_points g)
    (barchart_polygon_closed g) (center_point g) (north_tilt_deg g)
    (zone_areas_cache g).

Definition set_barchart_boundary_points (g : PlotAnalyzerApp)
  (pts : list point) : PlotAnalyzerApp :=
  mk_app (original_bgr g) (boundary_points g) pts
    (barchart_polygon_closed g) (center_point g) (north_tilt_deg g)
    (zone_areas_cache g).

Definition set_center_point (g : PlotAnalyzerApp) (c : option point)
  : PlotAnalyzerApp :=
  mk_app (original_bgr g) (boundary_points g) (barchart_boundary_points g)
    (barchart_polygon_closed g) c (north_tilt_deg g) (zone_areas_cache g).

(** ** Python arithmetic *)

(** [int(x)] of a float: the fractional part is dropped. *)
Definition py_int (r : R) : Z :=
  if Rle_dec 0 r then Int_part r else (- Int_part (- r))%Z.

(** [a / b] on floats: [ZeroDivisionError] when [b] is zero. *)
Definition float_div (a b : R) : option R :=
  if Req_dec_T b 0 then None else Some (a / b).

(** [min(a, b)]: [b] only when it is strictly smaller. *)
Definition py_min2 (a b : R) : R := if float_lt b a then b else a.

Definition IMAGE_CANVAS_PADDING : Z := 28.

(** ** Canvas and image coordinates *)

(** The part of [_render_canvas] that fits the image into the canvas:
    the scale, the displayed size and the offsets.  The canvas size
    ([winfo_width], [winfo_height]) is an input.  The method writes
    these five fields and only then resizes and draws the image; the
    drawing is not modelled, and neither is the [ValueError] of
    [Image.resize] for a fitted side of 0 pixels, which stops the method
    after the fields are written. *)
Definition _render_canvas (st : Studio) (winfo_width winfo_height : Z)
  : option Studio :=
  match original_bgr (geometry st) with
  | None => Some st
  | Some (img_h, img_w) =>
      let canvas_w := Z.max winfo_width 1 in
      let canvas_h := Z.max winfo_height 1 in
      let usable_w := Z.max 1 (canvas_w - 2 * IMAGE_CANVAS_PADDING) in
      let usable_h := Z.max 1 (canvas_h - 2 * IMAGE_CANVAS_PADDING) in
      sw <- float_div (IZR usable_w) (INR img_w) ;;
      sh <- float_div (IZR usable_h) (INR img_h) ;;
      let display_scale := py_min2 sw sh in
      let display_w := py_int (INR img_w * display_scale) in
      let display_h := py_int (INR img_h * display_scale) in
      let image_offset_x := ((canvas_w - display_w) / 2)%Z in
      let image_offset_y := ((canvas_h - display_h) / 2)%Z in
      Some (set_display st display_scale display_w display_h
              image_offset_x image_offset_y)
  end.

(** [_canvas_to_image]: the outer [None] is an exception, the inner one
    the value [None] the method returns. *)
Definition _canvas_to_image (st : Studio) (x_canvas y_canvas : R)
  : option (option point) :=
  match original_bgr (geometry st) with
  | None => Some None
  | Some (img_h, img_w) =>
      x <- float_div (x_canvas - IZR (image_offset_x st)) (display_scale st) ;;
      y <- float_div (y_canvas - IZR (image_offset_y st)) (display_scale st) ;;
      if float_lt x 0 || float_lt y 0
         || float_ge x (INR img_w) || float_ge y (INR img_h)
      then Some None
      else Some (Some (x, y))
  end.

Definition _image_to_canvas (st : Studio) (x_img y_img : R) : point :=
  let x := x_img * display_scale st + IZR (image_offset_x st) in
  let y := y_img * display_scale st + IZR (image_offset_y st) in
  (x, y).

(** ** Marking the boundary and the center *)

(** [_on_canvas_click]: a click at [(event_x, event_y)] on a canvas of
    the given size. *)
Definition _on_canvas_click (st : Studio) (winfo_width winfo_height : Z)
  (event_x event_y : Z) : option Studio :=
  match original_bgr (geometry st) with
  | None => Some st
  | Some _ =>
      if negb (String.eqb (boundary_mode st) "manual") then Some st
      else
        let target := active_boundary_target st in
        let active_points :=
          if String.eqb target "center" then boundary_points (geometry st)
          else barchart_boundary_points (geometry st) in
        let active_closed :=
          if String.eqb target "center" then polygon_closed st
          else barchart_polygon_closed (geometry st) in
        if active_closed then Some st
        else
          img_point <- _canvas_to_image st (IZR event_x) (IZR event_y) ;;
          match img_point with
          | None => Some st
          | Some p =>
              let st :=
                if String.eqb target "center"
                then set_geometry st
                       (set_boundary_points (geometry st)
                          (active_points ++ [p]))
                else set_geometry st
                       (set_barchart_boundary_points (geometry st)
                          (active_points ++ [p])) in
              _render_canvas st winfo_width winfo_height
          end
  end.

(** [_ask_north_tilt]: the dialog answers a float or is cancelled. *)
Definition _ask_north_tilt (st : Studio) (answer : option R) : Studio :=
  match answer with
  | Some angle =>
      set_geometry st (set_north_tilt_deg (geometry st) angle)
  | None => st
  end.

(** What [mark_center] shows. *)
Inductive mark_center_dialog : Type :=
  | WarnUploadImageFirst
  | WarnMark3BoundaryPoints
  | ErrorCouldNotComputeCentroid
  | CenterMarked.

Definition mark_center (st : Studio) (winfo_width winfo_height : Z)
  (answer : option R) : option (Studio * mark_center_dialog) :=
  match original_bgr (geometry st) with
  | None => Some (st, WarnUploadImageFirst)
  | Some _ =>
      if (length (boundary_points (geometry st)) <? 3)%nat
      then Some (st, WarnMark3BoundaryPoints)
      else
        let st := set_polygon_closed st true in
        match _polygon_centroid (boundary_points (geometry st)) with
        | None => Some (st, ErrorCouldNotComputeCentroid)
        | Some centroid =>
            let st :=
              set_geometry st (set_center_point (geometry st) (Some centroid)) in
            st <- _render_canvas st winfo_width winfo_height ;;
            let st := _ask_north_tilt st answer in
            Some (st, CenterMarked)
        end
  end.

(** [clear_geometry_only]. *)
Definition clear_geometry_only (st : Studio) : Studio :=
  mk_studio
    (mk_app (original_bgr (geometry st)) [] [] false None
       (north_tilt_deg (geometry st)) None)
    false false false None (boundary_mode st) "center"
    (display_scale st) (image_offset_x st) (image_offset_y st)
    (display_w st) (display_h st).

(** What [mark_cardinal_lines] and [mark_16_zones] show when they
    refuse. *)
Inductive mark_lines_dialog : Type :=
  | WarnMarkCenterFirst
  | WarnMarkBoundaryFirst
  | LinesDrawn.

Definition mark_cardinal_lines (st : Studio) (winfo_width winfo_height : Z)
  : option (Studio * mark_lines_dialog) :=
  if is_none (center_point (geometry st)) then Some (st, WarnMarkCenterFirst)
  else if (length (boundary_points (geometry st)) <? 3)%nat
  then Some (st, WarnMarkBoundaryFirst)
  else
    let st := set_cardinal_drawn st true in
    st <- _render_canvas st winfo_width winfo_height ;;
    Some (st, LinesDrawn).

Definition mark_16_zones (st : Studio) (winfo_width winfo_height : Z)
  : option (Studio * mark_lines_dialog) :=
  if is_none (center_point (geometry st)) then Some (st, WarnMarkCenterFirst)
  else if (length (boundary_points (geometry st)) <? 3)%nat
  then Some (st, WarnMarkBoundaryFirst)
  else
    let st := set_zones_drawn st true in
    st <- _render_canvas st winfo_width winfo_height ;;
    Some (st, LinesDrawn).

(** ** Points inside the image *)

(** A point with [0 <= x < img_w] and [0 <= y < img_h]. *)
Definition in_image (g : PlotAnalyzerApp) (p : point) : Prop :=
  exists img_h img_w,
    original_bgr g = Some (img_h, img_w)
    /\ 0 <= fst p < INR img_w
    /\ 0 <= snd p < INR img_h.

Definition points_in_image (g : PlotAnalyzerApp) : Prop :=
  Forall (in_image g) (boundary_points g)
  /\ Forall (in_image g) (barchart_boundary_points g).

(** ** Sample windows *)

(** The window as [__init__] leaves it, around given geometry fields. *)
Definition initial_studio (g : PlotAnalyzerApp) : Studio :=
  mk_studio g false false false None "manual" "center" 1 0 0 0 0.

(** A window with three collinear points marked on an image of 3 x 3
    pixels. *)
Definition collinear_studio : Studio :=
  initial_studio
    (mk_app (Some (3%nat, 3%nat)) [(0, 0); (1, 1); (2, 2)] [] false None 0 None).

(** ** The remaining handlers *)

Definition set_original_bgr (g : PlotAnalyzerApp) (bgr : option (nat * nat))
  : PlotAnalyzerApp :=
  mk_app bgr (boundary_points g) (barchart_boundary_points g)
    (barchart_polygon_closed g) (center_point g) (north_tilt_deg g)
    (zone_areas_cache g).

Definition set_cursor_img_point (st : Studio) (c : option point) : Studio :=
  mk_studio (geometry st) (polygon_closed st) (zones_drawn st)
    (cardinal_drawn st) c (boundary_mode st) (active_boundary_target st)
    (display_scale st) (image_offset_x st) (image_offset_y st)
    (display_w st) (display_h st).

Definition set_boundary_mode (st : Studio) (mode : string) : Studio :=
  mk_studio (geometry st) (polygon_closed st) (zones_drawn st)
    (cardinal_drawn st) (cursor_img_point st) mode (active_boundary_target st)
    (display_scale st) (image_offset_x st) (image_offset_y st)
    (display_w st) (display_h st).

Definition set_active_boundary_target (st : Studio) (target : string)
  : Studio :=
  mk_studio (geometry st) (polygon_closed st) (zones_drawn st)
    (cardinal_drawn st) (cursor_img_point st) (boundary_mode st) target
    (display_scale st) (image_offset_x st) (image_offset_y st)
    (display_w st) (display_h st).

(** [upload_image].  [bgr] is the shape of the image after the file
    dialog, [cv2.imread] and the optional crop; [None] stands for a
    cancelled dialog or an unreadable file. *)
Definition upload_image (st : Studio) (winfo_width winfo_height : Z)
  (bgr : option (nat * nat)) : option Studio :=
  match bgr with
  | None => Some st
  | Some shape =>
      let st := set_geometry st (set_original_bgr (geometry st) (Some shape)) in
      let st := clear_geometry_only st in
      _render_canvas st winfo_width winfo_height
  end.

Definition remove_image (st : Studio) : Studio :=
  let st := set_geometry st (set_original_bgr (geometry st) None) in
  clear_geometry_only st.

Definition clear_markings (st : Studio) (winfo_width winfo_height : Z)
  : option Studio :=
  match original_bgr (geometry st) with
  | None => Some st
  | Some _ =>
      let st := clear_geometry_only st in
      _render_canvas st winfo_width winfo_height
  end.

Definition _on_canvas_resize (st : Studio) (winfo_width winfo_height : Z)
  : option Studio :=
  match original_bgr (geometry st) with
  | None => Some st
  | Some _ => _render_canvas st winfo_width winfo_height
  end.

(** [_on_boundary_mode_change]; the radio button has written its value
    into [boundary_mode] before it calls the handler. *)
Definition _on_boundary_mode_change (st : Studio)
  (winfo_width winfo_height : Z) : option Studio :=
  let st := set_cursor_img_point st None in
  _render_canvas st winfo_width winfo_height.

Definition set_center_boundary_target (st : Studio)
  (winfo_width winfo_height : Z) : option Studio :=
  let st := set_active_boundary_target st "center" in
  let st := set_cursor_img_point st None in
  _render_canvas st winfo_width winfo_height.

Definition set_barchart_boundary_target (st : Studio)
  (winfo_width winfo_height : Z) : option Studio :=
  let st := set_active_boundary_target st "barchart" in
  let st := set_cursor_img_point st None in
  _render_canvas st winfo_width winfo_height.

Definition _on_canvas_motion (st : Studio) (event_x event_y : Z)
  : option Studio :=
  match original_bgr (geometry st) with
  | None => Some st
  | Some _ =>
      let target := active_boundary_target st in
      if (negb (String.eqb (boundary_mode st) "manual") || polygon_closed st)
         && String.eqb target "center"
      then Some st
      else
        let active_points :=
          if String.eqb target "center" then boundary_points (geometry st)
          else barchart_boundary_points (geometry st) in
        if String.eqb target "barchart"
           && barchart_polygon_closed (geometry st)
        then Some st
        else
          match active_points with
          | [] => Some st
          | _ :: _ =>
              p <- _canvas_to_image st (IZR event_x) (IZR event_y) ;;
              Some (set_cursor_img_point st p)
          end
  end.

Definition _on_canvas_leave (st : Studio) : Studio :=
  match cursor_img_point st with
  | Some _ => set_cursor_img_point st None
  | None => st
  end.

(** What the OpenCV pipeline of [auto_detect_boundary] finds: no contour
    at all, a largest contour of area at most 1, or the points
    [contour_pts] of the (approximated) largest contour. *)
Inductive contours : Type :=
  | NoContours
  | LargestTooSmall
  | LargestContour (contour_pts : list (Z * Z)).

Inductive detect_dialog : Type :=
  | DetectWarnUploadImageFirst
  | ErrorNoBoundaryContour
  | ErrorContourTooSmall
  | ErrorNoValidPolygon
  | BoundaryDetected.

Definition auto_detect_boundary (st : Studio) (winfo_width winfo_height : Z)
  (found : contours) : option (Studio * detect_dialog) :=
  match original_bgr (geometry st) with
  | None => Some (st, DetectWarnUploadImageFirst)
  | Some _ =>
      match found with
      | NoContours => Some (st, ErrorNoBoundaryContour)
      | LargestTooSmall => Some (st, ErrorContourTooSmall)
      | LargestContour contour_pts =>
          if (length contour_pts <? 3)%nat then Some (st, ErrorNoValidPolygon)
          else
            let detected_points :=
              map (fun xy => (IZR (fst xy), IZR (snd xy))) contour_pts in
            let target := active_boundary_target st in
            let st :=
              if String.eqb target "center" then
                let g := set_boundary_points (geometry st) detected_points in
                let st := set_geometry st g in
                let st := set_polygon_closed st false in
                let st :=
                  set_geometry st (set_center_point (geometry st) None) in
                set_zones_drawn st false
              else
                set_geometry st
                  (detect_barchart_boundary (geometry st) detected_points) in
            let st := set_cursor_img_point st None in
            st <- _render_canvas st winfo_width winfo_height ;;
            Some (st, BoundaryDetected)
      end
  end.

Definition set_north_tilt (st : Studio) (winfo_width winfo_height : Z)
  (answer : option R) : option Studio :=
  let st := _ask_north_tilt st answer in
  if zones_drawn st || cardinal_drawn st
  then _render_canvas st winfo_width winfo_height
  else Some st.

(** ** Overlays *)

(** The canvas items an overlay creates, without their colours, widths
    and tags. *)
Inductive canvas_item : Type :=
  | create_line (x1 y1 x2 y2 : R)
  | create_text (x y : R) (text : string).

(** [_draw_cardinal_overlay]: for each of N, E, S, W whose ray meets the
    boundary, the line from the center to the boundary and its label. *)
Definition _draw_cardinal_overlay (st : Studio) : list canvas_item :=
  match center_point (geometry st) with
  | None => []
  | Some center =>
      if negb (cardinal_drawn st) then []
      else
        let tilt := north_tilt_deg (geometry st) in
        let cardinal_angles :=
          [ ("N", tilt); ("E", tilt + 90); ("S", tilt + 180);
            ("W", tilt + 270) ]%string in
        let '(cx_canvas, cy_canvas) :=
          _image_to_canvas st (fst center) (snd center) in
        flat_map
          (fun label_ang : string * R =>
             match _ray_boundary_intersection (boundary_points (geometry st))
                     center (snd label_ang) with
             | None => []
             | Some end_img =>
                 let '(ex, ey) :=
                   _image_to_canvas st (fst end_img) (snd end_img) in
                 let lx := cx_canvas + 0.9 * (ex - cx_canvas) in
                 let ly := cy_canvas + 0.9 * (ey - cy_canvas) in
                 [ create_line cx_canvas cy_canvas ex ey;
                   create_text lx ly (fst label_ang) ]
             end)
          cardinal_angles
  end.

(** [_draw_zones_overlay]: the 16 boundary rays, then the zone names at
    the zone center angles. *)
Definition _draw_zones_overlay (st : Studio) : list canvas_item :=
  match center_point (geometry st) with
  | None => []
  | Some center =>
      if negb (zones_drawn st) then []
      else
        let '(cx_img, cy_img) := center in
        let '(cx_canvas, cy_canvas) := _image_to_canvas st cx_img cy_img in
        let step := 360 / 16 in
        let start_boundary_deg := north_tilt_deg (geometry st) - step / 2 in
        let rays :=
          map (fun i =>
                 let deg := start_boundary_deg + INR i * step in
                 let end_img :=
                   match _ray_boundary_intersection
                           (boundary_points (geometry st)) center deg with
                   | Some end_img => end_img
                   | None =>
                       let rad := radians deg in
                       let fx :=
                         cx_img
                         + 2 * IZR (Z.max (display_w st) (display_h st))
                           * sin rad in
                       let fy :=
                         cy_img
                         - 2 * IZR (Z.max (display_w st) (display_h st))
                           * cos rad in
                       (fx, fy)
                   end in
                 let '(x_end, y_end) :=
                   _image_to_canvas st (fst end_img) (snd end_img) in
                 create_line cx_canvas cy_canvas x_end y_end)
              (seq 0 16) in
        let labels :=
          flat_map
            (fun i_name : nat * string =>
               let mid_deg :=
                 north_tilt_deg (geometry st) + INR (fst i_name) * step in
               match _ray_boundary_intersection
                       (boundary_points (geometry st)) center mid_deg with
               | None => []
               | Some mid_hit =>
                   let x_txt_img := cx_img + 0.62 * (fst mid_hit - cx_img) in
                   let y_txt_img := cy_img + 0.62 * (snd mid_hit - cy_img) in
                   let '(x_txt, y_txt) :=
                     _image_to_canvas st x_txt_img y_txt_img in
                   [create_text x_txt y_txt (snd i_name)]
               end)
            (combine (seq 0 (length ZONE_NAMES)) ZONE_NAMES) in
        rays ++ labels
  end.

(** ** The crop dialog *)













(** ** The handlers as steps of the window *)

(** The state [__init__] builds. *)
Definition startup : Studio :=
  initial_studio (mk_app None [] [] false None 0 None).

Module Window.

Section Engine.

Variable fillPoly_paints : list (Z * Z) -> Z -> Z -> bool.
Variable fillConvexPoly_paints : list (Z * Z) -> Z -> Z -> bool.

(** [calculate_zone_areas] on the window: the geometry fields change as
    [calculate_zone_areas] above says, and the canvas is redrawn when
    the barchart boundary was measured. *)
Definition calculate_zone_areas (st : Studio) (winfo_width winfo_height : Z)
  : option (Studio * zone_dialog) :=
  r <- calculate_zone_areas fillPoly_paints fillConvexPoly_paints
         (geometry st) ;;
  let '(g, dialog) := r in
  match dialog with
  | WarnBoundaryAndCenter => Some (st, dialog)
  | ShowZoneAreas _ _ _ =>
      let st := set_geometry st g in
      if uses_barchart_boundary g then
        st <- _render_canvas st winfo_width winfo_height ;;
        Some (st, dialog)
      else Some (st, dialog)
  end.

(** [export_pdf_report] on the window, up to [final_prakriti]. *)
Definition export_pdf_report (st : Studio) : option (Studio * export_outcome) :=
  r <- export_pdf_report fillPoly_paints fillConvexPoly_paints (geometry st) ;;
  let '(g, outcome) := r in
  Some (set_geometry st g, outcome).

(** One handler run to its end without raising.  An uploaded image has
    at least one row and one column ([cv2.imread] answers [None]
    otherwise, and the crop dialog refuses an empty selection).  A
    handler that the image library stops inside [_render_canvas] has
    already written the display fields and writes nothing after it but
    the tilt of [mark_center]: it leaves the fields as the completed
    handler does (with a cancelled tilt dialog), so such runs add no
    states. *)
Inductive step : Studio -> Studio -> Prop :=
  | step_upload_image st w h img_h img_w st' :
      (0 < img_h)%nat -> (0 < img_w)%nat ->
      upload_image st w h (Some (img_h, img_w)) = Some st' -> step st st'
  | step_remove_image st : step st (remove_image st)
  | step_clear_markings st w h st' :
      clear_markings st w h = Some st' -> step st st'
  | step_canvas_resize st w h st' :
      _on_canvas_resize st w h = Some st' -> step st st'
  | step_boundary_mode st mode w h st' :
      mode = "manual"%string \/ mode = "auto"%string ->
      _on_boundary_mode_change (set_boundary_mode st mode) w h = Some st' ->
      step st st'
  | step_center_target st w h st' :
      set_center_boundary_target st w h = Some st' -> step st st'
  | step_barchart_target st w h st' :
      set_barchart_boundary_target st w h = Some st' -> step st st'
  | step_canvas_click st w h event_x event_y st' :
      _on_canvas_click st w h event_x event_y = Some st' -> step st st'
  | step_canvas_motion st event_x event_y st' :
      _on_canvas_motion st event_x event_y = Some st' -> step st st'
  | step_canvas_leave st : step st (_on_canvas_leave st)
  | step_auto_detect st w h found st' dialog :
      auto_detect_boundary st w h found = Some (st', dialog) -> step st st'
  | step_mark_center st w h answer st' dialog :
      mark_center st w h answer = Some (st', dialog) -> step st st'
  | step_north_tilt st w h answer st' :
      set_north_tilt st w h answer = Some st' -> step st st'
  | step_cardinal_lines st w h st' dialog :
      mark_cardinal_lines st w h = Some (st', dialog) -> step st st'
  | step_16_zones st w h st' dialog :
      mark_16_zones st w h = Some (st', dialog) -> step st st'
  | step_zone_areas st w h st' dialog :
      calculate_zone_areas st w h = Some (st', dialog) -> step st st'
  | step_export st st' outcome :
      export_pdf_report st = Some (st', outcome) -> step st st'.

(** The states the window can be in: [startup] and what the handlers
    make of it. *)
Inductive reachable : Studio -> Prop :=
  | reachable_startup : reachable startup
  | reachable_step st st' : reachable st -> step st st' -> reachable st'.

End Engine.

End Window.

(** What the handlers keep true of the window. *)
Record consistent (st : Studio) : Prop := mk_consistent {
  center_closed :
    center_point (geometry st) <> None -> polygon_closed st = true;
  closed_three :
    polygon_closed st = true ->
    (3 <= length (boundary_points (geometry st)))%nat;
  zones_center :
    zones_drawn st = true -> center_point (geometry st) <> None;
  cache_sixteen :
    forall cached,
      zone_areas_cache (geometry st) = Some cached -> length cached = 16%nat;
  no_image_no_points :
    original_bgr (geometry st) = None ->
    boundary_points (geometry st) = []
    /\ barchart_boundary_points (geometry st) = [];
  image_not_empty :
    forall img_h img_w,
      original_bgr (geometry st) = Some (img_h, img_w) ->
      (0 < img_h)%nat /\ (0 < img_w)%nat;
  scale_positive : 0 < display_scale st;
  barchart_closed_three :
    barchart_polygon_closed (geometry st) = true ->
    (3 <= length (barchart_boundary_points (geometry st)))%nat
}.

(** A window on the square of the specification, with the center
    marked and both overlays switched on. *)
Definition square_studio : Studio :=
  mk_studio
    (mk_app (Some (101%nat, 101%nat)) spec_square [] false (Some (50, 50)) 0
       None)
    true true true None "manual" "center" 1 0 0 101 101.

(** A window in manual mode that shows a 2 x 2 image on a canvas of
    800 x 600: the scale is 272, the image is shown 544 x 544 at the
    offset (128, 28). *)
Definition sample_window (g : PlotAnalyzerApp) (closed zones : bool)
  (target : string) : Studio :=
  mk_studio g closed zones false None "manual" target 272 128 28 544 544.

(** A session on a canvas of 800 x 600, with OpenCV painting every
    pixel: a 2 x 2 image is uploaded; three clicks mark the center
    boundary (0,0), (1,0), (0,1); the center is marked with a tilt of 30
    degrees; the 16 zones are drawn; the target is switched to the
    barchart boundary, three clicks mark (0,0), (1,0), (1,1) for it, and
    the zone areas are calculated.  [st] is the window at the end. *)
Definition sample_session (st : Studio) : Prop :=
  exists s1 s2 s3 s4 s5 s6 s7 s8 s9 s10 dialog,
    upload_image startup 800 600 (Some (2%nat, 2%nat)) = Some s1
    /\ _on_canvas_click s1 800 600 128 28 = Some s2
    /\ _on_canvas_click s2 800 600 400 28 = Some s3
    /\ _on_canvas_click s3 800 600 128 300 = Some s4
    /\ mark_center s4 800 600 (Some 30) = Some (s5, CenterMarked)
    /\ mark_16_zones s5 800 600 = Some (s6, LinesDrawn)
    /\ set_barchart_boundary_target s6 800 600 = Some s7
    /\ _on_canvas_click s7 800 600 128 28 = Some s8
    /\ _on_canvas_click s8 800 600 400 28 = Some s9
    /\ _on_canvas_click s9 800 600 400 300 = Some s10
    /\ Window.calculate_zone_areas paints_all paints_all s10 800 600
       = Some (st, dialog).

(* ================================================================== *)
(** * Part IV: the interactive workflow, properties                    *)
(* ================================================================== *)

(** ** Python arithmetic *)

Lemma float_div_some (a b : R) : b <> 0 -> float_div a b = Some (a / b).
Proof.
  intros Hb. unfold float_div. destruct (Req_dec_T b 0); [contradiction|].
  reflexivity.
Qed.

Lemma float_div_inv (a b q : R) : float_div a b = Some q -> b <> 0 /\ q = a / b.
Proof.
  unfold float_div. destruct (Req_dec_T b 0); [discriminate|].
  intros H. injection H as <-. split; [assumption|reflexivity].
Qed.

(** [int] of a non-negative float is its floor. *)
Lemma py_int_nonneg (r : R) :
  0 <= r -> (0 <= py_int r)%Z /\ IZR (py_int r) <= r < IZR (py_int r) + 1.
Proof.
  intros Hr. unfold py_int. destruct (Rle_dec 0 r) as [_|Hn]; [|contradiction].
  destruct (base_Int_part r) as [Hle Hgt].
  split; [|lra].
  assert (Hlt : IZR (-1) < IZR (Int_part r)) by lra.
  apply lt_IZR in Hlt. lia.
Qed.

Lemma py_min2_spec (a b : R) : py_min2 a b <= a /\ py_min2 a b <= b
  /\ (py_min2 a b = a \/ py_min2 a b = b).
Proof.
  unfold py_min2. destruct (float_lt b a) eqn:H;
    [apply float_lt_true in H | apply float_lt_false in H];
    repeat split; try lra; auto.
Qed.

(** ** Canvas and image coordinates *)

(** What [_canvas_to_image] answers lies inside the image. *)
Lemma canvas_to_image_in_image (st : Studio) (x_canvas y_canvas : R)
  (p : point) :
  _canvas_to_image st x_canvas y_canvas = Some (Some p) ->
  in_image (geometry st) p.
Proof.
  unfold _canvas_to_image, in_image.
  destruct (original_bgr (geometry st)) as [[img_h img_w]|]; [|discriminate].
  destruct (float_div _ _) as [x|]; cbn [bind]; [|discriminate].
  destruct (float_div _ _) as [y|]; cbn [bind]; [|discriminate].
  destruct (_ || _) eqn:Hout; [discriminate|].
  apply orb_false_iff in Hout. destruct Hout as [Hout Hyh].
  apply orb_false_iff in Hout. destruct Hout as [Hout Hxw].
  apply orb_false_iff in Hout. destruct Hout as [Hx0 Hy0].
  apply float_lt_false in Hx0, Hy0. apply float_ge_false in Hxw, Hyh.
  intros H. injection H as <-. cbn [fst snd].
  exists img_h, img_w. split; [reflexivity|]. lra.
Qed.

(** With a non-zero display scale [_canvas_to_image] does not raise. *)
Lemma canvas_to_image_total (st : Studio) (x_canvas y_canvas : R) :
  display_scale st <> 0 -> _canvas_to_image st x_canvas y_canvas <> None.
Proof.
  intros Hs. unfold _canvas_to_image.
  destruct (original_bgr (geometry st)) as [[img_h img_w]|]; [|discriminate].
  rewrite !float_div_some by exact Hs. cbn [bind].
  destruct (_ || _); discriminate.
Qed.

(** On a non-empty image the size computation of [_render_canvas]
    divides by no zero and picks a positive scale. *)
Lemma render_canvas_some (st : Studio) (winfo_width winfo_height : Z)
  (img_h img_w : nat) :
  original_bgr (geometry st) = Some (img_h, img_w) ->
  (0 < img_h)%nat ->
  (0 < img_w)%nat ->
  exists st',
    _render_canvas st winfo_width winfo_height = Some st'
    /\ 0 < display_scale st'.
Proof.
  intros Himg Hh Hw.
  assert (Hw' : 0 < INR img_w) by (apply lt_0_INR; exact Hw).
  assert (Hh' : 0 < INR img_h) by (apply lt_0_INR; exact Hh).
  unfold _render_canvas. rewrite Himg.
  set (usable_w := Z.max 1 (Z.max winfo_width 1 - 2 * IMAGE_CANVAS_PADDING)).
  set (usable_h := Z.max 1 (Z.max winfo_height 1 - 2 * IMAGE_CANVAS_PADDING)).
  assert (Huw : 1 <= IZR usable_w) by (apply IZR_le; unfold usable_w; lia).
  assert (Huh : 1 <= IZR usable_h) by (apply IZR_le; unfold usable_h; lia).
  rewrite !float_div_some by lra. cbn [bind].
  eexists. split; [reflexivity|]. cbn [set_display display_scale].
  destruct (py_min2_spec (IZR usable_w / INR img_w) (IZR usable_h / INR img_h))
    as (_ & _ & [-> | ->]); apply Rdiv_lt_0_compat; lra.
Qed.

(** The offset [(canvas - shown) // 2] of an image that leaves 56 pixels
    free keeps 28 of them on either side. *)
Lemma centered_offset_padding (canvas shown : Z) :
  (57 <= canvas)%Z ->
  (0 <= shown <= Z.max 1 (Z.max canvas 1 - 56))%Z ->
  (28 <= (Z.max canvas 1 - shown) / 2
   /\ (Z.max canvas 1 - shown) / 2 + shown <= canvas - 28)%Z.
Proof.
  intros Hwide [H0 Hfit].
  assert (Hmax : Z.max canvas 1 = canvas) by lia. rewrite Hmax in *.
  assert (Hfree : (shown <= canvas - 56)%Z) by lia.
  pose proof (Z.div_mod (canvas - shown) 2 ltac:(lia)) as Hdm.
  pose proof (Z.mod_pos_bound (canvas - shown) 2 ltac:(lia)) as Hmod.
  split; lia.
Qed.

(** X3.  The display fields [_render_canvas] writes for a loaded image
    (it writes them before it hands the fitted size to the image
    library): the geometry is left alone and the scale is positive; the
    fitted width and height are not negative (0 is possible) and no
    larger than the usable canvas; on a canvas wider (higher) than twice
    the padding the image keeps the 28-pixel padding on both sides.
    With these fields [_canvas_to_image] divides by no zero. *)
Theorem render_canvas_fits (st st' : Studio) (winfo_width winfo_height : Z)
  (img_h img_w : nat) :
  original_bgr (geometry st) = Some (img_h, img_w) ->
  _render_canvas st winfo_width winfo_height = Some st' ->
  geometry st' = geometry st
  /\ 0 < display_scale st'
  /\ (0 <= display_w st' <= Z.max 1 (Z.max winfo_width 1 - 56))%Z
  /\ (0 <= display_h st' <= Z.max 1 (Z.max winfo_height 1 - 56))%Z
  /\ (57 <= winfo_width ->
      28 <= image_offset_x st'
      /\ image_offset_x st' + display_w st' <= winfo_width - 28)%Z
  /\ (57 <= winfo_height ->
      28 <= image_offset_y st'
      /\ image_offset_y st' + display_h st' <= winfo_height - 28)%Z
  /\ forall x y, _canvas_to_image st' x y <> None.
Proof.
  intros Himg Hr.
  unfold _render_canvas in Hr. rewrite Himg in Hr.
  unfold IMAGE_CANVAS_PADDING in Hr. change (2 * 28)%Z with 56%Z in Hr.
  set (usable_w := Z.max 1 (Z.max winfo_width 1 - 56)) in *.
  set (usable_h := Z.max 1 (Z.max winfo_height 1 - 56)) in *.
  destruct (float_div (IZR usable_w) (INR img_w)) as [sw|] eqn:Hsw;
    cbn [bind] in Hr; [|discriminate].
  destruct (float_div (IZR usable_h) (INR img_h)) as [sh|] eqn:Hsh;
    cbn [bind] in Hr; [|discriminate].
  apply float_div_inv in Hsw, Hsh.
  destruct Hsw as [Hw0 Hsw], Hsh as [Hh0 Hsh].
  injection Hr as <-.
  assert (Hw' : 0 < INR img_w) by (pose proof (pos_INR img_w); lra).
  assert (Hh' : 0 < INR img_h) by (pose proof (pos_INR img_h); lra).
  assert (Huw : 1 <= IZR usable_w) by (apply IZR_le; unfold usable_w; lia).
  assert (Huh : 1 <= IZR usable_h) by (apply IZR_le; unfold usable_h; lia).
  assert (Hsw' : 0 < sw) by (rewrite Hsw; apply Rdiv_lt_0_compat; lra).
  assert (Hsh' : 0 < sh) by (rewrite Hsh; apply Rdiv_lt_0_compat; lra).
  destruct (py_min2_spec sw sh) as (Hle_w & Hle_h & Hmin).
  assert (Hs : 0 < py_min2 sw sh) by (destruct Hmin as [-> | ->]; assumption).
  assert (Hfit_w : INR img_w * py_min2 sw sh <= IZR usable_w).
  { replace (IZR usable_w) with (INR img_w * sw) by (rewrite Hsw; field; lra).
    apply Rmult_le_compat_l; lra. }
  assert (Hfit_h : INR img_h * py_min2 sw sh <= IZR usable_h).
  { replace (IZR usable_h) with (INR img_h * sh) by (rewrite Hsh; field; lra).
    apply Rmult_le_compat_l; lra. }
  assert (Hpos_w : 0 <= INR img_w * py_min2 sw sh)
    by (apply Rmult_le_pos; lra).
  assert (Hpos_h : 0 <= INR img_h * py_min2 sw sh)
    by (apply Rmult_le_pos; lra).
  destruct (py_int_nonneg _ Hpos_w) as (Hdw0 & Hdw & _).
  destruct (py_int_nonneg _ Hpos_h) as (Hdh0 & Hdh & _).
  assert (Hdw' : (py_int (INR img_w * py_min2 sw sh) <= usable_w)%Z)
    by (apply le_IZR; lra).
  assert (Hdh' : (py_int (INR img_h * py_min2 sw sh) <= usable_h)%Z)
    by (apply le_IZR; lra).
  cbn [set_display geometry display_scale display_w display_h image_offset_x
       image_offset_y].
  split; [reflexivity|]. split; [exact Hs|].
  split; [lia|]. split; [lia|].
  split.
  { intros Hwide. apply centered_offset_padding; [exact Hwide|].
    split; [exact Hdw0|exact Hdw']. }
  split.
  { intros Hhigh. apply centered_offset_padding; [exact Hhigh|].
    split; [exact Hdh0|exact Hdh']. }
  intros x y. apply canvas_to_image_total.
  cbn [set_display display_scale]. lra.
Qed.

Lemma render_canvas_fits_witness :
  exists st',
    _render_canvas (initial_studio center_only_state) 800 600 = Some st'
    /\ (28 <= image_offset_x st'
        /\ image_offset_x st' + display_w st' <= 800 - 28)%Z.
Proof.
  destruct (render_canvas_some (initial_studio center_only_state) 800 600 2 2
              eq_refl (Nat.lt_0_succ 1) (Nat.lt_0_succ 1))
    as (st' & Hr & _).
  exists st'. split; [exact Hr|].
  destruct (render_canvas_fits (initial_studio center_only_state) st' 800 600
              2 2 eq_refl Hr) as (_ & _ & _ & _ & Hx & _).
  apply Hx. lia.
Defined.

(** ** Clicks *)

(** [_render_canvas] changes the display fields only. *)
Lemma render_canvas_frame (st st' : Studio) (winfo_width winfo_height : Z) :
  _render_canvas st winfo_width winfo_height = Some st' ->
  geometry st' = geometry st
  /\ polygon_closed st' = polygon_closed st
  /\ zones_drawn st' = zones_drawn st
  /\ cardinal_drawn st' = cardinal_drawn st
  /\ boundary_mode st' = boundary_mode st
  /\ active_boundary_target st' = active_boundary_target st.
Proof.
  unfold _render_canvas.
  destruct (original_bgr (geometry st)) as [[img_h img_w]|].
  - destruct (float_div _ (INR img_w)); cbn [bind]; [|discriminate].
    destruct (float_div _ (INR img_h)); cbn [bind]; [|discriminate].
    intros H. injection H as <-. repeat split.
  - intros H. injection H as <-. repeat split.
Qed.

(** The two ways a click can end. *)
Lemma on_canvas_click_cases (st st' : Studio) (winfo_width winfo_height : Z)
  (event_x event_y : Z) :
  _on_canvas_click st winfo_width winfo_height event_x event_y = Some st' ->
  polygon_closed st' = polygon_closed st
  /\ (geometry st' = geometry st
      \/ exists p,
           _canvas_to_image st (IZR event_x) (IZR event_y) = Some (Some p)
           /\ in_image (geometry st) p
           /\ boundary_mode st = "manual"%string
           /\ ((active_boundary_target st = "center"%string
                /\ polygon_closed st = false
                /\ geometry st'
                   = set_boundary_points (geometry st)
                       (boundary_points (geometry st) ++ [p]))
               \/ (active_boundary_target st <> "center"%string
                   /\ barchart_polygon_closed (geometry st) = false
                   /\ geometry st'
                      = set_barchart_boundary_points (geometry st)
                          (barchart_boundary_points (geometry st) ++ [p])))).
Proof.
  unfold _on_canvas_click.
  destruct (original_bgr (geometry st)) as [shape|] eqn:Himg;
    [|intros H; injection H as <-; auto].
  destruct (String.eqb (boundary_mode st) "manual") eqn:Hmode; cbn [negb];
    [|intros H; injection H as <-; auto].
  apply String.eqb_eq in Hmode.
  destruct (String.eqb (active_boundary_target st) "center") eqn:Htarget.
  - apply String.eqb_eq in Htarget.
    destruct (polygon_closed st) eqn:Hclosed;
      [intros H; injection H as <-; auto|].
    destruct (_canvas_to_image st (IZR event_x) (IZR event_y))
      as [[p|]|] eqn:Hp; cbn [bind];
      [|intros H; injection H as <-; auto|discriminate].
    intros Hr. apply render_canvas_frame in Hr.
    destruct Hr as (Hg & Hc & _). cbn [set_geometry geometry polygon_closed] in *.
    split; [congruence|]. right. exists p.
    pose proof (canvas_to_image_in_image _ _ _ _ Hp) as Hin.
    split; [reflexivity|]. split; [exact Hin|]. split; [exact Hmode|].
    left. auto.
  - apply String.eqb_neq in Htarget.
    destruct (barchart_polygon_closed (geometry st)) eqn:Hclosed;
      [intros H; injection H as <-; auto|].
    destruct (_canvas_to_image st (IZR event_x) (IZR event_y))
      as [[p|]|] eqn:Hp; cbn [bind];
      [|intros H; injection H as <-; auto|discriminate].
    intros Hr. apply render_canvas_frame in Hr.
    destruct Hr as (Hg & Hc & _). cbn [set_geometry geometry polygon_closed] in *.
    split; [congruence|]. right. exists p.
    pose proof (canvas_to_image_in_image _ _ _ _ Hp) as Hin.
    split; [reflexivity|]. split; [exact Hin|]. split; [exact Hmode|].
    right. auto.
Qed.

(** X4.  A click never touches the image, the center, the tilt, the
    cached zone areas or the closed flags, and changes at most one
    boundary: either the geometry is unchanged, or the mode is manual,
    the active boundary is open and the image point of the click, which
    lies inside the image, is appended to it. *)
Theorem on_canvas_click_effect (st st' : Studio) (winfo_width winfo_height : Z)
  (event_x event_y : Z) :
  _on_canvas_click st winfo_width winfo_height event_x event_y = Some st' ->
  original_bgr (geometry st') = original_bgr (geometry st)
  /\ center_point (geometry st') = center_point (geometry st)
  /\ north_tilt_deg (geometry st') = north_tilt_deg (geometry st)
  /\ zone_areas_cache (geometry st') = zone_areas_cache (geometry st)
  /\ barchart_polygon_closed (geometry st')
     = barchart_polygon_closed (geometry st)
  /\ polygon_closed st' = polygon_closed st
  /\ (geometry st' = geometry st
      \/ exists p,
           _canvas_to_image st (IZR event_x) (IZR event_y) = Some (Some p)
           /\ in_image (geometry st) p
           /\ boundary_mode st = "manual"%string
           /\ ((active_boundary_target st = "center"%string
                /\ polygon_closed st = false
                /\ boundary_points (geometry st')
                   = boundary_points (geometry st) ++ [p]
                /\ barchart_boundary_points (geometry st')
                   = barchart_boundary_points (geometry st))
               \/ (active_boundary_target st <> "center"%string
                   /\ barchart_polygon_closed (geometry st) = false
                   /\ barchart_boundary_points (geometry st')
                      = barchart_boundary_points (geometry st) ++ [p]
                   /\ boundary_points (geometry st')
                      = boundary_points (geometry st)))).
Proof.
  intros Hclick.
  destruct (on_canvas_click_cases _ _ _ _ _ _ Hclick)
    as [Hclosed [Hsame | (p & Hp & Hin & Hmode & Hcase)]].
  - rewrite Hsame. repeat (split; [reflexivity|]).
    split; [exact Hclosed|]. left. reflexivity.
  - destruct Hcase as [(Ht & Hopen & Hg) | (Ht & Hopen & Hg)]; rewrite Hg;
      cbn [set_boundary_points set_barchart_boundary_points original_bgr
           center_point north_tilt_deg zone_areas_cache barchart_polygon_closed
           boundary_points barchart_boundary_points];
      repeat (split; [reflexivity|]); (split; [exact Hclosed|]);
      right; exists p;
      (split; [exact Hp|]); (split; [exact Hin|]); (split; [exact Hmode|]).
    + left. auto.
    + right. auto.
Qed.

Lemma on_canvas_click_sample :
  exists st',
    _on_canvas_click (initial_studio center_only_state) 800 600 1 1 = Some st'.
Proof.
  assert (H : _canvas_to_image (initial_studio center_only_state) 1 1
              = Some (Some (1 / 1, 1 / 1))).
  { unfold _canvas_to_image.
    cbn [initial_studio geometry center_only_state original_bgr display_scale
         image_offset_x image_offset_y].
    replace (1 - 0) with 1 by lra.
    rewrite (float_div_some 1 1) by lra. cbn [bind INR].
    float_cases. reflexivity. }
  unfold _on_canvas_click.
  cbn [initial_studio geometry center_only_state original_bgr boundary_mode
       active_boundary_target polygon_closed String.eqb Ascii.eqb Bool.eqb negb].
  change (_canvas_to_image _ 1 1)
    with (_canvas_to_image (initial_studio center_only_state) 1 1).
  rewrite H. cbn [bind].
  edestruct render_canvas_some as (st' & Hr & _);
    [| | |exists st'; exact Hr].
  - reflexivity.
  - apply (Nat.lt_0_succ 1).
  - apply (Nat.lt_0_succ 1).
Qed.

Lemma on_canvas_click_effect_witness :
  exists st',
    _on_canvas_click (initial_studio center_only_state) 800 600 1 1 = Some st'
    /\ zone_areas_cache (geometry st') = None
    /\ polygon_closed st' = false.
Proof.
  destruct on_canvas_click_sample as (st' & Hclick).
  exists st'. split; [exact Hclick|].
  destruct (on_canvas_click_effect _ _ _ _ _ _ Hclick)
    as (_ & _ & _ & Hcache & _ & Hclosed & _).
  split; [exact Hcache|exact Hclosed].
Defined.

Lemma in_image_same_shape (g g' : PlotAnalyzerApp) (p : point) :
  original_bgr g' = original_bgr g -> in_image g p -> in_image g' p.
Proof.
  intros Heq (img_h & img_w & Himg & Hx & Hy).
  exists img_h, img_w. rewrite Heq. auto.
Qed.

(** X5.  Clicks keep every marked point inside the image. *)
Theorem on_canvas_click_points_in_image (st st' : Studio)
  (winfo_width winfo_height : Z) (event_x event_y : Z) :
  points_in_image (geometry st) ->
  _on_canvas_click st winfo_width winfo_height event_x event_y = Some st' ->
  points_in_image (geometry st').
Proof.
  intros [Hb Hbar] Hclick.
  destruct (on_canvas_click_cases _ _ _ _ _ _ Hclick)
    as [_ [Hsame | (p & _ & Hin & _ & Hcase)]].
  - rewrite Hsame. split; assumption.
  - destruct Hcase as [(_ & _ & ->) | (_ & _ & ->)]; split;
      cbn [set_boundary_points set_barchart_boundary_points boundary_points
           barchart_boundary_points].
    + apply Forall_app. split.
      * eapply Forall_impl; [|exact Hb].
        intros q. apply in_image_same_shape. reflexivity.
      * constructor; [|constructor].
        eapply in_image_same_shape; [|exact Hin]. reflexivity.
    + eapply Forall_impl; [|exact Hbar].
      intros q. apply in_image_same_shape. reflexivity.
    + eapply Forall_impl; [|exact Hb].
      intros q. apply in_image_same_shape. reflexivity.
    + apply Forall_app. split.
      * eapply Forall_impl; [|exact Hbar].
        intros q. apply in_image_same_shape. reflexivity.
      * constructor; [|constructor].
        eapply in_image_same_shape; [|exact Hin]. reflexivity.
Qed.

Lemma on_canvas_click_points_in_image_witness :
  exists st',
    _on_canvas_click (initial_studio center_only_state) 800 600 1 1 = Some st'
    /\ points_in_image (geometry st').
Proof.
  destruct on_canvas_click_sample as (st' & Hclick).
  exists st'. split; [exact Hclick|].
  apply (on_canvas_click_points_in_image (initial_studio center_only_state)
           st' 800 600 1 1); [|exact Hclick].
  split; cbn [initial_studio geometry center_only_state boundary_points
              barchart_boundary_points].
  - repeat constructor; exists 2%nat, 2%nat; cbn [fst snd INR original_bgr];
      (split; [reflexivity|]); lra.
  - constructor.
Defined.

(** ** Marking the center *)

Lemma click_refused_when_closed (st : Studio) (winfo_width winfo_height : Z)
  (event_x event_y : Z) :
  active_boundary_target st = "center"%string ->
  polygon_closed st = true ->
  _on_canvas_click st winfo_width winfo_height event_x event_y = Some st.
Proof.
  intros Ht Hclosed. unfold _on_canvas_click.
  destruct (original_bgr (geometry st)); [|reflexivity].
  destruct (negb _); [reflexivity|].
  rewrite Ht, Hclosed. reflexivity.
Qed.

(** What [mark_center] leaves behind when the centroid exists and the
    handler runs to its end. *)
Lemma mark_center_fields (st st' : Studio) (winfo_width winfo_height : Z)
  (answer : option R) (dialog : mark_center_dialog) (shape : nat * nat)
  (c : point) :
  original_bgr (geometry st) = Some shape ->
  (3 <= length (boundary_points (geometry st)))%nat ->
  _polygon_centroid (boundary_points (geometry st)) = Some c ->
  mark_center st winfo_width winfo_height answer = Some (st', dialog) ->
  dialog = CenterMarked
  /\ geometry st'
     = match answer with
       | Some angle =>
           set_north_tilt_deg (set_center_point (geometry st) (Some c)) angle
       | None => set_center_point (geometry st) (Some c)
       end
  /\ polygon_closed st' = true
  /\ zones_drawn st' = zones_drawn st
  /\ boundary_mode st' = boundary_mode st
  /\ active_boundary_target st' = active_boundary_target st.
Proof.
  intros Himg Hlen Hc Hm. unfold mark_center in Hm. rewrite Himg in Hm.
  apply Nat.ltb_ge in Hlen. rewrite Hlen in Hm.
  cbn [set_polygon_closed geometry] in Hm. rewrite Hc in Hm.
  destruct (_render_canvas _ winfo_width winfo_height) as [st1|] eqn:Hr;
    cbn [bind] in Hm; [|discriminate].
  injection Hm as <- <-.
  apply render_canvas_frame in Hr.
  destruct Hr as (Hg & Hclosed & Hzones & _ & Hmode & Htarget).
  cbn [set_geometry set_polygon_closed geometry polygon_closed zones_drawn
       boundary_mode active_boundary_target] in Hg, Hclosed, Hzones, Hmode,
       Htarget.
  split; [reflexivity|].
  destruct answer as [angle|];
    cbn [_ask_north_tilt set_geometry geometry polygon_closed zones_drawn
         boundary_mode active_boundary_target];
    rewrite ?Hg; repeat split; assumption.
Qed.

(** With a non-empty image shown, [mark_center] gets to its end in the
    model whenever the centroid exists. *)
Lemma mark_center_some (st : Studio) (winfo_width winfo_height : Z)
  (answer : option R) (img_h img_w : nat) (c : point) :
  original_bgr (geometry st) = Some (img_h, img_w) ->
  (0 < img_h)%nat ->
  (0 < img_w)%nat ->
  (3 <= length (boundary_points (geometry st)))%nat ->
  _polygon_centroid (boundary_points (geometry st)) = Some c ->
  exists st',
    mark_center st winfo_width winfo_height answer = Some (st', CenterMarked).
Proof.
  intros Himg Hh Hw Hlen Hc. unfold mark_center. rewrite Himg.
  apply Nat.ltb_ge in Hlen. rewrite Hlen.
  cbn [set_polygon_closed geometry]. rewrite Hc.
  destruct (render_canvas_some
              (set_geometry (set_polygon_closed st true)
                 (set_center_point (geometry st) (Some c)))
              winfo_width winfo_height img_h img_w Himg Hh Hw)
    as (st1 & Hr & _).
  cbn [set_polygon_closed geometry] in Hr. rewrite Hr. cbn [bind].
  eexists. reflexivity.
Qed.

(** X6.  When [mark_center] runs to its end on an image with at least 3
    boundary points whose centroid exists, it reports the center as
    marked: the polygon is closed and the centroid stored as center; the
    tilt is the answer of the dialog (or the old tilt when the dialog
    was cancelled); the boundary and the cached zone areas are as they
    were; the guard of the PDF export then holds, and with the center
    boundary as target a click on that state is refused. *)
Theorem mark_center_sets_centroid (st st' : Studio)
  (winfo_width winfo_height : Z) (answer : option R)
  (dialog : mark_center_dialog) (shape : nat * nat) (c : point) :
  original_bgr (geometry st) = Some shape ->
  (3 <= length (boundary_points (geometry st)))%nat ->
  _polygon_centroid (boundary_points (geometry st)) = Some c ->
  mark_center st winfo_width winfo_height answer = Some (st', dialog) ->
  dialog = CenterMarked
  /\ center_point (geometry st') = Some c
  /\ polygon_closed st' = true
  /\ boundary_points (geometry st') = boundary_points (geometry st)
  /\ north_tilt_deg (geometry st')
     = match answer with
       | Some angle => angle
       | None => north_tilt_deg (geometry st)
       end
  /\ zone_areas_cache (geometry st') = zone_areas_cache (geometry st)
  /\ export_guard (geometry st') = true
  /\ (active_boundary_target st = "center"%string ->
      forall w h x y, _on_canvas_click st' w h x y = Some st').
Proof.
  intros Himg Hlen Hc Hm.
  destruct (mark_center_fields _ _ _ _ _ _ _ _ Himg Hlen Hc Hm)
    as (Hd & Hg & Hpc & _ & _ & Htgt).
  assert (Hfields :
    center_point (geometry st') = Some c
    /\ boundary_points (geometry st') = boundary_points (geometry st)
    /\ north_tilt_deg (geometry st')
       = match answer with
         | Some angle => angle
         | None => north_tilt_deg (geometry st)
         end
    /\ zone_areas_cache (geometry st') = zone_areas_cache (geometry st)).
  { rewrite Hg. destruct answer as [angle|]; repeat split. }
  destruct Hfields as (Hcenter & Hbp & Htilt & Hcache).
  split; [exact Hd|]. split; [exact Hcenter|]. split; [exact Hpc|].
  split; [exact Hbp|]. split; [exact Htilt|]. split; [exact Hcache|]. split.
  - unfold export_guard. rewrite Hbp, Hcenter.
    apply Nat.ltb_ge in Hlen. rewrite Hlen. reflexivity.
  - intros Hactive w h x y. apply click_refused_when_closed; [|exact Hpc].
    rewrite Htgt. exact Hactive.
Qed.

Lemma centroid_of_sample_triangle :
  _polygon_centroid (boundary_points center_only_state) = Some (1 / 3, 1 / 3).
Proof.
  rewrite polygon_centroid_unfold. cbn [center_only_state boundary_points].
  assert (HA : shoelace_sum [(0, 0); (1, 0); (0, 1)] = 1)
    by (unfold shoelace_sum, cyclic_sum, cross_term; cbn; lra).
  rewrite HA, Rabs_right by lra.
  assert (Hlt : float_lt 1 eps = false)
    by (apply float_lt_false; unfold eps; lra).
  rewrite Hlt.
  unfold centroid_x_sum, centroid_y_sum, cyclic_sum, cross_term. cbn.
  do 2 f_equal; lra.
Qed.

Lemma mark_center_sets_centroid_witness :
  exists st',
    mark_center (initial_studio center_only_state) 800 600 (Some 30)
    = Some (st', CenterMarked)
    /\ center_point (geometry st') = Some (1 / 3, 1 / 3)
    /\ polygon_closed st' = true
    /\ north_tilt_deg (geometry st') = 30.
Proof.
  destruct (mark_center_some (initial_studio center_only_state) 800 600
              (Some 30) 2 2 (1 / 3, 1 / 3) eq_refl (Nat.lt_0_succ 1)
              (Nat.lt_0_succ 1) (le_n 3) centroid_of_sample_triangle)
    as (st' & Hm).
  exists st'. split; [exact Hm|].
  destruct (mark_center_sets_centroid (initial_studio center_only_state) st'
              800 600 (Some 30) CenterMarked (2%nat, 2%nat) (1 / 3, 1 / 3)
              eq_refl (le_n 3) centroid_of_sample_triangle Hm)
    as (_ & Hc & Hclosed & _ & Ht & _).
  split; [exact Hc|]. split; [exact Hclosed|exact Ht].
Defined.

(** What a detection that succeeds writes. *)
Lemma auto_detect_boundary_fields (st st' : Studio)
  (winfo_width winfo_height : Z) (contour_pts : list (Z * Z))
  (dialog : detect_dialog) (shape : nat * nat) :
  original_bgr (geometry st) = Some shape ->
  (3 <= length contour_pts)%nat ->
  auto_detect_boundary st winfo_width winfo_height (LargestContour contour_pts)
  = Some (st', dialog) ->
  dialog = BoundaryDetected
  /\ boundary_mode st' = boundary_mode st
  /\ active_boundary_target st' = active_boundary_target st
  /\ (active_boundary_target st = "center"%string ->
      geometry st'
      = set_center_point
          (set_boundary_points (geometry st)
             (map (fun xy => (IZR (fst xy), IZR (snd xy))) contour_pts))
          None
      /\ polygon_closed st' = false
      /\ zones_drawn st' = false)
  /\ (active_boundary_target st <> "center"%string ->
      geometry st'
      = detect_barchart_boundary (geometry st)
          (map (fun xy => (IZR (fst xy), IZR (snd xy))) contour_pts)
      /\ polygon_closed st' = polygon_closed st
      /\ zones_drawn st' = zones_drawn st).
Proof.
  intros Himg Hlen Hd. unfold auto_detect_boundary in Hd. rewrite Himg in Hd.
  apply Nat.ltb_ge in Hlen. rewrite Hlen in Hd.
  destruct (_render_canvas _ winfo_width winfo_height) as [st1|] eqn:Hr;
    cbn [bind] in Hd; [|discriminate].
  injection Hd as <- <-.
  apply render_canvas_frame in Hr.
  destruct Hr as (Hg & Hclosed & Hzones & _ & Hmode & Htarget).
  split; [reflexivity|].
  destruct (String.eqb (active_boundary_target st) "center") eqn:Ht;
    cbn [set_cursor_img_point set_zones_drawn set_polygon_closed set_geometry
         geometry polygon_closed zones_drawn boundary_mode
         active_boundary_target] in Hg, Hclosed, Hzones, Hmode, Htarget.
  - apply String.eqb_eq in Ht.
    split; [exact Hmode|]. split; [exact Htarget|]. split.
    + intros _. split; [exact Hg|]. split; assumption.
    + intros Hne. contradiction.
  - apply String.eqb_neq in Ht.
    split; [exact Hmode|]. split; [exact Htarget|]. split.
    + intros Heq. contradiction.
    + intros _. split; [exact Hg|]. split; assumption.
Qed.

(** X7.  When the boundary has at least 3 points but no centroid (zero
    signed area), [mark_center] reports the error and sets no center,
    yet it has already closed the polygon: in the state it leaves, with
    the center boundary as target, a click is refused and changes
    nothing.  [clear_geometry_only] reopens the polygon, and so does a
    detection that succeeds on the center target, which replaces the
    boundary. *)
Theorem mark_center_degenerate_closes (st : Studio)
  (winfo_width winfo_height : Z) (answer : option R) (shape : nat * nat) :
  original_bgr (geometry st) = Some shape ->
  (3 <= length (boundary_points (geometry st)))%nat ->
  _polygon_centroid (boundary_points (geometry st)) = None ->
  mark_center st winfo_width winfo_height answer
  = Some (set_polygon_closed st true, ErrorCouldNotComputeCentroid)
  /\ geometry (set_polygon_closed st true) = geometry st
  /\ polygon_closed (set_polygon_closed st true) = true
  /\ (active_boundary_target st = "center"%string ->
      forall w h x y,
        _on_canvas_click (set_polygon_closed st true) w h x y
        = Some (set_polygon_closed st true))
  /\ polygon_closed (clear_geometry_only (set_polygon_closed st true)) = false
  /\ (active_boundary_target st = "center"%string ->
      forall w h contour_pts st2 dialog,
        (3 <= length contour_pts)%nat ->
        auto_detect_boundary (set_polygon_closed st true) w h
          (LargestContour contour_pts) = Some (st2, dialog) ->
        dialog = BoundaryDetected
        /\ polygon_closed st2 = false
        /\ boundary_points (geometry st2)
           = map (fun xy => (IZR (fst xy), IZR (snd xy))) contour_pts).
Proof.
  intros Himg Hlen Hnone.
  split.
  { unfold mark_center. rewrite Himg.
    apply Nat.ltb_ge in Hlen. rewrite Hlen.
    cbn [set_polygon_closed geometry]. rewrite Hnone. reflexivity. }
  split; [reflexivity|]. split; [reflexivity|]. split.
  { intros Hactive w h x y. apply click_refused_when_closed;
      [exact Hactive|reflexivity]. }
  split; [reflexivity|].
  intros Hactive w h contour_pts st2 dialog Hpts Hdetect.
  destruct (auto_detect_boundary_fields (set_polygon_closed st true) st2 w h
              contour_pts dialog shape Himg Hpts Hdetect)
    as (Hd & _ & _ & Hcenter & _).
  destruct (Hcenter Hactive) as (Hg & Hopen & _).
  split; [exact Hd|]. split; [exact Hopen|]. rewrite Hg. reflexivity.
Qed.

Lemma mark_center_degenerate_closes_witness :
  mark_center collinear_studio 800 600 None
  = Some (set_polygon_closed collinear_studio true,
          ErrorCouldNotComputeCentroid)
  /\ forall w h x y,
       _on_canvas_click (set_polygon_closed collinear_studio true) w h x y
       = Some (set_polygon_closed collinear_studio true).
Proof.
  destruct (mark_center_degenerate_closes collinear_studio 800 600 None
              (3%nat, 3%nat) eq_refl (le_n 3) polygon_centroid_collinear)
    as (Hm & _ & _ & Hclick & _).
  split; [exact Hm|]. apply Hclick. reflexivity.
Defined.

(** ** Clearing *)

(** X8.  [clear_geometry_only] keeps the image and the north tilt and
    drops the cached zone areas; right after it every analysis entry
    refuses with its warning: plot area, zone areas, PDF export,
    cardinal lines and the 16 zones. *)
Theorem clear_geometry_only_refuses (st : Studio)
  (fillPoly_paints fillConvexPoly_paints : list (Z * Z) -> Z -> Z -> bool)
  (winfo_width winfo_height : Z) :
  original_bgr (geometry (clear_geometry_only st)) = original_bgr (geometry st)
  /\ north_tilt_deg (geometry (clear_geometry_only st))
     = north_tilt_deg (geometry st)
  /\ zone_areas_cache (geometry (clear_geometry_only st)) = None
  /\ calculate_plot_area (boundary_points (geometry (clear_geometry_only st)))
     = Some WarnAtLeast3Points
  /\ calculate_zone_areas fillPoly_paints fillConvexPoly_paints
       (geometry (clear_geometry_only st))
     = Some (geometry (clear_geometry_only st), WarnBoundaryAndCenter)
  /\ export_pdf_report fillPoly_paints fillConvexPoly_paints
       (geometry (clear_geometry_only st))
     = Some (geometry (clear_geometry_only st), WarnMarkBoundaryAndCenterFirst)
  /\ mark_cardinal_lines (clear_geometry_only st) winfo_width winfo_height
     = Some (clear_geometry_only st, WarnMarkCenterFirst)
  /\ mark_16_zones (clear_geometry_only st) winfo_width winfo_height
     = Some (clear_geometry_only st, WarnMarkCenterFirst).
Proof.
  repeat split.
Qed.

(** ** More on the ray caster *)

(** The edge a non-empty answer of [_ray_boundary_intersection] comes
    from. *)
Lemma ray_hit_accepted (boundary_points : list point) (origin : point)
  (angle_deg : R) (p : point) :
  (2 <= length boundary_points)%nat ->
  _ray_boundary_intersection boundary_points origin angle_deg = Some p ->
  exists e,
    In e (closed_edges boundary_points)
    /\ accepted origin (ray_direction angle_deg) (fst e) (snd e)
    /\ p = hit_point origin (ray_direction angle_deg) (fst e) (snd e).
Proof.
  intros Hlen. rewrite (ray_loop_edges _ _ _ Hlen).
  pose proof (ray_fold_nearest origin (ray_direction angle_deg)
                (closed_edges boundary_points) [] (None, None)) as Hinv.
  simpl List.app in Hinv.
  destruct (fold_left _ (closed_edges boundary_points) (None, None))
    as [[nt|] [np|]]; cbn [snd]; cbn [nearest_of] in Hinv;
    intros Hp; try discriminate.
  - injection Hp as ->.
    destruct Hinv as (e & Hin & He & _ & Hhit & _); [intros e' []|].
    exists e. auto.
  - exfalso. apply Hinv. intros e' [].
Qed.

Lemma ray_direction_unit (angle_deg : R) :
  fst (ray_direction angle_deg) * fst (ray_direction angle_deg)
  + snd (ray_direction angle_deg) * snd (ray_direction angle_deg) = 1.
Proof.
  unfold ray_direction. cbn [fst snd].
  pose proof (sin2_cos2 (radians angle_deg)) as H. unfold Rsqr in H. lra.
Qed.

(** The candidate point of an edge that is not skipped solves both
    parametric equations: it is [a + u * (b - a)] as well as
    [origin + t * d]. *)
Lemma hit_point_on_edge (o d a b : point) :
  ~ skipped d a b ->
  hit_point o d a b
  = (fst a + edge_u o d a b * (fst b - fst a),
     snd a + edge_u o d a b * (snd b - snd a)).
Proof.
  intros Hns. apply not_skipped_nonzero in Hns.
  unfold hit_point, edge_t, edge_u. unfold edge_denom in *.
  f_equal; field; exact Hns.
Qed.

(** X9.  A point returned by [_ray_boundary_intersection] lies on the
    line of a boundary edge [a -> b], at a parameter [u] between
    [- 1e-9] and [1 + 1e-9] along that edge, and on the ray, at the
    distance [t >= 0] from the origin. *)
Theorem ray_hit_on_boundary (boundary_points : list point) (origin : point)
  (angle_deg : R) (p : point) :
  (2 <= length boundary_points)%nat ->
  _ray_boundary_intersection boundary_points origin angle_deg = Some p ->
  exists a b u t,
    In (a, b) (closed_edges boundary_points)
    /\ - eps <= u <= 1 + eps
    /\ 0 <= t
    /\ p = (fst a + u * (fst b - fst a), snd a + u * (snd b - snd a))
    /\ p = (fst origin + t * sin (radians angle_deg),
            snd origin + t * - cos (radians angle_deg))
    /\ (fst p - fst origin) * (fst p - fst origin)
       + (snd p - snd origin) * (snd p - snd origin) = t * t.
Proof.
  intros Hlen Hp.
  destruct (ray_hit_accepted _ _ _ _ Hlen Hp) as ([a b] & Hin & Hacc & ->).
  cbn [fst snd] in Hacc |- *.
  destruct Hacc as (Hns & Ht & Hu).
  exists a, b, (edge_u origin (ray_direction angle_deg) a b),
    (edge_t origin (ray_direction angle_deg) a b).
  split; [exact Hin|]. split; [exact Hu|]. split; [lra|].
  split; [apply hit_point_on_edge; exact Hns|].
  split; [reflexivity|].
  unfold hit_point. cbn [fst snd].
  pose proof (ray_direction_unit angle_deg) as Hunit.
  set (t := edge_t origin (ray_direction angle_deg) a b).
  set (dx := fst (ray_direction angle_deg)) in *.
  set (dy := snd (ray_direction angle_deg)) in *.
  replace ((fst origin + t * dx - fst origin) * (fst origin + t * dx - fst origin)
           + (snd origin + t * dy - snd origin)
             * (snd origin + t * dy - snd origin))
    with (t * t * (dx * dx + dy * dy)) by ring.
  rewrite Hunit. ring.
Qed.

Lemma ray_hit_on_boundary_witness :
  exists a b u t,
    In (a, b) (closed_edges spec_square)
    /\ - eps <= u <= 1 + eps
    /\ 0 <= t
    /\ (50, 0) = (fst a + u * (fst b - fst a), snd a + u * (snd b - snd a))
    /\ (50, 0) = (fst (50, 50) + t * sin (radians 0),
                  snd (50, 50) + t * - cos (radians 0))
    /\ (fst (50, 0) - fst (50, 50)) * (fst (50, 0) - fst (50, 50))
       + (snd (50, 0) - snd (50, 50)) * (snd (50, 0) - snd (50, 50)) = t * t.
Proof.
  apply (ray_hit_on_boundary spec_square (50, 50) 0 (50, 0)).
  - simpl. lia.
  - exact ray_boundary_intersection_square.
Defined.

(** ** More on the balance lines *)

Lemma py_sum_upper (l : list R) (m : R) :
  (forall x, In x l -> x <= m) -> Py.sum l <= INR (length l) * m.
Proof.
  induction l as [|a l IH]; intros Hub.
  - rewrite py_sum_nil. simpl. lra.
  - rewrite py_sum_cons. cbn [length]. rewrite S_INR.
    assert (Ha : a <= m) by (apply Hub; left; reflexivity).
    assert (Hl : Py.sum l <= INR (length l) * m)
      by (apply IH; intros x Hx; apply Hub; right; exact Hx).
    lra.
Qed.

Lemma py_sum_lower (l : list R) (m : R) :
  (forall x, In x l -> m <= x) -> INR (length l) * m <= Py.sum l.
Proof.
  induction l as [|a l IH]; intros Hlb.
  - rewrite py_sum_nil. simpl. lra.
  - rewrite py_sum_cons. cbn [length]. rewrite S_INR.
    assert (Ha : m <= a) by (apply Hlb; left; reflexivity).
    assert (Hl : INR (length l) * m <= Py.sum l)
      by (apply IH; intros x Hx; apply Hlb; right; exact Hx).
    lra.
Qed.

(** A list whose sum reaches [n] times an upper (lower) bound of its
    entries holds that bound everywhere. *)
Lemma py_sum_reaches_upper (l : list R) (m : R) :
  (forall x, In x l -> x <= m) ->
  Py.sum l = INR (length l) * m ->
  forall x, In x l -> x = m.
Proof.
  induction l as [|a l IH]; intros Hub Hsum x Hx; [destruct Hx|].
  rewrite py_sum_cons in Hsum. cbn [length] in Hsum. rewrite S_INR in Hsum.
  assert (Ha : a <= m) by (apply Hub; left; reflexivity).
  assert (Hub' : forall y, In y l -> y <= m)
    by (intros y Hy; apply Hub; right; exact Hy).
  pose proof (py_sum_upper l m Hub') as Hl.
  destruct Hx as [<-|Hx]; [lra|].
  apply IH; [exact Hub'|lra|exact Hx].
Qed.

Lemma py_sum_reaches_lower (l : list R) (m : R) :
  (forall x, In x l -> m <= x) ->
  Py.sum l = INR (length l) * m ->
  forall x, In x l -> x = m.
Proof.
  induction l as [|a l IH]; intros Hlb Hsum x Hx; [destruct Hx|].
  rewrite py_sum_cons in Hsum. cbn [length] in Hsum. rewrite S_INR in Hsum.
  assert (Ha : m <= a) by (apply Hlb; left; reflexivity).
  assert (Hlb' : forall y, In y l -> m <= y)
    by (intros y Hy; apply Hlb; right; exact Hy).
  pose proof (py_sum_lower l m Hlb') as Hl.
  destruct Hx as [<-|Hx]; [lra|].
  apply IH; [exact Hlb'|lra|exact Hx].
Qed.

(** Unless all entries are equal, the mean lies strictly between the
    least and the greatest entry. *)
Lemma mean_strictly_between (l : list R) (mn mx : R) :
  is_min l mn -> is_max l mx -> mn < mx -> mn < mean l < mx.
Proof.
  intros [Hmin_in Hmin] [Hmax_in Hmax] Hlt.
  assert (Hne : l <> []) by (intros ->; destruct Hmin_in).
  assert (Hn : 0 < INR (length l)).
  { destruct l; [congruence|]. apply lt_0_INR. simpl. lia. }
  assert (Hsum : Py.sum l = INR (length l) * mean l)
    by (unfold mean; field; lra).
  pose proof (py_sum_upper l mx Hmax) as Hup.
  pose proof (py_sum_lower l mn Hmin) as Hlo.
  assert (Hmean : mn <= mean l <= mx) by (split; nra).
  split.
  - destruct (Req_dec_T (mean l) mn) as [Heq|Hneq]; [|lra].
    rewrite Heq in Hsum.
    pose proof (py_sum_reaches_lower l mn Hmin Hsum mx Hmax_in). lra.
  - destruct (Req_dec_T (mean l) mx) as [Heq|Hneq]; [|lra].
    rewrite Heq in Hsum.
    pose proof (py_sum_reaches_upper l mx Hmax Hsum mn Hmin_in). lra.
Qed.

Lemma remarks_of_in (zone_data : list (string * R)) (ulob llob : R) (z : string)
  (r : remark) :
  In (z, r) (remarks_of zone_data ulob llob)
  <-> exists v, In (z, v) zone_data /\ r = remark_of ulob llob v.
Proof.
  unfold remarks_of. rewrite in_map_iff. split.
  - intros ([z' v] & Heq & Hin). cbn [fst snd] in Heq.
    injection Heq as -> <-. exists v. auto.
  - intros (v & Hin & ->). exists (z, v). auto.
Qed.

(** X13.  The remarks of the report are all [Balanced] exactly when all
    zone areas are equal; otherwise there is both a [High] zone (one of
    greatest area) and a [Low] zone (one of least area). *)
Theorem remarks_balanced_iff_uniform (zone_data : list (string * R))
  (lob ulob llob : R) :
  balance_lines zone_data = Some (lob, ulob, llob) ->
  ((forall z r, In (z, r) (remarks_of zone_data ulob llob) -> r = Balanced)
   <-> (forall x y, In x (map snd zone_data) -> In y (map snd zone_data) ->
                    x = y))
  /\ ((exists x y, In x (map snd zone_data) /\ In y (map snd zone_data)
                   /\ x <> y)
      -> (exists z, In (z, High) (remarks_of zone_data ulob llob))
         /\ (exists z, In (z, Low) (remarks_of zone_data ulob llob))).
Proof.
  intros Hlines.
  assert (Hne : zone_data <> [])
    by (intros ->; discriminate Hlines).
  destruct (balance_lines_spec zone_data Hne) as (mx & mn & Hmax & Hmin & Heq).
  rewrite Hlines in Heq. injection Heq as -> -> ->.
  set (areas := map snd zone_data) in *.
  assert (Hne' : areas <> [])
    by (unfold areas; destruct zone_data; [congruence|discriminate]).
  pose proof (mean_between areas mn mx Hne' Hmin Hmax) as Hmean.
  assert (Hin_data : forall v, In v areas -> exists z, In (z, v) zone_data).
  { intros v Hv. unfold areas in Hv. apply in_map_iff in Hv.
    destruct Hv as ([z v'] & <- & Hin). exists z. exact Hin. }
  assert (Hdata_in : forall z v, In (z, v) zone_data -> In v areas).
  { intros z v Hin. unfold areas. apply in_map_iff. exists (z, v). auto. }
  assert (Hextremes : mn < mx ->
            (exists z, In (z, High)
                         (remarks_of zone_data ((mean areas + mx) / 2)
                            ((mean areas + mn) / 2)))
            /\ (exists z, In (z, Low)
                            (remarks_of zone_data ((mean areas + mx) / 2)
                               ((mean areas + mn) / 2)))).
  { intros Hlt.
    pose proof (mean_strictly_between areas mn mx Hmin Hmax Hlt) as Hstrict.
    destruct Hmax as [Hmax_in _], Hmin as [Hmin_in _].
    destruct (Hin_data mx Hmax_in) as (zx & Hzx).
    destruct (Hin_data mn Hmin_in) as (zn & Hzn).
    split.
    - exists zx. apply remarks_of_in. exists mx. split; [exact Hzx|].
      symmetry. apply remark_of_spec; lra.
    - exists zn. apply remarks_of_in. exists mn. split; [exact Hzn|].
      symmetry. apply remark_of_spec; lra. }
  split; [split|].
  - intros Hall x y Hx Hy.
    destruct (Rlt_le_dec mn mx) as [Hlt|Hge].
    + destruct (Hextremes Hlt) as [(z & Hz) _].
      specialize (Hall z High Hz). discriminate.
    + destruct Hmax as [_ Hmax], Hmin as [_ Hmin].
      pose proof (Hmax x Hx). pose proof (Hmin x Hx).
      pose proof (Hmax y Hy). pose proof (Hmin y Hy). lra.
  - intros Hequal z r Hr. apply remarks_of_in in Hr.
    destruct Hr as (v & Hv & ->). apply Hdata_in in Hv.
    destruct Hmax as [Hmax_in Hmax], Hmin as [Hmin_in Hmin].
    rewrite (Hequal mx v Hmax_in Hv) in *.
    rewrite (Hequal mn v Hmin_in Hv) in *.
    apply remark_of_spec; lra.
  - intros (x & y & Hx & Hy & Hxy). apply Hextremes.
    destruct Hmax as [_ Hmax], Hmin as [_ Hmin].
    pose proof (Hmax x Hx). pose proof (Hmin x Hx).
    pose proof (Hmax y Hy). pose proof (Hmin y Hy).
    destruct (Rlt_le_dec mn mx) as [Hlt|Hge]; [exact Hlt|].
    exfalso. apply Hxy. lra.
Qed.

Lemma remarks_balanced_iff_uniform_witness :
  exists lob ulob llob,
    balance_lines (zone_data_of (repeat 100 16)) = Some (lob, ulob, llob)
    /\ forall z r,
         In (z, r) (remarks_of (zone_data_of (repeat 100 16)) ulob llob) ->
         r = Balanced.
Proof.
  destruct (balance_lines_spec (zone_data_of (repeat 100 16)))
    as (mx & mn & _ & _ & Hlines); [discriminate|].
  do 3 eexists. split; [exact Hlines|].
  apply (proj1 (remarks_balanced_iff_uniform _ _ _ _ Hlines)).
  intros x y Hx Hy.
  rewrite zone_data_values in Hx, Hy by reflexivity.
  apply repeat_spec in Hx, Hy. congruence.
Defined.

(** ** What the handlers keep true *)

Lemma startup_consistent : consistent startup.
Proof.
  constructor; cbn; intros; try discriminate; try congruence; try lra; auto.
Qed.

(** Consistency depends on the geometry, the closed flag, the zones
    flag and the scale only. *)
Lemma consistent_same_fields (st st' : Studio) :
  geometry st' = geometry st ->
  polygon_closed st' = polygon_closed st ->
  zones_drawn st' = zones_drawn st ->
  0 < display_scale st' ->
  consistent st -> consistent st'.
Proof.
  intros Hg Hpc Hz Hs Hc. destruct Hc.
  constructor; rewrite ?Hg, ?Hpc, ?Hz; assumption.
Qed.

Lemma render_canvas_consistent (st st' : Studio) (winfo_width winfo_height : Z) :
  consistent st ->
  _render_canvas st winfo_width winfo_height = Some st' ->
  consistent st'.
Proof.
  intros Hc Hr.
  assert (Hscale : 0 < display_scale st').
  { destruct (original_bgr (geometry st)) as [[img_h img_w]|] eqn:Himg.
    - destruct (image_not_empty st Hc _ _ Himg) as [Hh Hw].
      destruct (render_canvas_some st winfo_width winfo_height img_h img_w
                  Himg Hh Hw) as (st'' & Hr' & Hs).
      congruence.
    - unfold _render_canvas in Hr. rewrite Himg in Hr. injection Hr as <-.
      apply Hc. }
  destruct (render_canvas_frame _ _ _ _ Hr) as (Hg & Hpc & Hz & _).
  apply (consistent_same_fields st); assumption.
Qed.

(** In a consistent window the size computation of [_render_canvas]
    divides by no zero. *)
Lemma render_canvas_total (st : Studio) (winfo_width winfo_height : Z) :
  consistent st -> _render_canvas st winfo_width winfo_height <> None.
Proof.
  intros Hc.
  destruct (original_bgr (geometry st)) as [[img_h img_w]|] eqn:Himg.
  - destruct (image_not_empty st Hc _ _ Himg) as [Hh Hw].
    destruct (render_canvas_some st winfo_width winfo_height img_h img_w
                Himg Hh Hw) as (st' & Hr & _).
    congruence.
  - unfold _render_canvas. rewrite Himg. discriminate.
Qed.

Lemma clear_geometry_only_consistent (st : Studio) :
  0 < display_scale st ->
  (forall img_h img_w,
     original_bgr (geometry st) = Some (img_h, img_w) ->
     (0 < img_h)%nat /\ (0 < img_w)%nat) ->
  consistent (clear_geometry_only st).
Proof.
  intros Hs Himg.
  constructor; cbn [clear_geometry_only geometry polygon_closed zones_drawn
                    display_scale center_point boundary_points
                    barchart_boundary_points barchart_polygon_closed
                    zone_areas_cache original_bgr];
    intros; try discriminate; try congruence; auto.
Qed.

Lemma upload_image_consistent (st st' : Studio) (winfo_width winfo_height : Z)
  (img_h img_w : nat) :
  (0 < img_h)%nat -> (0 < img_w)%nat ->
  consistent st ->
  upload_image st winfo_width winfo_height (Some (img_h, img_w)) = Some st' ->
  consistent st'.
Proof.
  intros Hh Hw Hc. unfold upload_image.
  apply render_canvas_consistent. apply clear_geometry_only_consistent.
  - apply Hc.
  - cbn [set_geometry geometry set_original_bgr original_bgr].
    intros h w Heq. injection Heq as <- <-. split; assumption.
Qed.

Lemma remove_image_consistent (st : Studio) :
  consistent st -> consistent (remove_image st).
Proof.
  intros Hc. unfold remove_image. apply clear_geometry_only_consistent.
  - apply Hc.
  - cbn [set_geometry geometry set_original_bgr original_bgr]. discriminate.
Qed.

Lemma clear_markings_consistent (st st' : Studio)
  (winfo_width winfo_height : Z) :
  consistent st ->
  clear_markings st winfo_width winfo_height = Some st' ->
  consistent st'.
Proof.
  intros Hc. unfold clear_markings.
  destruct (original_bgr (geometry st)) eqn:Himg;
    [|intros H; injection H as <-; exact Hc].
  apply render_canvas_consistent. apply clear_geometry_only_consistent;
    apply Hc.
Qed.

Lemma on_canvas_click_consistent (st st' : Studio)
  (winfo_width winfo_height event_x event_y : Z) :
  consistent st ->
  _on_canvas_click st winfo_width winfo_height event_x event_y = Some st' ->
  consistent st'.
Proof.
  intros Hc. unfold _on_canvas_click.
  destruct (original_bgr (geometry st)) as [shape|] eqn:Himg;
    [|intros H; injection H as <-; exact Hc].
  destruct (negb _); [intros H; injection H as <-; exact Hc|].
  destruct (String.eqb (active_boundary_target st) "center").
  - destruct (polygon_closed st) eqn:Hclosed;
      [intros H; injection H as <-; exact Hc|].
    destruct (_canvas_to_image st (IZR event_x) (IZR event_y)) as [[p|]|];
      cbn [bind]; [|intros H; injection H as <-; exact Hc|discriminate].
    apply render_canvas_consistent. destruct Hc.
    constructor;
      cbn [set_geometry geometry polygon_closed zones_drawn display_scale
           set_boundary_points center_point boundary_points
           barchart_boundary_points barchart_polygon_closed zone_areas_cache
           original_bgr];
      try assumption; intros; congruence.
  - destruct (barchart_polygon_closed (geometry st)) eqn:Hclosed;
      [intros H; injection H as <-; exact Hc|].
    destruct (_canvas_to_image st (IZR event_x) (IZR event_y)) as [[p|]|];
      cbn [bind]; [|intros H; injection H as <-; exact Hc|discriminate].
    apply render_canvas_consistent. destruct Hc.
    constructor;
      cbn [set_geometry geometry polygon_closed zones_drawn display_scale
           set_barchart_boundary_points center_point boundary_points
           barchart_boundary_points barchart_polygon_closed zone_areas_cache
           original_bgr];
      try assumption; intros; congruence.
Qed.

Lemma on_canvas_motion_consistent (st st' : Studio) (event_x event_y : Z) :
  consistent st ->
  _on_canvas_motion st event_x event_y = Some st' ->
  consistent st'.
Proof.
  intros Hc. unfold _on_canvas_motion.
  destruct (original_bgr (geometry st));
    [|intros H; injection H as <-; exact Hc].
  destruct (_ && _); [intros H; injection H as <-; exact Hc|].
  destruct (_ && _); [intros H; injection H as <-; exact Hc|].
  destruct (if String.eqb _ _ then _ else _);
    [intros H; injection H as <-; exact Hc|].
  destruct (_canvas_to_image st (IZR event_x) (IZR event_y)) as [hit|];
    cbn [bind]; [|discriminate].
  intros H. injection H as <-.
  apply (consistent_same_fields st); try reflexivity; [apply Hc|exact Hc].
Qed.

Lemma on_canvas_leave_consistent (st : Studio) :
  consistent st -> consistent (_on_canvas_leave st).
Proof.
  intros Hc. unfold _on_canvas_leave.
  destruct (cursor_img_point st); [|exact Hc].
  apply (consistent_same_fields st); try reflexivity; [apply Hc|exact Hc].
Qed.

Lemma auto_detect_boundary_consistent (st st' : Studio)
  (winfo_width winfo_height : Z) (found : contours) (dialog : detect_dialog) :
  consistent st ->
  auto_detect_boundary st winfo_width winfo_height found = Some (st', dialog) ->
  consistent st'.
Proof.
  intros Hc. unfold auto_detect_boundary.
  destruct (original_bgr (geometry st)) as [shape|] eqn:Himg;
    [|intros H; injection H as <- _; exact Hc].
  destruct found as [| |contour_pts]; try (intros H; injection H as <- _; exact Hc).
  destruct (length contour_pts <? 3)%nat; [intros H; injection H as <- _; exact Hc|].
  destruct (_render_canvas _ winfo_width winfo_height) as [st1|] eqn:Hr;
    cbn [bind]; [|discriminate].
  intros H. injection H as <- _.
  apply render_canvas_consistent in Hr; [exact Hr|].
  destruct Hc.
  destruct (String.eqb (active_boundary_target st) "center");
    constructor;
    cbn [set_cursor_img_point set_zones_drawn set_polygon_closed set_geometry
         set_center_point set_boundary_points detect_barchart_boundary
         geometry polygon_closed zones_drawn display_scale
         center_point boundary_points barchart_boundary_points
         barchart_polygon_closed zone_areas_cache original_bgr];
    try assumption; intros; try discriminate; congruence.
Qed.

Lemma ask_north_tilt_consistent (st : Studio) (answer : option R) :
  consistent st -> consistent (_ask_north_tilt st answer).
Proof.
  intros Hc. destruct answer as [angle|]; [|exact Hc].
  destruct Hc. constructor;
    cbn [_ask_north_tilt set_geometry set_north_tilt_deg geometry
         polygon_closed zones_drawn display_scale center_point
         boundary_points barchart_boundary_points barchart_polygon_closed
         zone_areas_cache original_bgr];
    assumption.
Qed.

Lemma mark_center_consistent (st st' : Studio) (winfo_width winfo_height : Z)
  (answer : option R) (dialog : mark_center_dialog) :
  consistent st ->
  mark_center st winfo_width winfo_height answer = Some (st', dialog) ->
  consistent st'.
Proof.
  intros Hc. unfold mark_center.
  destruct (original_bgr (geometry st)) as [shape|] eqn:Himg;
    [|intros H; injection H as <- _; exact Hc].
  destruct (length (boundary_points (geometry st)) <? 3)%nat eqn:Hlen;
    [intros H; injection H as <- _; exact Hc|].
  apply Nat.ltb_ge in Hlen.
  cbn [set_polygon_closed geometry].
  destruct (_polygon_centroid (boundary_points (geometry st))) as [c|].
  - destruct (_render_canvas _ winfo_width winfo_height) as [st1|] eqn:Hr;
      cbn [bind]; [|discriminate].
    intros H. injection H as <- _.
    apply ask_north_tilt_consistent.
    apply render_canvas_consistent in Hr; [exact Hr|].
    destruct Hc. constructor;
      cbn [set_geometry set_center_point set_polygon_closed geometry
           polygon_closed zones_drawn display_scale center_point
           boundary_points barchart_boundary_points barchart_polygon_closed
           zone_areas_cache original_bgr];
      try assumption; intros;
      first [assumption | discriminate | reflexivity | congruence].
  - intros H. injection H as <- _.
    destruct Hc. constructor;
      cbn [set_polygon_closed geometry polygon_closed zones_drawn
           display_scale];
      try assumption; intros; first [assumption | discriminate | congruence].
Qed.

Lemma set_north_tilt_consistent (st st' : Studio)
  (winfo_width winfo_height : Z) (answer : option R) :
  consistent st ->
  set_north_tilt st winfo_width winfo_height answer = Some st' ->
  consistent st'.
Proof.
  intros Hc. unfold set_north_tilt.
  pose proof (ask_north_tilt_consistent st answer Hc) as Hc'.
  destruct (_ || _).
  - apply render_canvas_consistent. exact Hc'.
  - intros H. injection H as <-. exact Hc'.
Qed.

Lemma mark_cardinal_lines_consistent (st st' : Studio)
  (winfo_width winfo_height : Z) (dialog : mark_lines_dialog) :
  consistent st ->
  mark_cardinal_lines st winfo_width winfo_height = Some (st', dialog) ->
  consistent st'.
Proof.
  intros Hc. unfold mark_cardinal_lines.
  destruct (is_none _); [intros H; injection H as <- _; exact Hc|].
  destruct (_ <? _)%nat; [intros H; injection H as <- _; exact Hc|].
  destruct (_render_canvas _ winfo_width winfo_height) as [st1|] eqn:Hr;
    cbn [bind]; [|discriminate].
  intros H. injection H as <- _.
  apply render_canvas_consistent in Hr; [exact Hr|].
  apply (consistent_same_fields st); try reflexivity; [apply Hc|exact Hc].
Qed.

Lemma mark_16_zones_consistent (st st' : Studio)
  (winfo_width winfo_height : Z) (dialog : mark_lines_dialog) :
  consistent st ->
  mark_16_zones st winfo_width winfo_height = Some (st', dialog) ->
  consistent st'.
Proof.
  intros Hc. unfold mark_16_zones.
  destruct (center_point (geometry st)) as [c|] eqn:Hcenter; cbn [is_none];
    [|intros H; injection H as <- _; exact Hc].
  destruct (_ <? _)%nat; [intros H; injection H as <- _; exact Hc|].
  destruct (_render_canvas _ winfo_width winfo_height) as [st1|] eqn:Hr;
    cbn [bind]; [|discriminate].
  intros H. injection H as <- _.
  apply render_canvas_consistent in Hr; [exact Hr|].
  destruct Hc. constructor;
    cbn [set_zones_drawn geometry polygon_closed zones_drawn display_scale];
    try assumption; intros; first [assumption | discriminate | congruence].
Qed.

(** A change of the geometry that keeps the image, the two boundaries
    and the center. *)
Lemma set_geometry_consistent (st : Studio) (g : PlotAnalyzerApp) :
  consistent st ->
  original_bgr g = original_bgr (geometry st) ->
  boundary_points g = boundary_points (geometry st) ->
  barchart_boundary_points g = barchart_boundary_points (geometry st) ->
  center_point g = center_point (geometry st) ->
  (forall cached, zone_areas_cache g = Some cached -> length cached = 16%nat) ->
  (barchart_polygon_closed g = true ->
   (3 <= length (barchart_boundary_points g))%nat) ->
  consistent (set_geometry st g).
Proof.
  intros Hc Himg Hb Hbar Hcenter Hcache Hclosed. destruct Hc.
  constructor; cbn [set_geometry geometry polygon_closed zones_drawn
                    display_scale];
    rewrite ?Himg, ?Hb, ?Hcenter; try assumption.
  rewrite Hbar. assumption.
Qed.

Section EngineEffects.

Variable fillPoly_paints : list (Z * Z) -> Z -> Z -> bool.
Variable fillConvexPoly_paints : list (Z * Z) -> Z -> Z -> bool.

Local Abbreviation compute :=
  (_compute_zone_areas_mask_based fillPoly_paints fillConvexPoly_paints).

Lemma compute_zone_areas_length (g : PlotAnalyzerApp)
  (polygon_points : list point) (zone_areas : list R) :
  compute g polygon_points = Some zone_areas -> length zone_areas = 16%nat.
Proof.
  unfold compute, _compute_zone_areas_mask_based.
  destruct (original_bgr g) as [[img_h img_w]|]; cbn [bind]; [|discriminate].
  destruct (center_point g) as [[cx cy]|]; cbn [bind]; [|discriminate].
  intros H. injection H as <-. reflexivity.
Qed.

(** What [calculate_zone_areas] leaves behind. *)
Lemma calculate_zone_areas_effect (g g' : PlotAnalyzerApp)
  (dialog : zone_dialog) :
  calculate_zone_areas fillPoly_paints fillConvexPoly_paints g
  = Some (g', dialog) ->
  (dialog = WarnBoundaryAndCenter /\ g' = g)
  \/ exists zone_areas total_area,
       dialog = ShowZoneAreas total_area (Py.sum zone_areas)
                  (combine ZONE_NAMES zone_areas)
       /\ compute g (barchart_points g) = Some zone_areas
       /\ original_bgr g' = original_bgr g
       /\ boundary_points g' = boundary_points g
       /\ barchart_boundary_points g' = barchart_boundary_points g
       /\ center_point g' = center_point g
       /\ north_tilt_deg g' = north_tilt_deg g
       /\ zone_areas_cache g' = Some zone_areas
       /\ barchart_polygon_closed g'
          = uses_barchart_boundary g || barchart_polygon_closed g.
Proof.
  unfold calculate_zone_areas.
  destruct (_ || _); [intros H; injection H as <- <-; left; auto|].
  destruct (compute g (barchart_points g)) as [zone_areas|] eqn:Hz;
    cbn [bind]; [|discriminate].
  destruct (_polygon_area (barchart_points g)) as [total_area|];
    cbn [bind]; [|discriminate].
  intros H. injection H as <- <-. right. exists zone_areas, total_area.
  split; [reflexivity|]. split; [reflexivity|].
  change (uses_barchart_boundary (set_zone_areas_cache g (Some zone_areas)))
    with (uses_barchart_boundary g).
  destruct (uses_barchart_boundary g); repeat split.
Qed.

(** What the choice of the zone areas in [export_pdf_report] leaves
    behind. *)
Lemma export_zone_areas_effect (g g' : PlotAnalyzerApp) (zone_areas : list R) :
  export_zone_areas fillPoly_paints fillConvexPoly_paints g
  = Some (g', zone_areas) ->
  length zone_areas = 16%nat
  /\ (zone_areas_cache g = Some zone_areas
      \/ compute g (barchart_points g) = Some zone_areas)
  /\ original_bgr g' = original_bgr g
  /\ boundary_points g' = boundary_points g
  /\ barchart_boundary_points g' = barchart_boundary_points g
  /\ center_point g' = center_point g
  /\ north_tilt_deg g' = north_tilt_deg g
  /\ zone_areas_cache g' = Some zone_areas
  /\ barchart_polygon_closed g'
     = uses_barchart_boundary g || barchart_polygon_closed g.
Proof.
  unfold export_zone_areas.
  destruct (zone_areas_cache g) as [cached|] eqn:Hcache.
  - destruct (length cached =? 16)%nat eqn:Hlen; cbn [negb].
    + cbn [bind]. apply Nat.eqb_eq in Hlen.
      intros H. injection H as <- <-.
      split; [exact Hlen|]. split; [left; reflexivity|].
      destruct (uses_barchart_boundary g); repeat split; auto.
    + destruct (compute g (barchart_points g)) as [fresh|] eqn:Hz;
        cbn [bind]; [|discriminate].
      change (uses_barchart_boundary (set_zone_areas_cache g (Some fresh)))
        with (uses_barchart_boundary g).
      intros H. injection H as <- <-.
      split; [exact (compute_zone_areas_length _ _ _ Hz)|].
      split; [right; reflexivity|].
      destruct (uses_barchart_boundary g); repeat split.
  - destruct (compute g (barchart_points g)) as [fresh|] eqn:Hz;
      cbn [bind]; [|discriminate].
    change (uses_barchart_boundary (set_zone_areas_cache g (Some fresh)))
      with (uses_barchart_boundary g).
    intros H. injection H as <- <-.
    split; [exact (compute_zone_areas_length _ _ _ Hz)|].
    split; [right; reflexivity|].
    destruct (uses_barchart_boundary g); repeat split.
Qed.

(** The state [export_pdf_report] returns is the one it started from or
    the one [export_zone_areas] made. *)
Lemma export_pdf_report_state (g g' : PlotAnalyzerApp)
  (outcome : export_outcome) :
  export_pdf_report fillPoly_paints fillConvexPoly_paints g
  = Some (g', outcome) ->
  g' = g
  \/ exists zone_areas,
       export_zone_areas fillPoly_paints fillConvexPoly_paints g
       = Some (g', zone_areas).
Proof.
  unfold export_pdf_report.
  destruct (negb _); [intros H; injection H as <- _; left; reflexivity|].
  destruct (export_zone_areas _ _ g) as [[g1 zone_areas]|];
    cbn [bind]; [|discriminate].
  destruct (balance_lines _) as [[[lob ulob] llob]|]; cbn [bind];
    [|discriminate].
  destruct (aggregate_prakriti _) as [[|pr]|]; cbn [bind]; [| |discriminate];
    intros H; injection H as <- _; right; exists zone_areas; reflexivity.
Qed.

Lemma uses_barchart_three (g : PlotAnalyzerApp) :
  uses_barchart_boundary g = true ->
  (3 <= length (barchart_boundary_points g))%nat.
Proof. unfold uses_barchart_boundary. apply Nat.leb_le. Qed.

Lemma window_calculate_zone_areas_consistent (st st' : Studio)
  (winfo_width winfo_height : Z) (dialog : zone_dialog) :
  consistent st ->
  Window.calculate_zone_areas fillPoly_paints fillConvexPoly_paints st
    winfo_width winfo_height = Some (st', dialog) ->
  consistent st'.
Proof.
  intros Hc. unfold Window.calculate_zone_areas.
  destruct (calculate_zone_areas _ _ (geometry st)) as [[g d]|] eqn:Hcalc;
    cbn [bind]; [|discriminate].
  destruct (calculate_zone_areas_effect _ _ _ Hcalc)
    as [[-> ->] | (zone_areas & total_area & -> & Hz & Himg & Hb & Hbar
                   & Hcenter & _ & Hcache & Hclosed)].
  - intros H. injection H as <- _. exact Hc.
  - assert (Hc' : consistent (set_geometry st g)).
    { apply set_geometry_consistent; try assumption.
      - intros cached Heq. rewrite Hcache in Heq. injection Heq as <-.
        exact (compute_zone_areas_length _ _ _ Hz).
      - rewrite Hclosed, Hbar. intros Htrue.
        apply orb_true_iff in Htrue. destruct Htrue as [Huses|Hold].
        + apply uses_barchart_three, Huses.
        + apply Hc, Hold. }
    destruct (uses_barchart_boundary g).
    + destruct (_render_canvas _ winfo_width winfo_height) as [st1|] eqn:Hr;
        cbn [bind]; [|discriminate].
      intros H. injection H as <- _.
      exact (render_canvas_consistent _ _ _ _ Hc' Hr).
    + intros H. injection H as <- _. exact Hc'.
Qed.

Lemma window_export_pdf_report_consistent (st st' : Studio)
  (outcome : export_outcome) :
  consistent st ->
  Window.export_pdf_report fillPoly_paints fillConvexPoly_paints st
  = Some (st', outcome) ->
  consistent st'.
Proof.
  intros Hc. unfold Window.export_pdf_report.
  destruct (export_pdf_report _ _ (geometry st)) as [[g o]|] eqn:Hexp;
    cbn [bind]; [|discriminate].
  intros H. injection H as <- _.
  destruct (export_pdf_report_state _ _ _ Hexp) as [-> | (zone_areas & Hz)].
  - apply (consistent_same_fields st); try reflexivity; [apply Hc|exact Hc].
  - destruct (export_zone_areas_effect _ _ _ Hz)
      as (Hlen & _ & Himg & Hb & Hbar & Hcenter & _ & Hcache & Hclosed).
    apply set_geometry_consistent; try assumption.
    + intros cached Heq. rewrite Hcache in Heq. injection Heq as <-.
      exact Hlen.
    + rewrite Hclosed, Hbar. intros Htrue.
      apply orb_true_iff in Htrue. destruct Htrue as [Huses|Hold].
      * apply uses_barchart_three, Huses.
      * apply Hc, Hold.
Qed.

(** Every handler keeps the window consistent. *)
Lemma step_consistent (st st' : Studio) :
  consistent st ->
  Window.step fillPoly_paints fillConvexPoly_paints st st' ->
  consistent st'.
Proof.
  intros Hc Hstep. destruct Hstep.
  - match goal with
    | Hup : upload_image _ _ _ _ = _ |- _ =>
        eapply upload_image_consistent; [| |exact Hc|exact Hup]; assumption
    end.
  - apply remove_image_consistent, Hc.
  - eapply clear_markings_consistent; eauto.
  - unfold _on_canvas_resize in H.
    destruct (original_bgr (geometry st));
      [eapply render_canvas_consistent; eauto|].
    injection H as <-. exact Hc.
  - unfold _on_boundary_mode_change in H0.
    eapply render_canvas_consistent; [|exact H0].
    apply (consistent_same_fields st); try reflexivity; [apply Hc|exact Hc].
  - unfold set_center_boundary_target in H.
    eapply render_canvas_consistent; [|exact H].
    apply (consistent_same_fields st); try reflexivity; [apply Hc|exact Hc].
  - unfold set_barchart_boundary_target in H.
    eapply render_canvas_consistent; [|exact H].
    apply (consistent_same_fields st); try reflexivity; [apply Hc|exact Hc].
  - eapply on_canvas_click_consistent; eauto.
  - eapply on_canvas_motion_consistent; eauto.
  - apply on_canvas_leave_consistent, Hc.
  - eapply auto_detect_boundary_consistent; eauto.
  - eapply mark_center_consistent; eauto.
  - eapply set_north_tilt_consistent; eauto.
  - eapply mark_cardinal_lines_consistent; eauto.
  - eapply mark_16_zones_consistent; eauto.
  - eapply window_calculate_zone_areas_consistent; eauto.
  - eapply window_export_pdf_report_consistent; eauto.
Qed.

Lemma reachable_consistent (st : Studio) :
  Window.reachable fillPoly_paints fillConvexPoly_paints st -> consistent st.
Proof.
  induction 1 as [|st st' _ IH Hstep].
  - exact startup_consistent.
  - exact (step_consistent _ _ IH Hstep).
Qed.

End EngineEffects.

(** ** No handler raises *)

(** Nor does it on a window that shows the image of a consistent
    one. *)
Lemma render_canvas_same_image (st st0 : Studio)
  (winfo_width winfo_height : Z) :
  consistent st ->
  original_bgr (geometry st0) = original_bgr (geometry st) ->
  _render_canvas st0 winfo_width winfo_height <> None.
Proof.
  intros Hc Himg.
  destruct (original_bgr (geometry st0)) as [[img_h img_w]|] eqn:Himg0.
  - symmetry in Himg. destruct (image_not_empty st Hc _ _ Himg) as [Hh Hw].
    destruct (render_canvas_some st0 winfo_width winfo_height img_h img_w
                Himg0 Hh Hw) as (st' & Hr & _).
    congruence.
  - unfold _render_canvas. rewrite Himg0. discriminate.
Qed.

Lemma on_canvas_click_total (st : Studio)
  (winfo_width winfo_height event_x event_y : Z) :
  consistent st ->
  _on_canvas_click st winfo_width winfo_height event_x event_y <> None.
Proof.
  intros Hc. unfold _on_canvas_click.
  destruct (original_bgr (geometry st)) eqn:Himg; [|discriminate].
  destruct (negb _); [discriminate|].
  assert (Hs : display_scale st <> 0)
    by (pose proof (scale_positive st Hc); lra).
  pose proof (canvas_to_image_total st (IZR event_x) (IZR event_y) Hs) as Hp.
  destruct (if String.eqb _ _ then polygon_closed st else _); [discriminate|].
  destruct (_canvas_to_image st (IZR event_x) (IZR event_y)) as [[hit|]|];
    cbn [bind]; [|discriminate|congruence].
  apply (render_canvas_same_image st); [exact Hc|].
  destruct (String.eqb _ _); reflexivity.
Qed.

Lemma on_canvas_motion_total (st : Studio) (event_x event_y : Z) :
  consistent st -> _on_canvas_motion st event_x event_y <> None.
Proof.
  intros Hc. unfold _on_canvas_motion.
  destruct (original_bgr (geometry st)); [|discriminate].
  destruct (_ && _); [discriminate|].
  destruct (_ && _); [discriminate|].
  destruct (if String.eqb _ _ then _ else _); [discriminate|].
  assert (Hs : display_scale st <> 0)
    by (pose proof (scale_positive st Hc); lra).
  pose proof (canvas_to_image_total st (IZR event_x) (IZR event_y) Hs) as Hp.
  destruct (_canvas_to_image st (IZR event_x) (IZR event_y));
    cbn [bind]; [discriminate|congruence].
Qed.

Lemma auto_detect_boundary_total (st : Studio)
  (winfo_width winfo_height : Z) (found : contours) :
  consistent st ->
  auto_detect_boundary st winfo_width winfo_height found <> None.
Proof.
  intros Hc. unfold auto_detect_boundary.
  destruct (original_bgr (geometry st)) eqn:Himg; [|discriminate].
  destruct found as [| |contour_pts]; try discriminate.
  destruct (_ <? _)%nat; [discriminate|].
  destruct (_render_canvas _ winfo_width winfo_height) eqn:Hr;
    cbn [bind]; [discriminate|].
  exfalso. revert Hr. apply (render_canvas_same_image st); [exact Hc|].
  destruct (String.eqb _ _); reflexivity.
Qed.

Lemma mark_center_total (st : Studio) (winfo_width winfo_height : Z)
  (answer : option R) :
  consistent st -> mark_center st winfo_width winfo_height answer <> None.
Proof.
  intros Hc. unfold mark_center.
  destruct (original_bgr (geometry st)) eqn:Himg; [|discriminate].
  destruct (_ <? _)%nat; [discriminate|].
  destruct (_polygon_centroid _); [|discriminate].
  destruct (_render_canvas _ winfo_width winfo_height) eqn:Hr;
    cbn [bind]; [discriminate|].
  exfalso. revert Hr. apply (render_canvas_same_image st); [exact Hc|].
  reflexivity.
Qed.

Lemma set_north_tilt_total (st : Studio) (winfo_width winfo_height : Z)
  (answer : option R) :
  consistent st -> set_north_tilt st winfo_width winfo_height answer <> None.
Proof.
  intros Hc. unfold set_north_tilt.
  destruct (_ || _); [|discriminate].
  apply render_canvas_total, ask_north_tilt_consistent, Hc.
Qed.

Lemma mark_cardinal_lines_total (st : Studio) (winfo_width winfo_height : Z) :
  consistent st -> mark_cardinal_lines st winfo_width winfo_height <> None.
Proof.
  intros Hc. unfold mark_cardinal_lines.
  destruct (is_none _); [discriminate|].
  destruct (_ <? _)%nat; [discriminate|].
  destruct (_render_canvas _ winfo_width winfo_height) eqn:Hr;
    cbn [bind]; [discriminate|].
  exfalso. revert Hr. apply (render_canvas_same_image st); [exact Hc|].
  reflexivity.
Qed.

Lemma mark_16_zones_total (st : Studio) (winfo_width winfo_height : Z) :
  consistent st -> mark_16_zones st winfo_width winfo_height <> None.
Proof.
  intros Hc. unfold mark_16_zones.
  destruct (is_none _); [discriminate|].
  destruct (_ <? _)%nat; [discriminate|].
  destruct (_render_canvas _ winfo_width winfo_height) eqn:Hr;
    cbn [bind]; [discriminate|].
  exfalso. revert Hr. apply (render_canvas_same_image st); [exact Hc|].
  reflexivity.
Qed.

(** A boundary of at least 3 points has an area. *)
Lemma polygon_area_total (points : list point) :
  (3 <= length points)%nat -> _polygon_area points <> None.
Proof.
  destruct points; [simpl; lia|]. discriminate.
Qed.

(** On sixteen areas the balance lines and the prakriti groups are
    computed without a [ValueError] or a [KeyError]. *)
Lemma report_values_total (zone_areas : list R) :
  length zone_areas = 16%nat ->
  balance_lines (zone_data_of zone_areas) <> None
  /\ aggregate_prakriti (zone_data_of zone_areas) <> None.
Proof.
  intros Hlen. split.
  - destruct (balance_lines_spec (zone_data_of zone_areas))
      as (mx & mn & _ & _ & Hl);
      [destruct zone_areas; [discriminate Hlen|discriminate]|].
    rewrite Hl. discriminate.
  - do 17 (destruct zone_areas as [|? zone_areas]; try discriminate Hlen).
    unfold aggregate_prakriti. rewrite prakriti_strength_sums. cbn [bind].
    destruct (float_le _ 0); discriminate.
Qed.

(** A window reached from [startup]: a 2 x 2 image was uploaded on a
    canvas of 800 x 600. *)
Lemma upload_reachable :
  exists st',
    upload_image startup 800 600 (Some (2%nat, 2%nat)) = Some st'
    /\ forall fillPoly_paints fillConvexPoly_paints,
         Window.reachable fillPoly_paints fillConvexPoly_paints st'.
Proof.
  destruct (render_canvas_some
              (clear_geometry_only
                 (set_geometry startup
                    (set_original_bgr (geometry startup) (Some (2%nat, 2%nat)))))
              800 600 2 2 eq_refl (Nat.lt_0_succ 1) (Nat.lt_0_succ 1))
    as (st' & Hr & _).
  exists st'. split; [exact Hr|].
  intros fillPoly_paints fillConvexPoly_paints.
  apply (Window.reachable_step _ _ startup st' (Window.reachable_startup _ _)).
  exact (Window.step_upload_image _ _ startup 800 600 2 2 st'
           (Nat.lt_0_succ 1) (Nat.lt_0_succ 1) Hr).
Qed.

Section Reachable.

Variable fillPoly_paints : list (Z * Z) -> Z -> Z -> bool.
Variable fillConvexPoly_paints : list (Z * Z) -> Z -> Z -> bool.

Local Abbreviation reachable :=
  (Window.reachable fillPoly_paints fillConvexPoly_paints).

Lemma calculate_zone_areas_total (st : Studio) :
  consistent st ->
  calculate_zone_areas fillPoly_paints fillConvexPoly_paints (geometry st)
  <> None.
Proof.
  intros Hc. unfold calculate_zone_areas.
  destruct (length (barchart_points (geometry st)) <? 3)%nat eqn:Hlen;
    cbn [orb]; [discriminate|].
  apply Nat.ltb_ge in Hlen.
  destruct (center_point (geometry st)) as [c|] eqn:Hcenter; cbn [is_none];
    [|discriminate].
  destruct (original_bgr (geometry st)) as [shape|] eqn:Himg.
  - destruct (compute_zone_areas_total fillPoly_paints fillConvexPoly_paints
                (geometry st) (barchart_points (geometry st)) shape c
                Himg Hcenter) as (zone_areas & Hz & _).
    rewrite Hz. cbn [bind].
    pose proof (polygon_area_total _ Hlen) as Harea.
    destruct (_polygon_area _); cbn [bind]; [discriminate|congruence].
  - exfalso. destruct (no_image_no_points st Hc Himg) as [Hb Hbar].
    unfold barchart_points in Hlen. rewrite Hb, Hbar in Hlen.
    destruct (uses_barchart_boundary _); simpl in Hlen; lia.
Qed.

Lemma window_calculate_zone_areas_total (st : Studio)
  (winfo_width winfo_height : Z) :
  consistent st ->
  Window.calculate_zone_areas fillPoly_paints fillConvexPoly_paints st
    winfo_width winfo_height <> None.
Proof.
  intros Hc. unfold Window.calculate_zone_areas.
  pose proof (calculate_zone_areas_total st Hc) as Hcalc.
  destruct (calculate_zone_areas _ _ (geometry st)) as [[g d]|] eqn:Heq;
    [|congruence].
  cbn [bind].
  destruct (calculate_zone_areas_effect _ _ _ _ _ Heq)
    as [[-> ->] | (zone_areas & total_area & -> & _ & Himg & _)];
    [discriminate|].
  destruct (uses_barchart_boundary g); [|discriminate].
  pose proof (render_canvas_same_image st (set_geometry st g) winfo_width
                winfo_height Hc Himg) as Hr.
  destruct (_render_canvas _ winfo_width winfo_height); cbn [bind];
    [discriminate|congruence].
Qed.

(** With the guard of [export_pdf_report] passed, a consistent window
    has an image and a center. *)
Lemma export_guard_image_center (st : Studio) :
  consistent st ->
  export_guard (geometry st) = true ->
  exists shape c,
    original_bgr (geometry st) = Some shape
    /\ center_point (geometry st) = Some c.
Proof.
  intros Hc. unfold export_guard. intros Hguard.
  apply negb_true_iff, orb_false_iff in Hguard. destruct Hguard as [Hlen Hcenter].
  apply Nat.ltb_ge in Hlen.
  destruct (center_point (geometry st)) as [c|]; [|discriminate].
  destruct (original_bgr (geometry st)) as [shape|] eqn:Himg.
  - exists shape, c. split; reflexivity.
  - exfalso. destruct (no_image_no_points st Hc Himg) as [Hb _].
    rewrite Hb in Hlen. simpl in Hlen. lia.
Qed.

Lemma window_export_pdf_report_total (st : Studio) :
  consistent st ->
  Window.export_pdf_report fillPoly_paints fillConvexPoly_paints st <> None.
Proof.
  intros Hc. unfold Window.export_pdf_report.
  assert (Hexp : export_pdf_report fillPoly_paints fillConvexPoly_paints
                   (geometry st) <> None).
  { unfold export_pdf_report.
    destruct (export_guard (geometry st)) eqn:Hguard; cbn [negb];
      [|discriminate].
    destruct (export_guard_image_center st Hc Hguard)
      as (shape & c & Himg & Hcenter).
    destruct (export_zone_areas_source fillPoly_paints fillConvexPoly_paints
                (geometry st) shape c Himg Hcenter)
      as (g' & zone_areas & Hz & _).
    rewrite Hz. cbn [bind].
    destruct (export_zone_areas_effect _ _ _ _ _ Hz) as (Hlen & _).
    destruct (report_values_total zone_areas Hlen) as [Hlines Hpr].
    destruct (balance_lines _) as [[[lob ulob] llob]|]; [|congruence].
    cbn [bind].
    destruct (aggregate_prakriti _) as [[|pr]|]; [| |congruence];
      discriminate. }
  destruct (export_pdf_report _ _ (geometry st)) as [[g o]|]; [|congruence].
  discriminate.
Qed.

(** X14.  In every window reached from the start by the handlers: a
    center is set only with an image loaded, the center polygon closed
    and at least 3 center-boundary points; the zones are drawn only
    with a center set; cached zone areas always have 16 entries; without
    an image there are no boundary points; a closed barchart polygon has
    at least 3 points; the image is not empty and the display scale is
    positive. *)
Theorem reachable_window_invariant (st : Studio) :
  reachable st ->
  (center_point (geometry st) <> None ->
   original_bgr (geometry st) <> None
   /\ polygon_closed st = true
   /\ (3 <= length (boundary_points (geometry st)))%nat)
  /\ (zones_drawn st = true -> center_point (geometry st) <> None)
  /\ (forall cached,
        zone_areas_cache (geometry st) = Some cached ->
        length cached = 16%nat)
  /\ (original_bgr (geometry st) = None ->
      boundary_points (geometry st) = []
      /\ barchart_boundary_points (geometry st) = [])
  /\ (barchart_polygon_closed (geometry st) = true ->
      (3 <= length (barchart_boundary_points (geometry st)))%nat)
  /\ (forall img_h img_w,
        original_bgr (geometry st) = Some (img_h, img_w) ->
        (0 < img_h)%nat /\ (0 < img_w)%nat)
  /\ 0 < display_scale st.
Proof.
  intros Hreach.
  pose proof (reachable_consistent _ _ st Hreach) as Hc.
  split.
  { intros Hcenter.
    pose proof (center_closed st Hc Hcenter) as Hclosed.
    pose proof (closed_three st Hc Hclosed) as Hlen.
    split; [|split; assumption].
    intros Himg. destruct (no_image_no_points st Hc Himg) as [Hb _].
    rewrite Hb in Hlen. simpl in Hlen. lia. }
  split; [apply Hc|]. split; [apply Hc|]. split; [apply Hc|].
  split; [apply Hc|]. split; apply Hc.
Qed.

(** X15.  In every window reached from the start no handler raises one
    of the modelled exceptions, whatever the canvas size, the click
    position, the dialog answer or the detected contour: no division by
    a zero scale or image size in the coordinate conversions, no missing
    image or center in the mask engine, no empty array in
    [_polygon_area], no empty [max]/[min] and no missing zone key in the
    report values. *)
Theorem reachable_no_exception (st : Studio) :
  reachable st ->
  (forall w h img_h img_w,
     (0 < img_h)%nat -> (0 < img_w)%nat ->
     upload_image st w h (Some (img_h, img_w)) <> None)
  /\ (forall w h, clear_markings st w h <> None)
  /\ (forall w h, _on_canvas_resize st w h <> None)
  /\ (forall mode w h,
        _on_boundary_mode_change (set_boundary_mode st mode) w h <> None)
  /\ (forall w h, set_center_boundary_target st w h <> None)
  /\ (forall w h, set_barchart_boundary_target st w h <> None)
  /\ (forall w h event_x event_y,
        _on_canvas_click st w h event_x event_y <> None)
  /\ (forall event_x event_y, _on_canvas_motion st event_x event_y <> None)
  /\ (forall w h found, auto_detect_boundary st w h found <> None)
  /\ (forall w h answer, mark_center st w h answer <> None)
  /\ (forall w h answer, set_north_tilt st w h answer <> None)
  /\ (forall w h, mark_cardinal_lines st w h <> None)
  /\ (forall w h, mark_16_zones st w h <> None)
  /\ calculate_plot_area (boundary_points (geometry st)) <> None
  /\ (forall w h,
        Window.calculate_zone_areas fillPoly_paints fillConvexPoly_paints
          st w h <> None)
  /\ Window.export_pdf_report fillPoly_paints fillConvexPoly_paints st
     <> None.
Proof.
  intros Hreach.
  pose proof (reachable_consistent _ _ st Hreach) as Hc.
  repeat match goal with |- _ /\ _ => split end.
  - intros w h img_h img_w Hh Hw. unfold upload_image.
    destruct (render_canvas_some
                (clear_geometry_only
                   (set_geometry st
                      (set_original_bgr (geometry st) (Some (img_h, img_w)))))
                w h img_h img_w eq_refl Hh Hw) as (st' & Hr & _).
    rewrite Hr. discriminate.
  - intros w h. unfold clear_markings.
    destruct (original_bgr (geometry st)) eqn:Himg; [|discriminate].
    apply (render_canvas_same_image st); [exact Hc|reflexivity].
  - intros w h. unfold _on_canvas_resize.
    destruct (original_bgr (geometry st)); [|discriminate].
    apply render_canvas_total, Hc.
  - intros mode w h. unfold _on_boundary_mode_change.
    apply (render_canvas_same_image st); [exact Hc|reflexivity].
  - intros w h. unfold set_center_boundary_target.
    apply (render_canvas_same_image st); [exact Hc|reflexivity].
  - intros w h. unfold set_barchart_boundary_target.
    apply (render_canvas_same_image st); [exact Hc|reflexivity].
  - intros w h event_x event_y. apply on_canvas_click_total, Hc.
  - intros event_x event_y. apply on_canvas_motion_total, Hc.
  - intros w h found. apply auto_detect_boundary_total, Hc.
  - intros w h answer. apply mark_center_total, Hc.
  - intros w h answer. apply set_north_tilt_total, Hc.
  - intros w h. apply mark_cardinal_lines_total, Hc.
  - intros w h. apply mark_16_zones_total, Hc.
  - unfold calculate_plot_area.
    destruct (_ <? 3)%nat eqn:Hlen; [discriminate|].
    apply Nat.ltb_ge in Hlen.
    pose proof (polygon_area_total _ Hlen) as Harea.
    destruct (_polygon_area _); cbn [bind]; [discriminate|congruence].
  - intros w h. apply window_calculate_zone_areas_total, Hc.
  - apply window_export_pdf_report_total, Hc.
Qed.

(** X16.  In every window reached from the start the boundary half of
    the guards never decides: [mark_cardinal_lines] and [mark_16_zones]
    never show "Please mark/detect plot boundary first.", the PDF export
    is refused exactly when no center is set, and when cached zone areas
    exist the export reports them (the recomputation for a cache of
    another length than 16 never runs). *)
Theorem reachable_boundary_guard_dead (st : Studio) :
  reachable st ->
  (forall w h st',
     mark_cardinal_lines st w h <> Some (st', WarnMarkBoundaryFirst))
  /\ (forall w h st',
        mark_16_zones st w h <> Some (st', WarnMarkBoundaryFirst))
  /\ export_guard (geometry st) = negb (is_none (center_point (geometry st)))
  /\ (forall cached g' zone_areas,
        zone_areas_cache (geometry st) = Some cached ->
        export_zone_areas fillPoly_paints fillConvexPoly_paints (geometry st)
        = Some (g', zone_areas) ->
        zone_areas = cached).
Proof.
  intros Hreach.
  pose proof (reachable_consistent _ _ st Hreach) as Hc.
  assert (Hlen : center_point (geometry st) <> None ->
                 (length (boundary_points (geometry st)) <? 3)%nat = false).
  { intros Hcenter. apply Nat.ltb_ge.
    apply (closed_three st Hc), (center_closed st Hc), Hcenter. }
  split; [|split; [|split]].
  - intros w h st'. unfold mark_cardinal_lines.
    destruct (center_point (geometry st)) as [c|] eqn:Hcenter; cbn [is_none];
      [|discriminate].
    rewrite Hlen by discriminate.
    destruct (_render_canvas _ w h); cbn [bind]; discriminate.
  - intros w h st'. unfold mark_16_zones.
    destruct (center_point (geometry st)) as [c|] eqn:Hcenter; cbn [is_none];
      [|discriminate].
    rewrite Hlen by discriminate.
    destruct (_render_canvas _ w h); cbn [bind]; discriminate.
  - unfold export_guard.
    destruct (center_point (geometry st)) as [c|] eqn:Hcenter; cbn [is_none].
    + rewrite Hlen by discriminate. reflexivity.
    + rewrite orb_true_r. reflexivity.
  - intros cached g' zone_areas Hcache. unfold export_zone_areas.
    rewrite Hcache. rewrite (cache_sixteen st Hc cached Hcache).
    cbn [Nat.eqb negb bind]. intros H. injection H as _ <-. reflexivity.
Qed.

End Reachable.

(** ** A session *)

Lemma py_int_IZR (z : Z) : py_int (IZR z) = z.
Proof.
  unfold py_int. destruct (Rle_dec 0 (IZR z)) as [Hle|Hlt].
  - symmetry. apply Int_part_spec. lra.
  - rewrite <- opp_IZR.
    rewrite <- (Int_part_spec (IZR (- z)) (- z)%Z) by lra. lia.
Qed.

(** The display fields of a 2 x 2 image on a canvas of 800 x 600. *)
Lemma render_sample (st : Studio) :
  original_bgr (geometry st) = Some (2%nat, 2%nat) ->
  _render_canvas st 800 600 = Some (set_display st 272 544 544 128 28).
Proof.
  intros Himg. unfold _render_canvas. rewrite Himg. cbv zeta.
  change (Z.max 1 (Z.max 800 1 - 2 * IMAGE_CANVAS_PADDING)) with 744%Z.
  change (Z.max 1 (Z.max 600 1 - 2 * IMAGE_CANVAS_PADDING)) with 544%Z.
  change (Z.max 800 1) with 800%Z. change (Z.max 600 1) with 600%Z.
  assert (H2 : INR 2 = 2) by (simpl; lra).
  rewrite H2. rewrite !float_div_some by lra. cbn [bind].
  assert (Hs : py_min2 (744 / 2) (544 / 2) = 272).
  { unfold py_min2.
    assert (Hlt : float_lt (544 / 2) (744 / 2) = true)
      by (apply float_lt_true; lra).
    rewrite Hlt. lra. }
  rewrite Hs. replace (2 * 272) with 544 by lra.
  rewrite py_int_IZR. reflexivity.
Qed.

Lemma canvas_to_image_sample (st : Studio) (x y : Z) (px py : R) :
  original_bgr (geometry st) = Some (2%nat, 2%nat) ->
  display_scale st = 272 ->
  image_offset_x st = 128%Z ->
  image_offset_y st = 28%Z ->
  IZR x = px * 272 + 128 ->
  IZR y = py * 272 + 28 ->
  0 <= px < 2 ->
  0 <= py < 2 ->
  _canvas_to_image st (IZR x) (IZR y) = Some (Some (px, py)).
Proof.
  intros Himg Hs Hx0 Hy0 Hx Hy Hpx Hpy. unfold _canvas_to_image.
  rewrite Himg, Hs, Hx0, Hy0, Hx, Hy.
  rewrite !float_div_some by lra. cbn [bind].
  replace ((px * 272 + 128 - 128) / 272) with px by (field; lra).
  replace ((py * 272 + 28 - 28) / 272) with py by (field; lra).
  assert (H2 : INR 2 = 2) by (simpl; lra). rewrite H2.
  assert (H1 : float_lt px 0 = false) by (apply float_lt_false; lra).
  assert (H3 : float_lt py 0 = false) by (apply float_lt_false; lra).
  assert (H4 : float_ge px 2 = false) by (apply float_ge_false; lra).
  assert (H5 : float_ge py 2 = false) by (apply float_ge_false; lra).
  rewrite H1, H3, H4, H5. reflexivity.
Qed.

(** A click on the open center boundary of the sample window. *)
Lemma click_center_sample (g : PlotAnalyzerApp) (zones : bool) (x y : Z)
  (px py : R) :
  original_bgr g = Some (2%nat, 2%nat) ->
  IZR x = px * 272 + 128 ->
  IZR y = py * 272 + 28 ->
  0 <= px < 2 ->
  0 <= py < 2 ->
  _on_canvas_click (sample_window g false zones "center") 800 600 x y
  = Some (sample_window
            (set_boundary_points g (boundary_points g ++ [(px, py)]))
            false zones "center").
Proof.
  intros Himg Hx Hy Hpx Hpy. unfold _on_canvas_click.
  rewrite (canvas_to_image_sample (sample_window g false zones "center")
             x y px py Himg eq_refl eq_refl eq_refl Hx Hy Hpx Hpy).
  cbn [sample_window geometry boundary_mode active_boundary_target
       polygon_closed String.eqb Ascii.eqb Bool.eqb negb bind].
  rewrite Himg. apply render_sample. exact Himg.
Qed.

(** A click on the open barchart boundary of the sample window. *)
Lemma click_barchart_sample (g : PlotAnalyzerApp) (closed zones : bool)
  (x y : Z) (px py : R) :
  original_bgr g = Some (2%nat, 2%nat) ->
  barchart_polygon_closed g = false ->
  IZR x = px * 272 + 128 ->
  IZR y = py * 272 + 28 ->
  0 <= px < 2 ->
  0 <= py < 2 ->
  _on_canvas_click (sample_window g closed zones "barchart") 800 600 x y
  = Some (sample_window
            (set_barchart_boundary_points g
               (barchart_boundary_points g ++ [(px, py)]))
            closed zones "barchart").
Proof.
  intros Himg Hopen Hx Hy Hpx Hpy. unfold _on_canvas_click.
  rewrite (canvas_to_image_sample (sample_window g closed zones "barchart")
             x y px py Himg eq_refl eq_refl eq_refl Hx Hy Hpx Hpy).
  cbn [sample_window geometry boundary_mode active_boundary_target
       polygon_closed String.eqb Ascii.eqb Bool.eqb negb bind].
  rewrite Himg, Hopen. apply render_sample. exact Himg.
Qed.

Lemma mark_center_sample (g : PlotAnalyzerApp) (closed zones : bool)
  (target : string) (c : point) (angle : R) :
  original_bgr g = Some (2%nat, 2%nat) ->
  (3 <= length (boundary_points g))%nat ->
  _polygon_centroid (boundary_points g) = Some c ->
  mark_center (sample_window g closed zones target) 800 600 (Some angle)
  = Some (sample_window (set_north_tilt_deg (set_center_point g (Some c)) angle)
            true zones target,
          CenterMarked).
Proof.
  intros Himg Hlen Hc. unfold mark_center.
  cbn [sample_window geometry set_polygon_closed].
  apply Nat.ltb_ge in Hlen. rewrite Himg, Hlen, Hc.
  rewrite render_sample by exact Himg. reflexivity.
Qed.

Lemma mark_16_zones_sample (g : PlotAnalyzerApp) (closed zones : bool)
  (target : string) (c : point) :
  original_bgr g = Some (2%nat, 2%nat) ->
  center_point g = Some c ->
  (3 <= length (boundary_points g))%nat ->
  mark_16_zones (sample_window g closed zones target) 800 600
  = Some (sample_window g closed true target, LinesDrawn).
Proof.
  intros Himg Hc Hlen. unfold mark_16_zones.
  cbn [sample_window geometry]. apply Nat.ltb_ge in Hlen.
  rewrite Hc, Hlen. cbn [is_none].
  rewrite render_sample by exact Himg. reflexivity.
Qed.

Lemma set_barchart_boundary_target_sample (g : PlotAnalyzerApp)
  (closed zones : bool) (target : string) :
  original_bgr g = Some (2%nat, 2%nat) ->
  set_barchart_boundary_target (sample_window g closed zones target) 800 600
  = Some (sample_window g closed zones "barchart").
Proof.
  intros Himg. unfold set_barchart_boundary_target.
  rewrite render_sample by exact Himg. reflexivity.
Qed.

(** Calculating the zone areas of the barchart boundary in the sample
    window. *)
Lemma calculate_zone_areas_sample (g : PlotAnalyzerApp) (closed zones : bool)
  (target : string) (c : point) :
  original_bgr g = Some (2%nat, 2%nat) ->
  center_point g = Some c ->
  (3 <= length (barchart_boundary_points g))%nat ->
  exists zone_areas dialog,
    Window.calculate_zone_areas paints_all paints_all
      (sample_window g closed zones target) 800 600
    = Some (sample_window
              (set_barchart_polygon_closed
                 (set_zone_areas_cache g (Some zone_areas)) true)
              closed zones target,
            dialog).
Proof.
  intros Himg Hc Hlen.
  assert (Huses : uses_barchart_boundary g = true)
    by (unfold uses_barchart_boundary; apply Nat.leb_le; exact Hlen).
  assert (Hpts : (3 <= length (barchart_points g))%nat)
    by (unfold barchart_points; rewrite Huses; exact Hlen).
  destruct (compute_zone_areas_total paints_all paints_all g
              (barchart_points g) (2%nat, 2%nat) c Himg Hc)
    as (zone_areas & Hz & _).
  pose proof (polygon_area_total _ Hpts) as Harea.
  destruct (_polygon_area (barchart_points g)) as [total_area|] eqn:Ha;
    [clear Harea|congruence].
  exists zone_areas. eexists.
  unfold Window.calculate_zone_areas, calculate_zone_areas.
  cbn [sample_window geometry].
  apply Nat.ltb_ge in Hpts. rewrite Hpts, Hc. cbn [is_none orb].
  rewrite Hz. cbn [bind]. rewrite Ha. cbn [bind].
  change (uses_barchart_boundary (set_zone_areas_cache g (Some zone_areas)))
    with (uses_barchart_boundary g).
  rewrite Huses.
  change (uses_barchart_boundary
            (set_barchart_polygon_closed
               (set_zone_areas_cache g (Some zone_areas)) true))
    with (uses_barchart_boundary g).
  rewrite Huses.
  rewrite render_sample by exact Himg. reflexivity.
Qed.

(** The session runs, and this is the window it ends in. *)
Lemma sample_session_runs :
  exists st cached,
    sample_session st
    /\ Window.reachable paints_all paints_all st
    /\ original_bgr (geometry st) = Some (2%nat, 2%nat)
    /\ boundary_points (geometry st) = [(0, 0); (1, 0); (0, 1)]
    /\ barchart_boundary_points (geometry st) = [(0, 0); (1, 0); (1, 1)]
    /\ center_point (geometry st) = Some (1 / 3, 1 / 3)
    /\ zones_drawn st = true
    /\ barchart_polygon_closed (geometry st) = true
    /\ zone_areas_cache (geometry st) = Some cached.
Proof.
  set (img := Some (2%nat, 2%nat)).
  set (tri := [(0, 0); (1, 0); (0, 1)] : list point).
  set (c := Some (1 / 3, 1 / 3) : option point).
  set (s1 := sample_window (mk_app img [] [] false None 0 None)
               false false "center").
  set (s2 := sample_window (mk_app img [(0, 0)] [] false None 0 None)
               false false "center").
  set (s3 := sample_window (mk_app img [(0, 0); (1, 0)] [] false None 0 None)
               false false "center").
  set (s4 := sample_window (mk_app img tri [] false None 0 None)
               false false "center").
  set (s5 := sample_window (mk_app img tri [] false c 30 None)
               true false "center").
  set (s6 := sample_window (mk_app img tri [] false c 30 None)
               true true "center").
  set (s7 := sample_window (mk_app img tri [] false c 30 None)
               true true "barchart").
  set (s8 := sample_window (mk_app img tri [(0, 0)] false c 30 None)
               true true "barchart").
  set (s9 := sample_window (mk_app img tri [(0, 0); (1, 0)] false c 30 None)
               true true "barchart").
  set (s10 := sample_window
                (mk_app img tri [(0, 0); (1, 0); (1, 1)] false c 30 None)
                true true "barchart").
  assert (H1 : upload_image startup 800 600 (Some (2%nat, 2%nat)) = Some s1)
    by (unfold upload_image; apply render_sample; reflexivity).
  assert (H2 : _on_canvas_click s1 800 600 128 28 = Some s2)
    by (apply (click_center_sample (mk_app img [] [] false None 0 None) false
                 128 28 0 0); [reflexivity|lra|lra|lra|lra]).
  assert (H3 : _on_canvas_click s2 800 600 400 28 = Some s3)
    by (apply (click_center_sample (mk_app img [(0, 0)] [] false None 0 None)
                 false 400 28 1 0); [reflexivity|lra|lra|lra|lra]).
  assert (H4 : _on_canvas_click s3 800 600 128 300 = Some s4)
    by (apply (click_center_sample
                 (mk_app img [(0, 0); (1, 0)] [] false None 0 None)
                 false 128 300 0 1); [reflexivity|lra|lra|lra|lra]).
  assert (H5 : mark_center s4 800 600 (Some 30) = Some (s5, CenterMarked))
    by (apply (mark_center_sample (mk_app img tri [] false None 0 None)
                 false false "center" (1 / 3, 1 / 3) 30);
        [reflexivity|apply le_n|exact centroid_of_sample_triangle]).
  assert (H6 : mark_16_zones s5 800 600 = Some (s6, LinesDrawn))
    by (apply (mark_16_zones_sample (mk_app img tri [] false c 30 None)
                 true false "center" (1 / 3, 1 / 3));
        [reflexivity|reflexivity|apply le_n]).
  assert (H7 : set_barchart_boundary_target s6 800 600 = Some s7)
    by (apply (set_barchart_boundary_target_sample
                 (mk_app img tri [] false c 30 None) true true "center");
        reflexivity).
  assert (H8 : _on_canvas_click s7 800 600 128 28 = Some s8)
    by (apply (click_barchart_sample (mk_app img tri [] false c 30 None)
                 true true 128 28 0 0);
        [reflexivity|reflexivity|lra|lra|lra|lra]).
  assert (H9 : _on_canvas_click s8 800 600 400 28 = Some s9)
    by (apply (click_barchart_sample
                 (mk_app img tri [(0, 0)] false c 30 None)
                 true true 400 28 1 0);
        [reflexivity|reflexivity|lra|lra|lra|lra]).
  assert (H10 : _on_canvas_click s9 800 600 400 300 = Some s10)
    by (apply (click_barchart_sample
                 (mk_app img tri [(0, 0); (1, 0)] false c 30 None)
                 true true 400 300 1 1);
        [reflexivity|reflexivity|lra|lra|lra|lra]).
  destruct (calculate_zone_areas_sample
              (mk_app img tri [(0, 0); (1, 0); (1, 1)] false c 30 None)
              true true "barchart" (1 / 3, 1 / 3) eq_refl eq_refl (le_n 3))
    as (zone_areas & dialog & H11).
  fold s10 in H11.
  eexists. exists zone_areas. split.
  { exists s1, s2, s3, s4, s5, s6, s7, s8, s9, s10, dialog.
    repeat (split; [assumption|]). exact H11. }
  split.
  { pose proof (Window.reachable_startup paints_all paints_all) as R0.
    pose proof (Window.reachable_step _ _ _ _ R0
                  (Window.step_upload_image _ _ startup 800 600 2 2 s1
                     (Nat.lt_0_succ 1) (Nat.lt_0_succ 1) H1)) as R1.
    pose proof (Window.reachable_step _ _ _ _ R1
                  (Window.step_canvas_click _ _ _ _ _ _ _ _ H2)) as R2.
    pose proof (Window.reachable_step _ _ _ _ R2
                  (Window.step_canvas_click _ _ _ _ _ _ _ _ H3)) as R3.
    pose proof (Window.reachable_step _ _ _ _ R3
                  (Window.step_canvas_click _ _ _ _ _ _ _ _ H4)) as R4.
    pose proof (Window.reachable_step _ _ _ _ R4
                  (Window.step_mark_center _ _ _ _ _ _ _ _ H5)) as R5.
    pose proof (Window.reachable_step _ _ _ _ R5
                  (Window.step_16_zones _ _ _ _ _ _ _ H6)) as R6.
    pose proof (Window.reachable_step _ _ _ _ R6
                  (Window.step_barchart_target _ _ _ _ _ _ H7)) as R7.
    pose proof (Window.reachable_step _ _ _ _ R7
                  (Window.step_canvas_click _ _ _ _ _ _ _ _ H8)) as R8.
    pose proof (Window.reachable_step _ _ _ _ R8
                  (Window.step_canvas_click _ _ _ _ _ _ _ _ H9)) as R9.
    pose proof (Window.reachable_step _ _ _ _ R9
                  (Window.step_canvas_click _ _ _ _ _ _ _ _ H10)) as R10.
    exact (Window.reachable_step _ _ _ _ R10
             (Window.step_zone_areas _ _ _ _ _ _ _ H11)). }
  repeat split.
Qed.

Lemma reachable_window_invariant_witness :
  exists st cached,
    sample_session st
    /\ center_point (geometry st) = Some (1 / 3, 1 / 3)
    /\ zones_drawn st = true
    /\ barchart_polygon_closed (geometry st) = true
    /\ zone_areas_cache (geometry st) = Some cached
    /\ polygon_closed st = true
    /\ (3 <= length (boundary_points (geometry st)))%nat
    /\ original_bgr (geometry st) <> None
    /\ (3 <= length (barchart_boundary_points (geometry st)))%nat
    /\ length cached = 16%nat.
Proof.
  destruct sample_session_runs
    as (st & cached & Hrun & Hreach & _ & _ & _ & Hcenter & Hzones & Hclosed
        & Hcache).
  exists st, cached.
  destruct (reachable_window_invariant paints_all paints_all st Hreach)
    as (Hc & _ & Hsixteen & _ & Hbar & _).
  destruct (Hc ltac:(rewrite Hcenter; discriminate)) as (Himg & Hpc & Hlen).
  split; [exact Hrun|]. split; [exact Hcenter|]. split; [exact Hzones|].
  split; [exact Hclosed|]. split; [exact Hcache|]. split; [exact Hpc|].
  split; [exact Hlen|]. split; [exact Himg|].
  split; [exact (Hbar Hclosed)|exact (Hsixteen cached Hcache)].
Defined.

Lemma reachable_no_exception_witness :
  exists st',
    upload_image startup 800 600 (Some (2%nat, 2%nat)) = Some st'
    /\ forall w h event_x event_y,
         _on_canvas_click st' w h event_x event_y <> None.
Proof.
  destruct upload_reachable as (st' & Hup & Hreach).
  exists st'. split; [exact Hup|].
  apply (reachable_no_exception paints_all paints_all st' (Hreach _ _)).
Defined.

Lemma reachable_boundary_guard_dead_witness :
  exists st cached g',
    sample_session st
    /\ center_point (geometry st) = Some (1 / 3, 1 / 3)
    /\ zone_areas_cache (geometry st) = Some cached
    /\ export_guard (geometry st) = true
    /\ (forall w h st',
          mark_cardinal_lines st w h <> Some (st', WarnMarkBoundaryFirst))
    /\ export_zone_areas paints_all paints_all (geometry st)
       = Some (g', cached).
Proof.
  destruct sample_session_runs
    as (st & cached & Hrun & Hreach & Himg & _ & _ & Hcenter & _ & _
        & Hcache).
  destruct (export_zone_areas_source paints_all paints_all (geometry st)
              (2%nat, 2%nat) (1 / 3, 1 / 3) Himg Hcenter)
    as (g' & zone_areas & Hexport & _).
  exists st, cached, g'.
  destruct (reachable_boundary_guard_dead paints_all paints_all st Hreach)
    as (Hcardinal & _ & Hguard & Hreuse).
  split; [exact Hrun|]. split; [exact Hcenter|]. split; [exact Hcache|].
  split; [rewrite Hguard, Hcenter; reflexivity|].
  split; [exact Hcardinal|].
  rewrite <- (Hreuse cached g' zone_areas Hcache Hexport). exact Hexport.
Defined.

(** ** More on the prakriti groups *)

Lemma insert_desc_permutation (x : string * R) (l : list (string * R)) :
  Permutation (Py.insert_desc x l) (x :: l).
Proof.
  induction l as [|y rest IH]; cbn [Py.insert_desc]; [reflexivity|].
  destruct (float_lt (snd y) (snd x)); [reflexivity|].
  rewrite IH. apply perm_swap.
Qed.

Lemma insert_desc_sorted (x : string * R) (l : list (string * R)) :
  StronglySorted (fun a b => snd b <= snd a) l ->
  StronglySorted (fun a b => snd b <= snd a) (Py.insert_desc x l).
Proof.
  induction l as [|y rest IH]; intros Hs; cbn [Py.insert_desc].
  - constructor; constructor.
  - apply StronglySorted_inv in Hs. destruct Hs as [Hrest Hy].
    destruct (float_lt (snd y) (snd x)) eqn:Hlt.
    + apply float_lt_true in Hlt. constructor.
      * constructor; assumption.
      * constructor; [lra|].
        eapply Forall_impl; [|exact Hy]. cbn beta. intros z Hz. lra.
    + apply float_lt_false in Hlt. constructor; [apply IH, Hrest|].
      eapply Permutation_Forall;
        [symmetry; apply insert_desc_permutation|].
      constructor; assumption.
Qed.

Lemma sorted_desc_fold (items acc : list (string * R)) :
  StronglySorted (fun a b => snd b <= snd a) acc ->
  Permutation (fold_left (fun acc x => Py.insert_desc x acc) items acc)
    (items ++ acc)
  /\ StronglySorted (fun a b => snd b <= snd a)
       (fold_left (fun acc x => Py.insert_desc x acc) items acc).
Proof.
  revert acc. induction items as [|x items IH]; intros acc Hs;
    cbn [fold_left app].
  - split; [reflexivity|exact Hs].
  - destruct (IH (Py.insert_desc x acc) (insert_desc_sorted x acc Hs))
      as [Hperm Hsorted].
    split; [|exact Hsorted].
    rewrite Hperm, insert_desc_permutation. symmetry.
    apply Permutation_middle.
Qed.

(** [sorted(..., reverse=True)] answers a rearrangement of its input in
    non-increasing order of the values. *)
Lemma sorted_desc_spec (items : list (string * R)) :
  Permutation (Py.sorted_desc items) items
  /\ StronglySorted (fun a b => snd b <= snd a) (Py.sorted_desc items).
Proof.
  destruct (sorted_desc_fold items [] (SSorted_nil _)) as [Hperm Hsorted].
  split; [|exact Hsorted].
  unfold Py.sorted_desc. rewrite Hperm, app_nil_r. reflexivity.
Qed.

(** The three groups cover every zone once: their strengths add up to
    the sum of the sixteen areas. *)
Lemma prakriti_strength_total (zone_areas : list R) :
  length zone_areas = 16%nat ->
  exists fire water air,
    prakriti_strength_of (zone_data_of zone_areas)
    = Some [("Fire"%string, fire); ("Water"%string, water);
            ("Air"%string, air)]
    /\ fire + water + air = Py.sum zone_areas.
Proof.
  intros Hlen.
  do 17 (destruct zone_areas as [|? zone_areas]; try discriminate Hlen).
  do 3 eexists. split; [apply prakriti_strength_sums|].
  rewrite !py_sum_cons, py_sum_nil. ring.
Qed.

(** X17.  On sixteen zone areas the report's prakriti total is the sum
    of all sixteen areas (every zone belongs to exactly one group).  A
    sum of at most 0 gives the error "Prakriti total is zero"; with a
    positive sum the three percentages add up to 100 within 1e-6 and the
    ranking is a rearrangement of the three groups in non-increasing
    order of strength. *)
Theorem aggregate_prakriti_totals (zone_areas : list R) :
  length zone_areas = 16%nat ->
  (Py.sum zone_areas <= 0 ->
   aggregate_prakriti (zone_data_of zone_areas) = Some ErrorPrakritiTotalZero)
  /\ (0 < Py.sum zone_areas ->
      exists r,
        aggregate_prakriti (zone_data_of zone_areas) = Some (PrakritiOk r)
        /\ total_prakriti r = Py.sum zone_areas
        /\ Rabs (Py.sum (map snd (prakriti_percentage r)) - 100) <= 1e-6
        /\ Permutation (prakriti_sorted r) (prakriti_strength r)
        /\ StronglySorted (fun a b => snd b <= snd a) (prakriti_sorted r)).
Proof.
  intros Hlen.
  destruct (prakriti_strength_total zone_areas Hlen)
    as (fire & water & air & Hstrength & Htotal).
  assert (Hsum : Py.sum (map snd [("Fire"%string, fire); ("Water"%string, water);
                                  ("Air"%string, air)])
                 = Py.sum zone_areas).
  { cbn [map snd]. rewrite !py_sum_cons, py_sum_nil. lra. }
  split; intros Hsign.
  - unfold aggregate_prakriti. rewrite Hstrength. cbn [bind]. rewrite Hsum.
    apply float_le_true in Hsign. rewrite Hsign. reflexivity.
  - rewrite <- Hsum in Hsign.
    rewrite (aggregate_prakriti_ok _ _ Hstrength Hsign).
    eexists. split; [reflexivity|].
    cbn [total_prakriti prakriti_percentage prakriti_sorted prakriti_strength].
    split; [exact Hsum|]. split; [|apply sorted_desc_spec].
    rewrite Hsum in *. cbn [map fst snd].
    rewrite !py_sum_cons, py_sum_nil. rewrite <- Htotal in *.
    replace (fire / (fire + water + air) * 100
             + (water / (fire + water + air) * 100
                + (air / (fire + water + air) * 100 + 0)) - 100)
      with 0 by (field; lra).
    rewrite Rabs_R0. lra.
Qed.

Lemma aggregate_prakriti_totals_witness :
  exists r,
    aggregate_prakriti (zone_data_of (repeat 100 16)) = Some (PrakritiOk r)
    /\ total_prakriti r = Py.sum (repeat 100 16)
    /\ Rabs (Py.sum (map snd (prakriti_percentage r)) - 100) <= 1e-6.
Proof.
  assert (Hpos : 0 < Py.sum (repeat 100 16))
    by (cbn [repeat]; rewrite !py_sum_cons, py_sum_nil; lra).
  destruct (proj2 (aggregate_prakriti_totals (repeat 100 16) eq_refl) Hpos)
    as (r & Hr & Htotal & Hpct & _).
  exists r. split; [exact Hr|]. split; [exact Htotal|exact Hpct].
Defined.

(** X18.  Zone areas are pixel counts, hence not negative; for such
    areas the export stops with "Prakriti total is zero" exactly when
    all sixteen zone areas are zero. *)
Theorem prakriti_total_zero_iff (zone_areas : list R) :
  length zone_areas = 16%nat ->
  Forall (fun a => 0 <= a) zone_areas ->
  (aggregate_prakriti (zone_data_of zone_areas) = Some ErrorPrakritiTotalZero
   <-> Forall (fun a => a = 0) zone_areas).
Proof.
  intros Hlen Hnonneg.
  destruct (prakriti_strength_total zone_areas Hlen)
    as (fire & water & air & Hstrength & Htotal).
  assert (Hsum : Py.sum (map snd [("Fire"%string, fire); ("Water"%string, water);
                                  ("Air"%string, air)])
                 = Py.sum zone_areas).
  { cbn [map snd]. rewrite !py_sum_cons, py_sum_nil. lra. }
  assert (Hlow : 0 <= Py.sum zone_areas).
  { pose proof (py_sum_lower zone_areas 0) as Hl.
    rewrite Rmult_0_r in Hl. apply Hl.
    intros x Hx. rewrite Forall_forall in Hnonneg. apply Hnonneg, Hx. }
  assert (Hzero : Py.sum zone_areas <= 0 <-> Forall (fun a => a = 0) zone_areas).
  { split.
    - intros Hle. apply Forall_forall.
      apply (py_sum_reaches_lower zone_areas 0).
      + intros x Hx. rewrite Forall_forall in Hnonneg. apply Hnonneg, Hx.
      + lra.
    - intros Hall.
      pose proof (py_sum_upper zone_areas 0) as Hu.
      rewrite Rmult_0_r in Hu. apply Hu.
      intros x Hx. rewrite Forall_forall in Hall. rewrite (Hall x Hx). lra. }
  rewrite <- Hzero. unfold aggregate_prakriti. rewrite Hstrength.
  cbn [bind]. rewrite Hsum.
  destruct (float_le (Py.sum zone_areas) 0) eqn:Hle.
  - apply float_le_true in Hle. tauto.
  - apply float_le_false in Hle. split; [discriminate|lra].
Qed.

Lemma prakriti_total_zero_iff_witness :
  aggregate_prakriti (zone_data_of (repeat 0 16)) = Some ErrorPrakritiTotalZero.
Proof.
  apply (prakriti_total_zero_iff (repeat 0 16) eq_refl).
  - apply Forall_forall. intros x Hx. apply repeat_spec in Hx. lra.
  - apply Forall_forall. intros x Hx. apply repeat_spec in Hx. exact Hx.
Defined.

(** ** Pixel counts *)

Lemma count_land_row (r1 r2 : list Z) :
  (length (filter (fun c => negb (c =? 0)%Z)
             (map (fun c => Z.land (fst c) (snd c)) (combine r1 r2)))
   <= length (filter (fun c => negb (c =? 0)%Z) r1))%nat.
Proof.
  revert r2. induction r1 as [|a r1 IH]; intros [|b r2];
    cbn [combine map filter length fst snd]; try lia.
  specialize (IH r2).
  destruct (Z.land a b =? 0)%Z eqn:Hland; destruct (a =? 0)%Z eqn:Ha;
    cbn [negb length]; try lia.
  apply Z.eqb_eq in Ha. subst a. rewrite Z.land_0_l in Hland. discriminate.
Qed.

(** An intersection of two masks has no more non-zero pixels than the
    first one. *)
Lemma countNonZero_bitwise_and (m1 m2 : mask) :
  (countNonZero (bitwise_and m1 m2) <= countNonZero m1)%nat.
Proof.
  unfold countNonZero, bitwise_and. revert m2.
  induction m1 as [|r1 m1 IH]; intros [|r2 m2];
    cbn [combine map concat filter length fst snd]; try lia.
  rewrite !filter_app, !length_app.
  pose proof (count_land_row r1 r2). specialize (IH m2). lia.
Qed.

Lemma countNonZero_cells (m : mask) :
  (countNonZero m <= length (concat m))%nat.
Proof. unfold countNonZero. apply filter_length_le. Qed.

Lemma paint_rows_cells (f : nat -> list Z -> list Z) (m : mask) (s : nat) :
  (forall y r, length (f y r) = length r) ->
  length (concat (map (fun yr => f (fst yr) (snd yr))
                    (combine (seq s (length m)) m)))
  = length (concat m).
Proof.
  intros Hf. revert s. induction m as [|r m IH]; intros s; [reflexivity|].
  cbn [length seq combine map concat fst snd].
  rewrite !length_app, Hf, IH. reflexivity.
Qed.

(** Painting keeps the shape of a mask. *)
Lemma paint_cells (paints : Z -> Z -> bool) (color : Z) (m : mask) :
  length (concat (paint paints color m)) = length (concat m).
Proof.
  unfold paint.
  apply (paint_rows_cells
           (fun y r =>
              map (fun xc => if paints (Z.of_nat (fst xc)) (Z.of_nat y)
                             then color else snd xc)
                  (combine (seq 0 (length r)) r))).
  intros y r. rewrite length_map, length_combine, length_seq.
  apply Nat.min_id.
Qed.

Lemma np_zeros_cells (img_h img_w : nat) :
  length (concat (np_zeros img_h img_w)) = (img_h * img_w)%nat.
Proof.
  unfold np_zeros. induction img_h as [|h IH]; [reflexivity|].
  cbn [repeat concat]. rewrite length_app, repeat_length, IH. reflexivity.
Qed.

Section PixelCounts.

Variable fillPoly_paints : list (Z * Z) -> Z -> Z -> bool.
Variable fillConvexPoly_paints : list (Z * Z) -> Z -> Z -> bool.

(** One wedge counts no more pixels than the polygon mask holds. *)
Lemma zone_area_bounded (img_h img_w : nat) (polygon_mask : mask)
  (cx cy start_boundary_deg step far_r : R) (i : nat) :
  0 <= zone_area fillConvexPoly_paints img_h img_w polygon_mask cx cy
         start_boundary_deg step far_r i
  <= INR (countNonZero polygon_mask).
Proof.
  unfold zone_area. cbv zeta. split; [apply pos_INR|].
  apply le_INR, countNonZero_bitwise_and.
Qed.

(** X19.  Every zone area the mask engine returns is a pixel count
    between 0 and the number of pixels of the filled boundary polygon,
    which is at most the number of pixels of the image. *)
Theorem zone_areas_bounded (g : PlotAnalyzerApp) (polygon_points : list point)
  (img_h img_w : nat) (zone_areas : list R) :
  original_bgr g = Some (img_h, img_w) ->
  _compute_zone_areas_mask_based fillPoly_paints fillConvexPoly_paints g
    polygon_points = Some zone_areas ->
  Forall (fun a =>
            0 <= a
            <= INR (countNonZero
                      (fillPoly fillPoly_paints (np_zeros img_h img_w)
                         (map int32_point polygon_points) 255))
            /\ a <= INR (img_h * img_w))
         zone_areas.
Proof.
  intros Himg. unfold _compute_zone_areas_mask_based. rewrite Himg.
  cbn [bind].
  destruct (center_point g) as [[cx cy]|]; cbn [bind]; [|discriminate].
  set (polygon_mask := fillPoly fillPoly_paints (np_zeros img_h img_w)
                         (map int32_point polygon_points) 255).
  intros H.
  assert (Hza : zone_areas
                = map (zone_area fillConvexPoly_paints img_h img_w polygon_mask
                         cx cy (north_tilt_deg g - 360 / 16 / 2) (360 / 16)
                         (hypot (INR img_w) (INR img_h) * 2))
                      (seq 0 16)) by congruence.
  clear H. subst zone_areas.
  assert (Hcells : (countNonZero polygon_mask <= img_h * img_w)%nat).
  { pose proof (countNonZero_cells polygon_mask) as Hle.
    unfold polygon_mask, fillPoly in Hle.
    rewrite paint_cells, np_zeros_cells in Hle. exact Hle. }
  apply le_INR in Hcells.
  apply Forall_forall. intros a Ha. apply in_map_iff in Ha.
  destruct Ha as (i & <- & _).
  pose proof (zone_area_bounded img_h img_w polygon_mask cx cy
                (north_tilt_deg g - 360 / 16 / 2) (360 / 16)
                (hypot (INR img_w) (INR img_h) * 2) i) as Hb.
  split; [exact Hb|lra].
Qed.

End PixelCounts.

Lemma zone_areas_bounded_witness :
  exists zone_areas,
    _compute_zone_areas_mask_based paints_all paints_all center_only_state
      pixel_square = Some zone_areas
    /\ Forall (fun a => a <= INR (2 * 2)) zone_areas.
Proof.
  destruct (compute_zone_areas_total paints_all paints_all center_only_state
              pixel_square (2%nat, 2%nat) (1 / 3, 1 / 3) eq_refl eq_refl)
    as (zone_areas & Hz & _).
  exists zone_areas. split; [exact Hz|].
  eapply Forall_impl;
    [|exact (zone_areas_bounded paints_all paints_all center_only_state
               pixel_square 2 2 zone_areas eq_refl Hz)].
  cbn beta. intros a [_ Ha]. exact Ha.
Defined.

(** ** The crop dialog *)






(** ** From the zone dialog to the report *)

Section Report.

Variable fillPoly_paints : list (Z * Z) -> Z -> Z -> bool.
Variable fillConvexPoly_paints : list (Z * Z) -> Z -> Z -> bool.

(** X21.  When [calculate_zone_areas] has shown its list and the center
    boundary has at least 3 points, a PDF export that follows reports
    exactly the zone areas of that list without measuring again and
    leaves the state as it is; its prakriti total is the "Total zonal
    area (mask sum)" of the dialog, and it stops with "Prakriti total is
    zero" exactly when that sum is not positive. *)
Theorem export_after_calculate (g g' : PlotAnalyzerApp)
  (total_area sum_zone_area : R) (zones : list (string * R)) :
  calculate_zone_areas fillPoly_paints fillConvexPoly_paints g
  = Some (g', ShowZoneAreas total_area sum_zone_area zones) ->
  (3 <= length (boundary_points g))%nat ->
  (sum_zone_area <= 0
   /\ export_pdf_report fillPoly_paints fillConvexPoly_paints g'
      = Some (g', ExportErrorPrakritiTotalZero))
  \/ (0 < sum_zone_area
      /\ exists r,
           export_pdf_report fillPoly_paints fillConvexPoly_paints g'
           = Some (g', ReportValues r)
           /\ report_zone_data r = zones
           /\ total_prakriti (report_prakriti r) = sum_zone_area).
Proof.
  intros Hcalc Hlen.
  destruct (calculate_zone_areas_effect _ _ _ _ _ Hcalc)
    as [[Hd _] | (zone_areas & area & Hd & Hz & Himg & Hb & Hbar & Hcenter
                  & Htilt & Hcache & Hclosed)]; [discriminate|].
  assert (Hsum : sum_zone_area = Py.sum zone_areas) by congruence.
  assert (Hzones : zones = zone_data_of zone_areas)
    by (unfold zone_data_of; congruence).
  clear Hd. subst sum_zone_area zones.
  pose proof (compute_zone_areas_length _ _ _ _ _ Hz) as Hlen16.
  assert (Hc : exists c, center_point g = Some c).
  { unfold _compute_zone_areas_mask_based in Hz.
    destruct (original_bgr g) as [[img_h img_w]|]; [|discriminate].
    cbn [bind] in Hz.
    destruct (center_point g) as [c|]; [exists c; reflexivity|discriminate]. }
  destruct Hc as (c & Hc).
  assert (Hguard : export_guard g' = true).
  { unfold export_guard. rewrite Hb, Hcenter, Hc.
    apply Nat.ltb_ge in Hlen. rewrite Hlen. reflexivity. }
  assert (Hexport : export_zone_areas fillPoly_paints fillConvexPoly_paints g'
                    = Some (g', zone_areas)).
  { unfold export_zone_areas. rewrite Hcache, Hlen16. cbn [Nat.eqb negb bind].
    assert (Huses : uses_barchart_boundary g' = uses_barchart_boundary g)
      by (unfold uses_barchart_boundary; rewrite Hbar; reflexivity).
    rewrite Huses.
    destruct (uses_barchart_boundary g); [|reflexivity].
    destruct g'. cbn [barchart_polygon_closed orb] in Hclosed. subst.
    reflexivity. }
  destruct (balance_lines_spec (zone_data_of zone_areas))
    as (mx & mn & _ & _ & Hlines);
    [destruct zone_areas; [discriminate Hlen16|discriminate]|].
  destruct (prakriti_strength_total zone_areas Hlen16)
    as (fire & water & air & Hstrength & Htotal).
  assert (Hgroups : Py.sum (map snd [("Fire"%string, fire);
                                     ("Water"%string, water);
                                     ("Air"%string, air)])
                    = Py.sum zone_areas).
  { cbn [map snd]. rewrite !py_sum_cons, py_sum_nil. lra. }
  unfold export_pdf_report. rewrite Hguard, Hexport. cbn [negb bind].
  rewrite Hlines. cbn [bind].
  destruct (Rle_dec (Py.sum zone_areas) 0) as [Hle|Hgt].
  - left. split; [exact Hle|].
    unfold aggregate_prakriti. rewrite Hstrength. cbn [bind].
    rewrite Hgroups. apply float_le_true in Hle. rewrite Hle. reflexivity.
  - right. split; [lra|].
    assert (Hpos : 0 < Py.sum (map snd [("Fire"%string, fire);
                                        ("Water"%string, water);
                                        ("Air"%string, air)]))
      by (rewrite Hgroups; lra).
    rewrite (aggregate_prakriti_ok _ _ Hstrength Hpos). cbn [bind].
    eexists. split; [reflexivity|].
    cbn [report_zone_data report_prakriti total_prakriti].
    split; [reflexivity|exact Hgroups].
Qed.

End Report.

Lemma export_after_calculate_witness :
  exists g' total_area sum_zone_area zones,
    calculate_zone_areas paints_all paints_all center_only_state
    = Some (g', ShowZoneAreas total_area sum_zone_area zones)
    /\ ((sum_zone_area <= 0
         /\ export_pdf_report paints_all paints_all g'
            = Some (g', ExportErrorPrakritiTotalZero))
        \/ (0 < sum_zone_area
            /\ exists r,
                 export_pdf_report paints_all paints_all g'
                 = Some (g', ReportValues r)
                 /\ report_zone_data r = zones
                 /\ total_prakriti (report_prakriti r) = sum_zone_area)).
Proof.
  destruct (calculate_zone_areas_runs_engine paints_all paints_all
              center_only_state (2%nat, 2%nat) (1 / 3, 1 / 3) eq_refl eq_refl
              (le_n 3))
    as (zone_areas & total_area & g' & _ & Hcalc & _).
  exists g', total_area, (Py.sum zone_areas), (combine ZONE_NAMES zone_areas).
  split; [exact Hcalc|].
  apply (export_after_calculate paints_all paints_all center_only_state g'
           total_area (Py.sum zone_areas) (combine ZONE_NAMES zone_areas)
           Hcalc (le_n 3)).
Defined.

(** ** Overlays *)

(** The zone center angles of N, E, S and W are the cardinal angles. *)
Lemma cardinal_zone_angles (tilt : R) (label : string) (ang : R) :
  In (label, ang)
     [ ("N", tilt); ("E", tilt + 90); ("S", tilt + 180);
       ("W", tilt + 270) ]%string ->
  exists i,
    In (i, label) (combine (seq 0 (length ZONE_NAMES)) ZONE_NAMES)
    /\ tilt + INR i * (360 / 16) = ang.
Proof.
  intros [H | [H | [H | [H | []]]]]; injection H as <- <-.
  - exists 0%nat. split; [simpl; tauto|]. simpl. lra.
  - exists 4%nat. split; [simpl; tauto|]. simpl. lra.
  - exists 8%nat. split; [simpl; tauto|]. simpl. lra.
  - exists 12%nat. split; [simpl; tauto|]. simpl. lra.
Qed.

(** X23.  With both overlays switched on, each of the lines N, E, S, W
    that reaches the boundary runs from the center to the boundary hit
    of its ray, carries its label at 90% of its length, and passes
    through the name of the zone N, E, S or W, which the zone overlay
    puts on the same line at 62% of its length. *)
Theorem cardinal_lines_meet_zone_labels (st : Studio) (center hit : point)
  (label : string) (ang : R) :
  center_point (geometry st) = Some center ->
  cardinal_drawn st = true ->
  zones_drawn st = true ->
  In (label, ang)
     [ ("N", north_tilt_deg (geometry st));
       ("E", north_tilt_deg (geometry st) + 90);
       ("S", north_tilt_deg (geometry st) + 180);
       ("W", north_tilt_deg (geometry st) + 270) ]%string ->
  _ray_boundary_intersection (boundary_points (geometry st)) center ang
  = Some hit ->
  let c := _image_to_canvas st (fst center) (snd center) in
  let e := _image_to_canvas st (fst hit) (snd hit) in
  In (create_line (fst c) (snd c) (fst e) (snd e)) (_draw_cardinal_overlay st)
  /\ In (create_text (fst c + 0.9 * (fst e - fst c))
           (snd c + 0.9 * (snd e - snd c)) label)
        (_draw_cardinal_overlay st)
  /\ In (create_text (fst c + 0.62 * (fst e - fst c))
           (snd c + 0.62 * (snd e - snd c)) label)
        (_draw_zones_overlay st).
Proof.
  intros Hcenter Hcardinal Hzones Hlabel Hray. cbv zeta.
  assert (Hitems :
    In (create_line (fst (_image_to_canvas st (fst center) (snd center)))
          (snd (_image_to_canvas st (fst center) (snd center)))
          (fst (_image_to_canvas st (fst hit) (snd hit)))
          (snd (_image_to_canvas st (fst hit) (snd hit))))
       (_draw_cardinal_overlay st)
    /\ In (create_text
             (fst (_image_to_canvas st (fst center) (snd center))
              + 0.9 * (fst (_image_to_canvas st (fst hit) (snd hit))
                       - fst (_image_to_canvas st (fst center) (snd center))))
             (snd (_image_to_canvas st (fst center) (snd center))
              + 0.9 * (snd (_image_to_canvas st (fst hit) (snd hit))
                       - snd (_image_to_canvas st (fst center) (snd center))))
             label)
          (_draw_cardinal_overlay st)).
  { unfold _draw_cardinal_overlay. rewrite Hcenter, Hcardinal. cbn [negb].
    unfold _image_to_canvas at 1. cbv zeta.
    split; apply in_flat_map; exists (label, ang);
      (split; [exact Hlabel|]); cbn [fst snd]; rewrite Hray;
      unfold _image_to_canvas; cbn [fst snd]; simpl; tauto. }
  destruct Hitems as [Hline Htext].
  split; [exact Hline|]. split; [exact Htext|].
  destruct (cardinal_zone_angles _ _ _ Hlabel) as (i & Hi & Hang).
  unfold _draw_zones_overlay. rewrite Hcenter, Hzones. cbn [negb].
  destruct center as [cx_img cy_img]. unfold _image_to_canvas at 1. cbv zeta.
  apply in_or_app. right. apply in_flat_map. exists (i, label).
  split; [exact Hi|]. cbn [fst snd]. rewrite Hang, Hray.
  unfold _image_to_canvas. cbn [fst snd]. left. f_equal; ring.
Qed.

Lemma cardinal_lines_meet_zone_labels_witness :
  In (create_line 50 50 50 0) (_draw_cardinal_overlay square_studio)
  /\ In (create_text 50 5 "N") (_draw_cardinal_overlay square_studio)
  /\ In (create_text 50 19 "N") (_draw_zones_overlay square_studio).
Proof.
  pose proof (cardinal_lines_meet_zone_labels square_studio (50, 50) (50, 0)
                "N" 0 eq_refl eq_refl eq_refl (or_introl eq_refl)
                ray_boundary_intersection_square) as H.
  cbv zeta in H. unfold _image_to_canvas in H.
  cbn [square_studio display_scale image_offset_x image_offset_y fst snd] in H.
  replace (50 * 1 + 0) with 50 in H by lra.
  replace (0 * 1 + 0) with 0 in H by lra.
  replace (50 + 0.9 * (50 - 50)) with 50 in H by lra.
  replace (50 + 0.9 * (0 - 50)) with 5 in H by lra.
  replace (50 + 0.62 * (50 - 50)) with 50 in H by lra.
  replace (50 + 0.62 * (0 - 50)) with 19 in H by lra.
  exact H.
Defined.
